(* ===== verification/_CoqProject ===== *)
-Q . S2P
Prelude.v
Slither.v
DiGraph.v
ContractInfo.v
SendFunctions.v
CallGraph.v
Analyze.v
Debug.v
Num.v
Tensor.v
MYGNN.v
GAL.v
GALOrder.v
Glorot.v
Classifier.v
Evaluate.v
