(* ===== verification/Prelude.v ===== *)
(** * A verification development for the Ponzi-scheme detector of slither

    The repository adds a Ponzi-contract detector on top of slither.  Two
    source files make up its core:

    - [src/ponzi_detector/info_analyze/contract_analyze.py], class
      [ContractInfo]: walks one slither [Contract] and extracts its struct
      definitions, the declaration / read / write tables of its state
      variables, the functions that call [.transfer(] / [.send(], and the
      internal call graph (a networkx [DiGraph]).  The constructor runs four
      steps in order ([contract_info_analyze]): [_struct_info],
      [_stat_vars_info_in_contract], [_functions_with_transaction_call],
      [_construct_call_graph].  They share the object [self] and touch
      disjoint fields.

    - [src/ponzi_detector/model/graph_neural_network.py]: the message-passing
      layer [MYGNN] (gated, residual, with batch norm), the attention layer
      [GAL] (dead code: not used by the classifier), the classifier
      [CGCClass] (edge encoder, [n_layers] MYGNN layers, global max pooling,
      dense head, NaN check, sigmoid) and the evaluation loop [test].

    ** Files, in dependency order (see _CoqProject)

    - [Prelude] (this file): the Python idioms the code relies on, shared by
      all the other files: substring search ([x in s] on strings,
      [py_contains]), [str] of an optional expression ([py_str_opt]), the
      "append to the list under a key, creating it if absent" dictionary
      idiom ([dict_append]) with its fold characterisation, Python's
      exceptions ([exc]) with the error monad [res A = exc + A], and the
      state monad [pyst S A = S -> res A * S] of objects mutated in place
      (the state survives an exception), with the combinator lemmas
      ([pyst_keeps_bind], [pyst_keeps_foldl], ...) that carry a relation
      between start and end states through a method, and [pyst_zoom],
      which runs a method of a sub-object; the decimal reading of what
      [pretty] prints ([digits_val], [read_digits], [strip_prefix]), the
      inverse used by the round trips of printed text; the hint databases
      [s2p] and [s2p_rw] and the tactics [py_simpl], [pyst_inv],
      [pyst_unfold].
    - [Slither]: the input data the extractor reads, modelled from the
      spec (slither's core is code of this repository outside src/):
      [StateVariable], [Node], [Function], [InternalCall], [Structure],
      [Contract].  [can_send_eth] is a field of [Function] because slither
      computes it from the function's own body.
    - [DiGraph]: the part of networkx's [DiGraph] that the call graph uses
      ([add_node], [add_edges_from]), written out as ordered node and edge
      lists with networkx's "add if absent" behaviour.
    - [ContractInfo]: the object state (a [Record] with the fields
      [__init__] sets), the constructor's initial state, [_struct_info]
      and [_stat_vars_info_in_contract] with the exact characterisation of
      the declaration, read and write tables.
    - [SendFunctions]: [_functions_with_transaction_call].
    - [CallGraph]: [_construct_call_graph], its loop state (the id map,
      the node counter, the dedup table keyed by ["{}-{}"] strings, the
      edge list), and the graph invariants.
    - [Analyze]: [contract_info_analyze] and the constructor
      [ContractInfo(contract)]; the end-to-end scenario of the spec and the
      consequences of the shared [self] (re-running the analysis).
    - [Debug]: [debug_stat_var_info], the lines it prints, for every
      iteration order of the three dicts.
    - [Num]: the scalars of the network, reals extended with NaN (NaN
      absorbing, division by zero and square root of a negative give NaN),
      with torch's [sigmoid], [softplus] ([beta = 1], [threshold = 20]),
      [relu], [LeakyReLU] and [torch.exp]; and Python floats where the
      code leaves torch: [math.exp] with its [OverflowError] and its
      underflow to [0.0] ([py_exp]), and [/] with its
      [ZeroDivisionError] ([py_truediv]).
    - [Tensor]: vectors and matrices as lists of rows, [Linear] (on a
      matrix, [linear_rows]: rows of another width than [in_features]
      raise [RuntimeError]), the in-place [out += x] with torch's
      broadcasting ([iadd]), PyG's [propagate] with [aggr='add'] (an
      index out of range raises [IndexError], attribute rows that do not
      match the edges or widths [message] does not accept raise
      [RuntimeError], then a scatter-add fold of the messages) behind the
      [MessagePassing] typeclass whose instances supply [message] and
      its width check; [BatchNorm1d] in training mode (batch statistics,
      running statistics updated by momentum, [ValueError] on a single
      row) and evaluation mode, [RuntimeError] on rows of another width;
      [global_max_pool]; [F.dropout]; and the [RandomSource]
      typeclass for torch's global generator (initialisation of a
      [Linear], dropout masks, [Tensor.uniform_]), with the shape and
      range laws torch guarantees and an instance showing they can be met.
    - [MYGNN]: the layer's parameters, its constructor (with the second
      draw of [reset_parameters]), [message] (a sigmoid gate times a
      softplus candidate, computed from [x_i] and the edge attribute) and
      [forward] (propagate, optional batch norm, residual [out += x[1]]),
      on a tensor ([forward]) or a [PairTensor] ([forward_py]);
      [forward] returns the layer too, because batch norm updates its
      running statistics; [__repr__].
    - [GAL]: the attention layer (dead code of the file): its constructor
      ([xavier_uniform_] on [self.a]), [self.linear], the scores of
      [torch.mm] (with its width check) and [squeeze] (a 0-d tensor for
      one edge, [Squeezed]), the loop of the sums per source node (where
      [e[count]] on a 0-d tensor raises [IndexError]), the in-place
      rescaling loop on Python floats (it may raise), propagation.
    - [GALOrder]: [GAL.forward] edge by edge ([edge_score], [coef_at]),
      its closed form ([source_sum], [gal_weight]) and the order of the
      columns of [edge_index].
    - [Glorot]: [glorot]: tensors tagged with their rank (a matrix with
      its number of columns), modules as their
      lists of parameters and buffers (those of [MYGNN] and [GAL] in
      registration order), the in-place re-draw of each tensor.
    - [Classifier]: [CGCClass]: [model_params], the constructor, [train] /
      [eval], and [forward] in [pyst (CGCClass * G)]: edge encoder, the
      layer loop (each layer may update its batch norm in the model), max
      pooling, dropout, the dense head, the NaN check and the sigmoid.
    - [Evaluate]: [test]: [eval()], the loop over the loader with
      [argmax] and [CrossEntropyLoss], and the final divisions; the
      module-level [dataset_info] table.

    ** What the theorems show

    Each step of [ContractInfo] is characterised exactly: every table it
    builds equals a declarative description computed from the contract
    (functional refinement), each step only touches its own field (frame
    lemmas), and the call graph has one node per distinct function id,
    consecutive node ids, an id map that is a bijection onto them, and
    deduplicated edges that are exactly the internal calls between
    [Function] targets.  The findings are proved as theorems too: the
    [send_function_map] guard tests [function.name] against a map keyed by
    [function.id], so the last matching statement of a function wins (the
    spec says the first one); re-running [contract_info_analyze] on the
    same object duplicates the read and write lists and rebuilds a graph
    without attributed nodes.  [debug_stat_var_info] prints, in any
    iteration order, three headers, two lines per declared variable and
    one line per variable and per function of the read and write tables.

    On the network side, [MYGNN.forward] is proved invariant under any
    reordering of the edges (with or without edge attributes), to return
    its input when there are no edges (on a layer whose [Linear]s take
    [channels] inputs and features of that width), to compute each node's row from that
    node's own input row only (the finding that [message] ignores [x_j];
    on a [PairTensor] input the source tensor is not read at all),
    and, without batch norm and with finite parameters, never to decrease
    a coordinate (the gated messages are positive).  When [GAL.forward]
    returns, every edge [j -> i] carries [self.linear(x)[j]] with weight
    [exp(s - S)], [s] its score and [S] the sum of the scores of all the
    edges leaving [j] (the in-place loop computes every coefficient from
    the original score); on inputs of the widths its [Linear] and
    [self.a] take it raises [IndexError] on every graph with exactly one
    edge (the squeezed scores are a 0-d tensor), and otherwise raises
    [OverflowError] or [ZeroDivisionError] exactly when one score or one
    sum of scores leaves the range of [math.exp] on doubles; it returns the
    same output on every reordering of the edges when it returns (while
    which exception it raises may depend on the order), and with
    zero attention sums its neighbours
    with weight 1 each (its normalisation is not a softmax); a layer built
    by [GAL(in, out)] returns [n x out] outputs.  [MYGNN.__repr__] is read
    back by a parser (round trip).  [glorot] re-draws a rank-2 tensor in
    [[-stdv, stdv]] keeping its shape, and raises [IndexError] on any
    [MYGNN] layer with a bias, after re-drawing its first weight only
    (and on [GAL], after [self.a] and [linear.weight]).

    For [CGCClass]: the constructor builds a well-formed model and
    [forward] keeps it well formed and changes only batch-norm running
    statistics, whether it returns or raises; in evaluation mode it changes
    nothing, and on every well-formed batch it returns unless the mean of
    [linear2.weight] is NaN, when it raises [RuntimeError]; a NaN mean
    never lets it return; every output is NaN or in [0, 1]; a batch of one
    graph in training mode always raises; a NaN running variance of [bn2]
    (a diverged parameter) goes undetected and yields all-NaN outputs;
    every output is a [num_graphs x MODEL_OUT_CHANNELS] matrix.
    [CrossEntropyLoss] raises [ValueError] on a batch size mismatch and
    [RuntimeError] on a class count mismatch; a loader whose label rows
    have one entry per output class meets neither, and a loader that
    reaches a batch with another class count makes [test] raise
    [RuntimeError] ([Evaluate.test_class_mismatch_raises]).
    [test] leaves the model in evaluation mode, computes the accuracy and
    the loss as sums over batches divided by the dataset size (the loss is
    not weighted by batch size), the accuracy lies in [0, 1], an empty
    dataset raises, and on a well-formed model and loader it returns
    (total correctness: the loops are folds over finite lists, so
    returning is the only thing to prove).

    The witnesses run the theorems on concrete inputs: small contracts of
    [Slither.Scenario] and [SendFunctions.TwoTransfers], a one-channel
    layer ([MYGNN.Demo]), a three-node graph ([GAL.GALDemo]) and a
    classifier built by [CGCClass_init] from [zero_source]
    ([Classifier.ClassifierDemo]).

    ** Modelling choices
    - Python dicts are stdpp [gmap]s; where a key test mixes Python types
      (a [str] looked up in a dict keyed by [int]), the key type is
      [PyKey], a sum of the two.  Insertion order of dicts is not kept by
      [gmap]: only [debug_stat_var_info] depends on it, and it takes the
      order as an argument ([Debug.dict_order]).
    - Loops over Python lists are [fold_left]s over Rocq lists, so every
      operation is structurally recursive and terminates; no fuel is used.
    - Floats are exact reals plus NaN; rounding is not modelled.  The
      thresholds of [math.exp] are those of IEEE doubles: [exp x] at
      least [(2 - 2^-53) * 2^1023] raises, at most [2^-1075] gives [0.0].  The
      edge-order theorems use the associativity of exact addition, which
      float addition lacks: on floats they hold up to rounding (torch's
      scatter-add does not fix a summation order either).
      The shape checks torch performs on the paths the code takes are
      error values: the input width of a [Linear], the widths of
      [torch.mm] and of [torch.cat] in [message], the broadcasting of
      [out += x], the width [BatchNorm1d] expects, and indexing.  The
      theorems that claim a result therefore assume the widths the
      model's constructor gives ([mygnn_shape], [gal_shape], [cgc_wf])
      and inputs of the matching widths ([batch_ok]).  A matrix is a list
      of rows and a matrix without rows records no column count: it
      passes every width check (torch checks the declared width of an
      empty tensor), and [cross_entropy] reads its width as [0].  No
      theorem depends on this corner: the loaders the theorems consider
      never yield an empty batch.
    - Python objects compared by identity (functions stored in the tables)
      are compared by value; slither never builds two equal but distinct
      function objects for one contract.

    ** Not modelled
    - The values drawn by torch's generator (only their shapes and
      ranges, through [RandomSource]); [SMOTE] (built by [CGCClass] and
      never used); the prints of [CGCClass.__init__]; the commented-out
      training script: randomness, I/O and dead code.
    - [num_batches_tracked] of [BatchNorm1d]: it only matters when
      [momentum=None], which no module of the file uses.
    - Rounding: a float result is the exact real (see Modelling
      choices), also where [GAL] stores the Python float of line 83 back
      into the float32 tensor [e]; only the overflow and underflow of
      [math.exp] are modelled, because they change the control flow.
      The overflow of torch's float32 tensors to [inf] is not modelled:
      reals do not overflow, and no code of the file tests for [inf].
    - Autograd ([torch.no_grad], in-place writes into a tensor that
      requires grad): they do not change the values computed.
    - The libraries the sources call are modelled only as far as the
      code uses them: networkx's [DiGraph] ([add_node],
      [add_edges_from]), slither's objects (the fields read, from the
      spec), torch and PyG (the operations listed under [Num] and
      [Tensor]).  The rest of those libraries is not code of this
      program, hence the components marked partly modelled.  Every line
      of the two source files other than imports and the commented-out
      script is modelled. *)

From Stdlib Require Import Ascii.
From stdpp Require Export base list gmap strings pretty.

Declare Scope py_scope.
Delimit Scope py_scope with py.
(** ** Python's [needle in hay] on strings *)

Fixpoint py_contains (needle hay : string) : bool :=
  String.prefix needle hay ||
  match hay with
  | EmptyString => false
  | String _ rest => py_contains needle rest
  end.

Notation "needle 'in_str' hay" := (py_contains needle hay) (at level 70) : py_scope.

(** [str(e)] of an expression that may be [None]. *)
Definition py_str_opt (e : option string) : string :=
  match e with Some s => s | None => "None"%string end.

(** ** The list-valued dictionary idiom
<<
      if k not in d: d[k] = [x]
      else: d[k].append(x)
>> *)

Definition dict_append `{Countable K} {V} (k : K) (x : V)
    (d : gmap K (list V)) : gmap K (list V) :=
  match d !! k with
  | None => <[k := [x]]> d
  | Some l => <[k := l ++ [x]]> d
  end.

(** Appending a list of values to an optional list: [None] stays [None]
    only when nothing is appended. *)
Definition opt_app {V} (o : option (list V)) (l : list V) : option (list V) :=
  match o, l with
  | None, [] => None
  | None, _ => Some l
  | Some l0, _ => Some (l0 ++ l)
  end.

Lemma opt_app_nil {V} (o : option (list V)) : opt_app o [] = o.
Proof. destruct o; simpl; rewrite ?app_nil_r; done. Qed.

Lemma opt_app_app {V} (o : option (list V)) l1 l2 :
  opt_app (opt_app o l1) l2 = opt_app o (l1 ++ l2).
Proof. destruct o, l1, l2; simpl; rewrite ?app_nil_r, <-?app_assoc; done. Qed.

Section DictAppend.
Context `{Countable K} {V : Type}.

Lemma lookup_dict_append (d : gmap K (list V)) k k' x :
    dict_append k x d !! k' = if decide (k = k') then opt_app (d !! k) [x] else d !! k'.
  Proof.
    unfold dict_append. destruct (d !! k) eqn:E;
      case_decide; subst; simplify_map_eq; done.
  Qed.

  (** A fold of appends, one per [(key, value)] pair, appends to each key
      the values paired with it, in order. *)
Lemma lookup_fold_dict_append (kvs : list (K * V)) (d : gmap K (list V)) k :
    foldl (λ d kv, dict_append kv.1 kv.2 d) d kvs !! k =
    opt_app (d !! k) (map snd (filter (λ kv, kv.1 = k) kvs)).
  Proof.
    revert d. induction kvs as [|[k0 v0] kvs IH]; intros d; simpl.
    - by rewrite opt_app_nil.
    - rewrite IH, lookup_dict_append, filter_cons. simpl.
      case_decide; subst; simpl; [by rewrite opt_app_app|done].
  Qed.
End DictAppend.

(** ** Folds of dictionary assignments [d[key(a)] = val(a)]: the last
    assignment to a key wins. *)

Lemma lookup_foldl_insert `{Countable K} {A V} (key : A → K) (val : A → V)
    (l : list A) (m : gmap K V) k :
  foldl (λ m a, <[key a := val a]> m) m l !! k =
  match last (val <$> filter (λ a, key a = k) l) with
  | Some v => Some v
  | None => m !! k
  end.
Proof.
  revert m. induction l as [|a l IH] using rev_ind; intros m; simpl; [done|].
  rewrite foldl_app, filter_app, fmap_app. simpl.
  rewrite filter_cons, filter_nil. case_decide as Hk.
  - rewrite last_app. simpl. subst. by rewrite lookup_insert_eq.
  - rewrite app_nil_r, lookup_insert_ne by done. apply IH.
Qed.

(** Nested loops [for a in l: for b in h(a): ...] are one loop over the
    flattened list. *)
Lemma foldl_flat_map {A B C} (g : C → B → C) (h : A → list B) (c : C) (l : list A) :
  foldl g c (flat_map h l) = foldl (λ c a, foldl g c (h a)) c l.
Proof.
  revert c. induction l as [|a l IH]; intros c; simpl; [done|].
  by rewrite foldl_app, IH.
Qed.

(** Loops with pointwise equal bodies compute the same thing. *)
Lemma foldl_ext {A C} (g g' : C → A → C) (c : C) (l : list A) :
  (∀ c a, g c a = g' c a) → foldl g c l = foldl g' c l.
Proof. intros Hg. revert c. induction l; simpl; intros; rewrite ?Hg; auto. Qed.

(** Membership in a flattened list. *)
Lemma elem_of_flat_map {A B} (h : A → list B) (l : list A) y :
  y ∈ flat_map h l ↔ ∃ a, a ∈ l ∧ y ∈ h a.
Proof.
  rewrite list_elem_of_In, in_flat_map.
  setoid_rewrite list_elem_of_In. done.
Qed.

(** A field that no iteration changes is unchanged by the loop. *)
Lemma foldl_proj_inv {A C D} (P : C → D) (g : C → A → C) (c : C) (l : list A) :
  (∀ c a, P (g c a) = P c) → P (foldl g c l) = P c.
Proof. intros Hg. revert c. induction l; simpl; intros; rewrite ?IHl, ?Hg; auto. Qed.

(** A loop whose body commutes with itself gives the same result on any
    reordering of its input. *)
Lemma foldl_perm {A C} (g : C → A → C) (c : C) (l l' : list A) :
  (∀ c a b, g (g c a) b = g (g c b) a) → l ≡ₚ l' → foldl g c l = foldl g c l'.
Proof.
  intros Hg Hp. revert c. induction Hp as [|a l l' Hp IH|a b l|l l' l'' _ IH1 _ IH2];
    intros c; simpl.
  - done.
  - apply IH.
  - f_equal. apply Hg.
  - by rewrite IH1.
Qed.

(** An elementwise operation maps pointwise properties. *)
Lemma Forall_zip_with {A B C} (f : A → B → C) (P : A → Prop) (Q : B → Prop) (R : C → Prop) l k :
  Forall P l → Forall Q k → (∀ a b, P a → Q b → R (f a b)) → Forall R (zip_with f l k).
Proof.
  intros Hl. revert k. induction Hl as [|a l Ha Hl IH]; intros [|b k] Hk Hf; simpl; [done..|].
  apply Forall_cons in Hk as [Hb Hk]. constructor; auto.
Qed.

(** Filtering keeps a property of all elements. *)
Lemma Forall_filter_sub {A} (P : A → Prop) (Q : A → Prop) `{∀ x, Decision (Q x)} l :
  Forall P l → Forall P (filter Q l).
Proof.
  rewrite !Forall_forall. intros HP x Hx. apply list_elem_of_filter in Hx as [_ Hx]. by apply HP.
Qed.

(** A loop whose body does nothing. *)
Lemma foldl_skip {A C} (c : C) (l : list A) : foldl (λ c _, c) c l = c.
Proof. revert c. induction l; simpl; auto. Qed.

(** A loop body guarded by [if P(a)] is a loop over the filtered list. *)
Lemma foldl_guard {A C} (P : A → bool) (g : C → A → C) (c : C) (l : list A) :
  foldl (λ c a, if P a then g c a else c) c l = foldl g c (filter (λ a, P a = true) l).
Proof.
  revert c. induction l as [|a l IH]; intros c; simpl; [done|].
  rewrite filter_cons. destruct (P a); simpl; rewrite IH; done.
Qed.

(** The values appended under key [x] by a fold of [dict_append] into a
    dict without [x] are exactly the values paired with [x]. *)
Lemma opt_app_None_filter_elem {K V} `{EqDecision K} (ps : list (K * V)) x v :
  (∃ l, opt_app None (snd <$> filter (λ kv, kv.1 = x) ps) = Some l ∧ v ∈ l) ↔ (x, v) ∈ ps.
Proof.
  assert (v ∈ snd <$> filter (λ kv, kv.1 = x) ps ↔ (x, v) ∈ ps) as <-.
  { rewrite list_elem_of_fmap. setoid_rewrite list_elem_of_filter.
    split; [intros ([k w] & -> & Hk & Hin); simpl in *; by subst|].
    intros Hin. by exists (x, v). }
  destruct (snd <$> _) as [|a l]; simpl.
  - split; [by intros (? & ? & _)|]. intros Hv. by apply not_elem_of_nil in Hv.
  - split; [by intros (? & [= <-] & ?)|]. intros Hv. by exists (a :: l).
Qed.

(** The last value paired with [x] is paired with [x]; no last value
    means no value at all. *)
Lemma last_filter_Some {K V} `{EqDecision K} (ps : list (K * V)) x v :
  last (snd <$> filter (λ kv, kv.1 = x) ps) = Some v → (x, v) ∈ ps.
Proof.
  intros Hl. apply last_Some_elem_of, list_elem_of_fmap in Hl as ([k w] & -> & Hin).
  apply list_elem_of_filter in Hin as [Hk Hin]. simpl in *. by subst.
Qed.

Lemma last_filter_None {K V} `{EqDecision K} (ps : list (K * V)) x v :
  last (snd <$> filter (λ kv, kv.1 = x) ps) = None → (x, v) ∉ ps.
Proof.
  intros Hl Hin. apply last_None, fmap_nil_inv in Hl.
  assert ((x, v) ∈ filter (λ kv, kv.1 = x) ps) as Hf by (by apply list_elem_of_filter).
  rewrite Hl in Hf. by apply not_elem_of_nil in Hf.
Qed.

(** The last element of a concatenation of blocks, each empty or equal to
    [L]: either nothing or the last element of [L]. *)
Lemma last_flat_map_blocks_cases {A B} (h : A → list B) (L : list B) (l : list A) :
  (∀ a, a ∈ l → h a = [] ∨ h a = L) →
  last (flat_map h l) = None ∨ last (flat_map h l) = last L.
Proof.
  induction l as [|a l IH]; intros Hall; [by left|]. simpl. rewrite last_app.
  destruct IH as [-> | ->]; [intros c Hc; apply Hall; by right| |].
  - destruct (Hall a) as [-> | ->]; [by left|by left|by right].
  - destruct (last L) eqn:E; [by right|].
    destruct (Hall a) as [-> | ->]; [by left|by left|by right].
Qed.

(** When one block is [L], the last element is [L]'s. *)
Lemma last_flat_map_blocks {A B} (h : A → list B) (L : list B) (l : list A) :
  (∀ a, a ∈ l → h a = [] ∨ h a = L) → (∃ a, a ∈ l ∧ h a = L) →
  last (flat_map h l) = last L.
Proof.
  induction l as [|a l IH]; intros Hall [b [Hb HL]]; [by apply not_elem_of_nil in Hb|].
  simpl. rewrite last_app. apply elem_of_cons in Hb as [->|Hb].
  - rewrite HL. destruct (last_flat_map_blocks_cases h L l) as [-> | ->];
      [intros c Hc; apply Hall; by right|done|]. by destruct (last L).
  - rewrite IH; [|intros c Hc; apply Hall; by right|eauto].
    destruct (last L) eqn:E; [done|].
    destruct (Hall a) as [-> | ->]; [by left|done|done].
Qed.

(** ** String concatenation *)

(** stdpp blocks [simpl] on string concatenation; these are its equations. *)
Lemma string_app_nil_l (b : string) : "" +:+ b = b.
Proof. reflexivity. Qed.

Lemma string_app_cons x (a b : string) : String x a +:+ b = String x (a +:+ b).
Proof. reflexivity. Qed.

Lemma string_app_assoc (a b c : string) : a +:+ (b +:+ c) = (a +:+ b) +:+ c.
Proof. induction a as [|x a IH]; [done|]. by rewrite !string_app_cons, IH. Qed.

Lemma string_app_nil_r (a : string) : a +:+ "" = a.
Proof. induction a as [|x a IH]; [done|]. by rewrite string_app_cons, IH. Qed.

(** ** Reading back what [pretty] prints

    [pretty] prints a natural in decimal (Python's [str] and f-strings
    of an [int]); [digits_val] reads a string made of digits only,
    [read_digits] the longest digit prefix of a string. *)

(** The value of a decimal digit character ([0] is ASCII 48), [None]
    for any other character. *)
Definition digit_val (c : ascii) : option N :=
  let k := N_of_ascii c in
  if decide (48 ≤ k < 58)%N then Some (k - 48)%N else None.

Fixpoint digits_val (s : string) (acc : N) : option N :=
  match s with
  | EmptyString => Some acc
  | String c s' => d ← digit_val c; digits_val s' (acc * 10 + d)%N
  end.

Fixpoint read_digits (s : string) (acc : N) : N * string :=
  match s with
  | EmptyString => (acc, EmptyString)
  | String c s' =>
      match digit_val c with
      | Some d => read_digits s' (acc * 10 + d)%N
      | None => (acc, s)
      end
  end.

Definition starts_with_digit (s : string) : bool :=
  match s with EmptyString => false | String c _ => bool_decide (is_Some (digit_val c)) end.

(** [strip_prefix p s] is [s] without the literal prefix [p]. *)
Fixpoint strip_prefix (p s : string) : option string :=
  match p, s with
  | EmptyString, _ => Some s
  | String a p', String b s' => if decide (a = b) then strip_prefix p' s' else None
  | String _ _, EmptyString => None
  end.

Lemma strip_prefix_app p s : strip_prefix p (p +:+ s) = Some s.
Proof. induction p as [|a p IH]; [done|]. rewrite string_app_cons. simpl. by rewrite decide_True. Qed.

Lemma digit_val_pretty x : (x < 10)%N → digit_val (pretty_N_char x) = Some x.
Proof.
  intros Hx. assert (x = 0 ∨ x = 1 ∨ x = 2 ∨ x = 3 ∨ x = 4 ∨ x = 5 ∨ x = 6 ∨ x = 7 ∨ x = 8 ∨ x = 9)%N
    as Hc by lia.
  repeat destruct Hc as [->|Hc]; [..|subst]; vm_compute; reflexivity.
Qed.

Lemma digits_val_app s s' k :
  digits_val (s +:+ s') k = (m ← digits_val s k; digits_val s' m).
Proof.
  revert k. induction s as [|c s IH]; intros k; [done|].
  rewrite string_app_cons. simpl. destruct (digit_val c); [apply IH|done].
Qed.

(** [pretty_N_go] prepends the digits to its accumulator. *)
Lemma pretty_N_go_acc x s t : pretty_N_go x (s +:+ t) = pretty_N_go x s +:+ t.
Proof.
  revert s. induction (N.lt_wf_0 x) as [x _ IH]; intros s.
  destruct (decide (x = 0%N)) as [->|Hx]; [by rewrite !pretty_N_go_0|].
  rewrite !(pretty_N_go_step x) by lia. rewrite <-string_app_cons.
  apply IH, N.div_lt; lia.
Qed.

Lemma pretty_N_go_app x s : pretty_N_go x s = pretty_N_go x "" +:+ s.
Proof. by rewrite <-pretty_N_go_acc, string_app_nil_l. Qed.

(** The digits [pretty] prints read back as the number. *)
Lemma digits_val_pretty_N (x : N) : digits_val (pretty x) 0 = Some x.
Proof.
  unfold pretty, pretty_N. case_decide as Hx; [by subst|].
  clear Hx. induction (N.lt_wf_0 x) as [x _ IH].
  destruct (decide (x = 0%N)) as [->|Hx]; [done|].
  rewrite pretty_N_go_step, pretty_N_go_app, digits_val_app by lia.
  rewrite IH by (apply N.div_lt; lia). simpl.
  rewrite digit_val_pretty by (apply N.mod_lt; lia). simpl.
  f_equal. rewrite (N.div_mod x 10) at 3 by lia. lia.
Qed.

(** Reading the digits of [t] followed by a non-digit stops at the end
    of [t]. *)
Lemma read_digits_app t s acc v :
  digits_val t acc = Some v → starts_with_digit s = false → read_digits (t +:+ s) acc = (v, s).
Proof.
  revert acc. induction t as [|c t IH]; intros acc Ht Hs.
  - injection Ht as <-. rewrite string_app_nil_l. destruct s as [|c s]; [done|].
    simpl in *. destruct (digit_val c); [|done]. by rewrite bool_decide_true in Hs.
  - rewrite string_app_cons. simpl in *. destruct (digit_val c); [|done]. by apply IH.
Qed.

Lemma read_digits_pretty (n : nat) s :
  starts_with_digit s = false → read_digits (pretty n +:+ s) 0 = (N.of_nat n, s).
Proof. apply read_digits_app, digits_val_pretty_N. Qed.

(** ** Facts on [py_contains] *)

Lemma py_contains_empty_hay needle :
  py_contains needle ""%string = String.prefix needle ""%string.
Proof. simpl. by rewrite orb_false_r. Qed.

(** ** In-place updates of a list by index *)

(** [for k in range(i, i + n): l[k] = f(k, l[k])]: each iteration reads
    only the entry it writes, so the loop is a map. *)
Lemma foldl_update_seq `{Inhabited A} (f : nat → A → A) (l : list A) i n :
  i + n = length l →
  foldl (λ l k, <[k := f k (l !!! k)]> l) l (seq i n) =
  imap (λ k v, if decide (i ≤ k) then f k v else v) l.
Proof.
  revert i l. induction n as [|n IH]; intros i l Hn; simpl.
  - apply list_eq. intros k. rewrite list_lookup_imap.
    destruct (l !! k) eqn:E; [|done]. apply lookup_lt_Some in E. simpl.
    by rewrite decide_False by lia.
  - rewrite IH by (rewrite length_insert; lia). apply list_eq. intros k.
    rewrite !list_lookup_imap, list_lookup_insert.
    destruct (decide (i = k ∧ i < length l)) as [[<- Hlt]|Hne].
    + rewrite list_lookup_total_alt. destruct (lookup_lt_is_Some_2 l i Hlt) as [v ->]. simpl.
      by rewrite decide_False, decide_True by lia.
    + destruct (l !! k) eqn:E; [|done]. apply lookup_lt_Some in E. simpl.
      repeat case_decide; done || lia.
Qed.

Lemma Forall_lookup_total `{Inhabited A} (P : A → Prop) (l : list A) i :
  Forall P l → P inhabitant → P (l !!! i).
Proof.
  intros Hl Hd. rewrite list_lookup_total_alt.
  destruct (l !! i) eqn:E; [by eapply Forall_lookup_1|done].
Qed.

(** ** Python exceptions and the error monad of the network code

    A computation that may raise is a value of [res A]: [inl e] is the
    exception [e], [inr a] a normal return.  [x ← m; k] runs [k] on the
    result of [m] and propagates an exception. *)
Inductive exc := IndexError | ValueError | TypeError | RuntimeError | ZeroDivisionError | OverflowError.

#[global] Instance exc_eq_dec : EqDecision exc.
Proof. solve_decision. Defined.

Notation res A := (sum exc A).

#[global] Instance res_ret : MRet (sum exc) := λ A a, inr a.
#[global] Instance res_bind : MBind (sum exc) :=
  λ A B f m, match m with inl e => inl e | inr a => f a end.

Definition raise {A} (e : exc) : res A := inl e.

Lemma res_bind_inr {A B} (a : A) (f : A → res B) : (inr a ≫= f) = f a.
Proof. reflexivity. Qed.

Lemma res_bind_inl {A B} (e : exc) (f : A → res B) : (inl e ≫= f) = inl e.
Proof. reflexivity. Qed.

Lemma res_bind_inr_inv {A B} (m : res A) (f : A → res B) b :
  (m ≫= f) = inr b → ∃ a, m = inr a ∧ f a = inr b.
Proof. destruct m as [e|a]; [done|]. eauto. Qed.

Lemma res_bind_inl_inv {A B} (m : res A) (f : A → res B) e :
  (m ≫= f) = inl e → m = inl e ∨ ∃ a, m = inr a ∧ f a = inl e.
Proof. destruct m as [e'|a]; [intros [= ->]; by left|]. eauto. Qed.

(** ** Objects mutated in place

    A method of a Python object that may raise is a function from the
    state to a result and the new state: the state survives an exception,
    as the object's fields keep what was written before the raise. *)
Definition pyst (S A : Type) : Type := S → res A * S.

#[global] Instance pyst_ret S : MRet (pyst S) := λ A a s, (inr a, s).
#[global] Instance pyst_bind S : MBind (pyst S) :=
  λ A B f m s, match m s with (inl e, s') => (inl e, s') | (inr a, s') => f a s' end.

Definition pyst_raise {S A} (e : exc) : pyst S A := λ s, (inl e, s).
Definition pyst_lift {S A} (r : res A) : pyst S A := λ s, (r, s).
Definition pyst_get {S} : pyst S S := λ s, (inr s, s).
Definition pyst_put {S} (s : S) : pyst S unit := λ _, (inr tt, s).

Lemma pyst_bind_run {S A B} (m : pyst S A) (f : A → pyst S B) s :
  (m ≫= f) s = match m s with (inl e, s') => (inl e, s') | (inr a, s') => f a s' end.
Proof. reflexivity. Qed.

Lemma pyst_bind_inr {S A B} (m : pyst S A) (f : A → pyst S B) s a s' :
  m s = (inr a, s') → (m ≫= f) s = f a s'.
Proof. intros E. by rewrite pyst_bind_run, E. Qed.

Lemma pyst_bind_inl {S A B} (m : pyst S A) (f : A → pyst S B) s e s' :
  m s = (inl e, s') → (m ≫= f) s = (inl e, s').
Proof. intros E. by rewrite pyst_bind_run, E. Qed.

(** A result of [m ≫= f] comes from a result of [m]. *)
Lemma pyst_bind_inr_inv {S A B} (m : pyst S A) (f : A → pyst S B) s b s'' :
  (m ≫= f) s = (inr b, s'') → ∃ a s', m s = (inr a, s') ∧ f a s' = (inr b, s'').
Proof. rewrite pyst_bind_run. destruct (m s) as [[e|a] s']; [done|]. eauto. Qed.

(** Run a method of a sub-object: [get] reads the sub-object from the
    state, [set] writes back what the method left, also when it raised. *)
Definition pyst_zoom {S T A} (get : S → T) (set : S → T → S) (m : pyst T A) : pyst S A :=
  λ s, let '(r, t) := m (get s) in (r, set s t).

Lemma pyst_zoom_run {S T A} (get : S → T) (set : S → T → S) (m : pyst T A) s r t :
  m (get s) = (r, t) → pyst_zoom get set m s = (r, set s t).
Proof. intros E. unfold pyst_zoom. by rewrite E. Qed.

Create HintDb s2p.
Create Rewrite HintDb s2p_rw.
#[export] Hint Rewrite @opt_app_nil @opt_app_app @lookup_dict_append : s2p_rw.
#[export] Hint Rewrite @res_bind_inr @res_bind_inl : s2p_rw.

(** [m] relates its start and end states by [R], whether it returns or
    raises. *)
Definition pyst_keeps {S A} (R : relation S) (m : pyst S A) : Prop :=
  ∀ s r s', m s = (r, s') → R s s'.

Lemma pyst_keeps_ret {S A} (R : relation S) `{!Reflexive R} (a : A) : pyst_keeps R (mret a).
Proof. intros s r s' [= _ <-]. reflexivity. Qed.

Lemma pyst_keeps_bind {S A B} (R : relation S) `{!PreOrder R} (m : pyst S A) (f : A → pyst S B) :
  pyst_keeps R m → (∀ a, pyst_keeps R (f a)) → pyst_keeps R (m ≫= f).
Proof.
  intros Hm Hf s r s''. rewrite pyst_bind_run. destruct (m s) as [[e|a] s'] eqn:E.
  - intros [= _ <-]. by eapply Hm.
  - intros Hk. etrans; [by eapply Hm|by eapply Hf].
Qed.

Lemma pyst_keeps_lift {S A} (R : relation S) `{!Reflexive R} (r : res A) : pyst_keeps R (pyst_lift r).
Proof. intros s r' s' [= _ <-]. reflexivity. Qed.

Lemma pyst_keeps_raise {S A} (R : relation S) `{!Reflexive R} e : pyst_keeps R (pyst_raise (A:=A) e).
Proof. intros s r' s' [= _ <-]. reflexivity. Qed.

Lemma pyst_keeps_get_bind {S A} (R : relation S) (k : S → pyst S A) :
  (∀ s0, pyst_keeps R (k s0)) → pyst_keeps R (pyst_get ≫= k).
Proof. intros Hk s r s'. apply Hk. Qed.

(** The first step of a loop runs first; the loop then continues from
    its result. *)
Lemma pyst_foldl_run {S A B} (step : A → B → pyst S A) (l : list B) (m0 : pyst S A) s :
  foldl (λ m b, a ← m; step a b) m0 l s =
  match m0 s with
  | (inl e, s') => (inl e, s')
  | (inr a, s') => foldl (λ m b, a ← m; step a b) (mret a) l s'
  end.
Proof.
  revert m0 s. induction l as [|b l IH]; intros m0 s; cbn [foldl].
  - by destruct (m0 s) as [[e|a] s'].
  - rewrite IH, pyst_bind_run. destruct (m0 s) as [[e|a] s']; [done|].
    rewrite IH. reflexivity.
Qed.

(** A loop [for b in l: a = step(a, b)] keeps [R] when every step does. *)
Lemma pyst_keeps_foldl {S A B} (R : relation S) `{!PreOrder R} (step : A → B → pyst S A)
    (l : list B) (m0 : pyst S A) :
  pyst_keeps R m0 → (∀ a b, pyst_keeps R (step a b)) →
  pyst_keeps R (foldl (λ m b, a ← m; step a b) m0 l).
Proof.
  intros H0 Hs. revert m0 H0. induction l as [|b l IH]; intros m0 H0; simpl; [done|].
  apply IH. apply pyst_keeps_bind; [apply _|done|]. intros a. apply Hs.
Qed.

Lemma mapM_res_length {A B} (f : A → res B) l l' : mapM f l = inr l' → length l' = length l.
Proof.
  revert l'. induction l as [|a l IH]; intros l'; simpl; [by intros [= <-]|].
  destruct (f a) as [e|b]; [done|]. rewrite res_bind_inr.
  destruct (mapM f l) as [e|k] eqn:E; [done|]. rewrite res_bind_inr. intros [= <-]. simpl. by rewrite (IH k).
Qed.

(** Each result of a [mapM] that returns comes from its own entry. *)
Lemma mapM_res_lookup {A B} (f : A → res B) l k i :
  mapM f l = inr k → k !! i = (a ← l !! i; match f a with inr b => Some b | inl _ => None end).
Proof.
  revert k i. induction l as [|a l IH]; intros k i; cbn [mapM]; [by intros [= <-]|].
  intros (b & Hb & (k0 & Hk0 & [= <-])%res_bind_inr_inv)%res_bind_inr_inv.
  destruct i as [|i]; simpl; [by rewrite Hb|]. by apply IH.
Qed.

(** A [mapM] that returns pairs every entry with its result. *)
Lemma mapM_res_Forall2 {A B} (f : A → res B) l k : mapM f l = inr k → Forall2 (λ a b, f a = inr b) l k.
Proof.
  revert k. induction l as [|a l IH]; intros k; cbn [mapM]; [intros [= <-]; constructor|].
  intros (b & Hb & (k0 & Hk0 & [= <-])%res_bind_inr_inv)%res_bind_inr_inv. constructor; [done|]. by apply IH.
Qed.

(** [mapM] over a reordered list returns when the original does, its
    results reordered alike. *)
Lemma mapM_res_perm {A B} (f : A → res B) l l' k :
  l ≡ₚ l' → mapM f l = inr k → ∃ k', mapM f l' = inr k' ∧ zip l k ≡ₚ zip l' k'.
Proof.
  intros Hp. revert k. induction Hp as [|x l l' _ IH|x y l|l l' l'' _ IH1 _ IH2]; intros k; cbn [mapM].
  - intros [= <-]. by exists [].
  - intros (b & Hb & (k0 & Hk0 & [= <-])%res_bind_inr_inv)%res_bind_inr_inv.
    destruct (IH k0 Hk0) as (k0' & Hk0' & Hz). exists (b :: k0').
    rewrite Hb, res_bind_inr, Hk0', res_bind_inr. split; [done|]. by constructor.
  - intros (bY & HY & (k0 & Hk0 & [= <-])%res_bind_inr_inv)%res_bind_inr_inv.
    cbn [mapM] in Hk0. apply res_bind_inr_inv in Hk0 as (bX & HX & (k1 & Hk1 & [= <-])%res_bind_inr_inv).
    exists (bX :: bY :: k1). rewrite HX, res_bind_inr, HY, res_bind_inr, Hk1, res_bind_inr.
    split; [done|]. constructor.
  - intros Hk. destruct (IH1 k Hk) as (k' & Hk' & Hz1). destruct (IH2 k' Hk') as (k'' & Hk'' & Hz2).
    exists k''. split; [done|]. by rewrite Hz1.
Qed.

(** A fold whose steps commute does not depend on the order of the list. *)
Lemma foldl_comm_perm {A B} (f : A → B → A) (l l' : list B) (a : A) :
  (∀ a b1 b2, f (f a b1) b2 = f (f a b2) b1) → l ≡ₚ l' → foldl f a l = foldl f a l'.
Proof.
  intros Hc Hp. revert a. induction Hp as [|x l l' _ IH|x y l|l l' l'' _ IH1 _ IH2]; intros a; simpl.
  - done.
  - apply IH.
  - by rewrite Hc.
  - by rewrite IH1, IH2.
Qed.

(** Split a successful run [(m ≫= f) s = (inr b, s'')] of a [pyst]
    computation into the runs of its steps. *)
Ltac pyst_inv H :=
  repeat match type of H with
  | (_ ≫= _) _ = (inr _, _) =>
      let a := fresh "a" in let s := fresh "s" in let H1 := fresh "Hstep" in
      apply pyst_bind_inr_inv in H as (a & s & H1 & H); cbv beta in H
  | (let '(_, _) := ?p in _) _ = _ => destruct p; cbv iota in H
  | (match ?p with (_, _) => _ end) _ = _ => destruct p; cbv iota in H
  end.

(** Turn the runs of [pyst_get] and [pyst_lift] into equations. *)
Ltac pyst_simpl_steps :=
  repeat match goal with
  | H : pyst_get _ = (_, _) |- _ => cbv [pyst_get] in H; injection H; clear H; intros; subst
  | H : pyst_lift _ _ = (_, _) |- _ => cbv [pyst_lift] in H; injection H; clear H; intros; subst
  end.

(** Run the [pyst] operations of a goal or hypothesis by computation. *)
Ltac pyst_unfold :=
  cbv [pyst_get pyst_lift pyst_put pyst_raise mbind pyst_bind mret pyst_ret]; cbv beta iota zeta.

(** Unfold a model's steps, then let stdpp's map tactics clean up. *)
Ltac py_simpl := repeat (progress (simpl in *; autorewrite with s2p_rw in *; simplify_map_eq)).
