(* ===== verification/Slither.v ===== *)
(** * The slither objects the extractor reads

    slither's core ([slither.core.declarations]) is code of this repository
    outside [src/]; these records are modelled from the spec (section 6,
    "Input to Fact Extractor") and keep the attribute names the extractor
    uses.  Each slither class is a [Module] with a record [t], so that
    [Function.name f] reads like [function.name].  [str(v)] of a state
    variable and [str(Identifier(v))] are both its name. *)

From S2P Require Import Prelude.

Module StateVariable.
  (** [v.name], [str(v.type)], [v.expression] (the initializer, or [None]). *)
Record t := mk { name : string; type : string; expression : option string }.
#[global] Instance eq_dec : EqDecision t.
  Proof. solve_decision. Defined.
End StateVariable.

Module Node.
  (** A CFG node: its expression ([None] for nodes without one) and the
      state variables it writes. *)
Record t := mk { expression : option string;
                   state_variables_written : list StateVariable.t }.
#[global] Instance eq_dec : EqDecision t.
  Proof. solve_decision. Defined.
End Node.

(** An entry of [function.internal_calls]: either a [Function] of the
    contract (only its [id] and [name] are read) or a Solidity built-in
    ([SolidityFunction]), which the call graph ignores. *)
Inductive InternalCall :=
| ICFunction (id : Z) (name : string)
| ICSolidityFunction (name : string).

#[export] Instance InternalCall_eq_dec : EqDecision InternalCall.
Proof. solve_decision. Defined.

Module Function.
Record t := mk {
    id : Z;
    name : string;
    is_constructor : bool;
    is_constructor_variables : bool;
    nodes : list Node.t;
    state_variables_read : list StateVariable.t;
    state_variables_written : list StateVariable.t;
    internal_calls : list InternalCall;
    can_send_eth : bool }.
#[global] Instance eq_dec : EqDecision t.
  Proof. solve_decision. Defined.

  (** The guard [function.is_constructor or function.is_constructor_variables]. *)
Definition is_ctor (f : t) : bool := is_constructor f || is_constructor_variables f.
End Function.

Module Structure.
Record t := mk { name : string; elems : list (string * string) }.
End Structure.

Module Contract.
Record t := mk {
    name : string;
    structures : list Structure.t;
    state_variables : list StateVariable.t;
    functions : list Function.t }.
End Contract.

(** ** The end-to-end scenario of the spec (section 8)

    One struct; [X] declared without initializer; [owner] declared without
    initializer and assigned only in the constructor; [A] sends ether,
    writes [X] and calls [B] twice (and the built-in [require]); [B] calls
    [C]; [C] writes [X] but cannot send ether. *)
Module Scenario.
Definition X : StateVariable.t := StateVariable.mk "X" "uint256" None.
Definition owner : StateVariable.t := StateVariable.mk "owner" "address" None.

Definition ctor : Function.t :=
    Function.mk 10 "constructor" true false
      [Node.mk (Some "owner = msg.sender") [owner]] [] [owner] [] false.
Definition A : Function.t :=
    Function.mk 11 "A" false false
      [Node.mk (Some "X = X + msg.value") [X]; Node.mk (Some "owner.transfer(X)") []]
      [X; owner] [X]
      [ICFunction 12 "B"; ICFunction 12 "B"; ICSolidityFunction "require(bool)"] true.
Definition B : Function.t :=
    Function.mk 12 "B" false false [Node.mk (Some "C()") []] [X] []
      [ICFunction 13 "C"] false.
Definition C : Function.t :=
    Function.mk 13 "C" false false [Node.mk (Some "X = 0") [X]] [] [X] [] false.

Definition contract : Contract.t :=
    Contract.mk "Pyramid" [Structure.mk "Investor" [("addr", "address")]]
      [X; owner] [ctor; A; B; C].
End Scenario.
