(* ===== verification/DiGraph.v ===== *)
(** * The networkx [DiGraph] operations the call graph uses

    [networkx.DiGraph] is a library the extractor calls; only the three
    operations of [_construct_call_graph] are modelled:
    [nx.DiGraph()] with [graph["name"] = ...], [add_node(n, **attr)] and
    [add_edges_from(edges)].  A graph is its ordered node list (each node
    with its attribute dict, [None] for a node networkx created implicitly
    as an edge endpoint) and its ordered edge list.  networkx adds a node
    or an edge only when absent, so both lists stay duplicate-free. *)

From S2P Require Import Prelude.

Module DiGraph.

  (** The attributes [label=function.name, fid=function.id]. *)
Record NodeAttr := mkAttr { label : string; fid : Z }.

Record t := mk {
    graph_name : string;
    nodes : list (nat * option NodeAttr);
    edges : list (nat * nat) }.

  (** [call_graph = nx.DiGraph(); call_graph.graph["name"] = name] *)
Definition new (name : string) : t := mk name [] [].

Definition has_node (g : t) (n : nat) : bool :=
    existsb (λ p, Nat.eqb p.1 n) (nodes g).

  (** [add_node(n, **attr)]: a new node is appended; an existing one has its
      attribute dict updated (both attributes are always given, so updated
      means replaced). *)
Definition add_node (n : nat) (a : NodeAttr) (g : t) : t :=
    if has_node g n
    then mk (graph_name g)
            (map (λ p, if Nat.eqb p.1 n then (n, Some a) else p) (nodes g)) (edges g)
    else mk (graph_name g) (nodes g ++ [(n, Some a)]) (edges g).

  (** An endpoint that is not yet a node is added with no attributes. *)
Definition add_endpoint (n : nat) (g : t) : t :=
    if has_node g n then g else mk (graph_name g) (nodes g ++ [(n, None)]) (edges g).

  (** [add_edge(u, v)] as [add_edges_from] performs it. *)
Definition add_edge (g : t) (e : nat * nat) : t :=
    let g := add_endpoint e.2 (add_endpoint e.1 g) in
    if bool_decide (e ∈ edges g) then g
    else mk (graph_name g) (nodes g) (edges g ++ [e]).

Definition add_edges_from (es : list (nat * nat)) (g : t) : t :=
    foldl add_edge g es.

  (** ** Lemmas *)

Lemma has_node_spec g n : has_node g n = true ↔ n ∈ (nodes g).*1.
  Proof.
    unfold has_node. rewrite existsb_exists, list_elem_of_fmap.
    split.
    - intros [[m a] [Hin Heq%Nat.eqb_eq]]. simpl in Heq.
      exists (m, a). split; [by rewrite Heq|]. by apply list_elem_of_In.
    - intros [[m a] [-> Hin]]. exists (m, a). split; [by apply list_elem_of_In|].
      apply Nat.eqb_refl.
  Qed.

Lemma add_endpoint_present g n :
    n ∈ (nodes g).*1 → add_endpoint n g = g.
  Proof. intros H. unfold add_endpoint. by rewrite (proj2 (has_node_spec g n) H). Qed.

  (** When every endpoint is already a node, [add_edges_from] leaves the
      nodes alone and appends each new edge once. *)
Lemma add_edges_from_present es g :
    (∀ u v, (u, v) ∈ es → u ∈ (nodes g).*1 ∧ v ∈ (nodes g).*1) →
    add_edges_from es g =
    mk (graph_name g) (nodes g) (foldl (λ acc e, if bool_decide (e ∈ acc) then acc else acc ++ [e]) (edges g) es).
  Proof.
    revert g. induction es as [|[u v] es IH]; intros [nm ns es0] Hes; simpl.
    - done.
    - unfold add_edges_from in *. simpl. unfold add_edge at 2. simpl.
      destruct (Hes u v) as [Hu Hv]; [by left|]. simpl in Hu, Hv.
      rewrite (add_endpoint_present (mk nm ns es0) u Hu), (add_endpoint_present (mk nm ns es0) v Hv). simpl.
      case_bool_decide; apply IH; intros u' v' Hin; apply Hes; by right.
  Qed.

End DiGraph.

(** The "append unless present" fold that [add_edges_from] performs on the
    edge list: with a duplicate-free input it is the identity on the
    appended edges. *)
Lemma foldl_append_new_nodup {A} `{EqDecision A} (acc es : list A) :
  NoDup (acc ++ es) →
  foldl (λ acc e, if bool_decide (e ∈ acc) then acc else acc ++ [e]) acc es = acc ++ es.
Proof.
  revert acc. induction es as [|e es IH]; intros acc Hnd; simpl.
  - by rewrite app_nil_r.
  - rewrite bool_decide_false.
    + rewrite IH; [by rewrite <-app_assoc|]. by rewrite <-app_assoc.
    + intros Hin. apply NoDup_app in Hnd as (_ & Hdis & _).
      apply (Hdis e); [done|]. by left.
Qed.

(** Endpoints created by [add_edges_from] carry no attributes: a graph
    whose nodes all lack attributes keeps that property. *)
Lemma add_edges_from_no_attrs es g :
  (∀ k a, (k, a) ∈ DiGraph.nodes g → a = None) →
  ∀ k a, (k, a) ∈ DiGraph.nodes (DiGraph.add_edges_from es g) → a = None.
Proof.
  unfold DiGraph.add_edges_from. revert g.
  induction es as [|[u v] es IH]; intros g Hg; simpl; [done|].
  apply IH. unfold DiGraph.add_edge, DiGraph.add_endpoint. simpl.
  intros k a. repeat (case_match; simpl); rewrite ?elem_of_app, ?list_elem_of_singleton;
    naive_solver.
Qed.

Lemma add_endpoint_edges n g : DiGraph.edges (DiGraph.add_endpoint n g) = DiGraph.edges g.
Proof. unfold DiGraph.add_endpoint. by case_match. Qed.

Lemma add_endpoint_nodes n g k a :
  (k, a) ∈ DiGraph.nodes (DiGraph.add_endpoint n g) → (k, a) ∈ DiGraph.nodes g ∨ k = n.
Proof.
  unfold DiGraph.add_endpoint. case_match; simpl; [by left|].
  rewrite elem_of_app, list_elem_of_singleton. naive_solver.
Qed.

Lemma add_edge_edges g e :
  e ∈ DiGraph.edges (DiGraph.add_edge g e) ∧
  ∀ e', e' ∈ DiGraph.edges g → e' ∈ DiGraph.edges (DiGraph.add_edge g e).
Proof.
  unfold DiGraph.add_edge. cbv zeta. case_bool_decide as He; simpl; rewrite !add_endpoint_edges in *; [done|].
  rewrite elem_of_app, list_elem_of_singleton. split; [by right|]. intros e' ?. rewrite elem_of_app. by left.
Qed.

Lemma add_edge_nodes g e k a :
  (k, a) ∈ DiGraph.nodes (DiGraph.add_edge g e) → (k, a) ∈ DiGraph.nodes g ∨ k = e.1 ∨ k = e.2.
Proof.
  unfold DiGraph.add_edge. cbv zeta. case_bool_decide as Hb; simpl;
    intros [[Hk|Hk]%add_endpoint_nodes|Hk]%add_endpoint_nodes; auto.
Qed.

(** A graph whose every node is an endpoint of one of its edges keeps
    that property under [add_edges_from]. *)
Lemma add_edges_from_endpoints es g :
  (∀ k a, (k, a) ∈ DiGraph.nodes g → ∃ u v, (u, v) ∈ DiGraph.edges g ∧ (k = u ∨ k = v)) →
  ∀ k a, (k, a) ∈ DiGraph.nodes (DiGraph.add_edges_from es g) →
    ∃ u v, (u, v) ∈ DiGraph.edges (DiGraph.add_edges_from es g) ∧ (k = u ∨ k = v).
Proof.
  unfold DiGraph.add_edges_from. revert g. induction es as [|e es IH]; intros g Hg; simpl; [done|].
  apply IH. intros k a [Hk|He]%add_edge_nodes.
  - destruct (Hg k a Hk) as (u & v & Huv & Hkuv). exists u, v. split; [|done]. by apply add_edge_edges.
  - exists e.1, e.2. rewrite <-surjective_pairing. split; [exact (proj1 (add_edge_edges g e))|exact He].
Qed.
