(* ===== verification/ContractInfo.v ===== *)
(** * [ContractInfo]: object state, structs and state-variable tables

    Models [src/ponzi_detector/info_analyze/contract_analyze.py]:
    the fields [__init__] sets (lines 9-26), [_struct_info] (31-35) and
    [_stat_vars_info_in_contract] (37-75).  Each method is a function from
    the object state to the object state.  The tables are characterised
    exactly: the read and write tables list, per variable name, the
    functions in encounter order (with repetition), and the declaration
    table holds the last constructor write, else the last uninitialised
    declaration. *)

From S2P Require Import Prelude Slither DiGraph.

(** ** Values stored in the tables *)

(** Python keys of mixed type: [send_function_map] is keyed by
    [function.id] (an [int]) but tested with [function.name] (a [str]). *)
Inductive PyKey := KInt (z : Z) | KStr (s : string).

#[global] Instance PyKey_eq_dec : EqDecision PyKey.
Proof. solve_decision. Defined.

#[global] Instance PyKey_countable : Countable PyKey.
Proof.
  refine (inj_countable' (λ k, match k with KInt z => inl z | KStr s => inr s end)
                         (λ x, match x with inl z => KInt z | inr s => KStr s end) _).
  by intros [].
Defined.

(** The dict [{"id", "name", "function", "exp", "node"}] of line 83. *)
Record SendInfo := mkSendInfo {
  si_id : Z; si_name : string; si_function : Function.t;
  si_exp : option string; si_node : Node.t }.

(** The two shapes of declaration entries: [{"type", "exp"}] (line 43)
    and [{"fun", "expr", "full_expr"}] (lines 52-56). *)
Inductive DeclInfo :=
| DeclStub (type : string) (exp : string)
| DeclCtor (fn : Function.t) (expr : option string) (full_expr : string).

(** ** The object *)

Record ContractInfo := mkContractInfo {
  name : string;
  contract : Contract.t;
  structs_info : gmap string Structure.t;
  send_function_map : gmap PyKey SendInfo;
  funcid_2_graphid : gmap Z nat;
  call_graph : option DiGraph.t;
  state_var_declare_function_map : gmap string DeclInfo;
  state_var_read_function_map : gmap string (list Function.t);
  state_var_write_function_map : gmap string (list Function.t) }.

(** [__init__] up to the call of [contract_info_analyze] (lines 10-26). *)
Definition init_state (c : Contract.t) : ContractInfo :=
  mkContractInfo (Contract.name c) c ∅ ∅ ∅ None ∅ ∅ ∅.

Definition set_structs_info m (s : ContractInfo) : ContractInfo :=
  mkContractInfo (name s) (contract s) m (send_function_map s) (funcid_2_graphid s)
    (call_graph s) (state_var_declare_function_map s) (state_var_read_function_map s)
    (state_var_write_function_map s).

Definition set_declare m (s : ContractInfo) : ContractInfo :=
  mkContractInfo (name s) (contract s) (structs_info s) (send_function_map s)
    (funcid_2_graphid s) (call_graph s) m (state_var_read_function_map s)
    (state_var_write_function_map s).

Definition set_read m (s : ContractInfo) : ContractInfo :=
  mkContractInfo (name s) (contract s) (structs_info s) (send_function_map s)
    (funcid_2_graphid s) (call_graph s) (state_var_declare_function_map s) m
    (state_var_write_function_map s).

Definition set_write m (s : ContractInfo) : ContractInfo :=
  mkContractInfo (name s) (contract s) (structs_info s) (send_function_map s)
    (funcid_2_graphid s) (call_graph s) (state_var_declare_function_map s)
    (state_var_read_function_map s) m.

Definition set_send_function_map m (s : ContractInfo) : ContractInfo :=
  mkContractInfo (name s) (contract s) (structs_info s) m (funcid_2_graphid s)
    (call_graph s) (state_var_declare_function_map s) (state_var_read_function_map s)
    (state_var_write_function_map s).

Definition set_call_graph f2g g (s : ContractInfo) : ContractInfo :=
  mkContractInfo (name s) (contract s) (structs_info s) (send_function_map s) f2g
    (Some g) (state_var_declare_function_map s) (state_var_read_function_map s)
    (state_var_write_function_map s).

(** ** [_struct_info] (lines 31-35) *)

Definition _struct_info (s : ContractInfo) : ContractInfo :=
  set_structs_info
    (foldl (λ m st, <[Structure.name st := st]> m) (structs_info s)
       (Contract.structures (contract s))) s.

(** ** [_stat_vars_info_in_contract] (lines 37-75) *)

(** [v.expression is None] *)
Definition has_no_initializer (v : StateVariable.t) : bool :=
  match StateVariable.expression v with None => true | Some _ => false end.

(** [{"type": str(v.type), "exp": str(v.type) + " " + str(Identifier(v))}] *)
Definition declare_stub (v : StateVariable.t) : DeclInfo :=
  DeclStub (StateVariable.type v)
    (StateVariable.type v +:+ " " +:+ StateVariable.name v).

(** [{"fun": function, "expr": node.expression,
      "full_expr": "{} {}".format(str(v.type), node.expression)}] *)
Definition declare_ctor (f : Function.t) (n : Node.t) (v : StateVariable.t) : DeclInfo :=
  DeclCtor f (Node.expression n)
    (StateVariable.type v +:+ " " +:+ py_str_opt (Node.expression n)).

(** The body of [for function in self.contract.functions] (lines 47-75). *)
Definition stat_vars_function (s : ContractInfo) (f : Function.t) : ContractInfo :=
  if Function.is_ctor f then
    set_declare
      (foldl (λ m n,
          foldl (λ m v, <[StateVariable.name v := declare_ctor f n v]> m)
            m (Node.state_variables_written n))
        (state_var_declare_function_map s) (Function.nodes f)) s
  else
    let s := set_read
      (foldl (λ m v, dict_append (StateVariable.name v) f m)
         (state_var_read_function_map s) (Function.state_variables_read f)) s in
    set_write
      (foldl (λ m v, if Function.can_send_eth f then dict_append (StateVariable.name v) f m else m)
         (state_var_write_function_map s) (Function.state_variables_written f)) s.

Definition _stat_vars_info_in_contract (s : ContractInfo) : ContractInfo :=
  let c := contract s in
  let s := set_declare
    (foldl (λ m v, if has_no_initializer v then <[StateVariable.name v := declare_stub v]> m else m)
       (state_var_declare_function_map s) (Contract.state_variables c)) s in
  foldl stat_vars_function s (Contract.functions c).

(** ** Declarative descriptions of the tables *)

(** [(str(v), function)] for every read of a non-constructor function, in
    the order of the loops. *)
Definition read_pairs (fs : list Function.t) : list (string * Function.t) :=
  flat_map (λ f, if Function.is_ctor f then []
                 else (λ v, (StateVariable.name v, f)) <$> Function.state_variables_read f) fs.

(** The same for writes, kept only for functions that can send ether. *)
Definition write_pairs (fs : list Function.t) : list (string * Function.t) :=
  flat_map (λ f, if Function.is_ctor f then []
                 else if Function.can_send_eth f
                 then (λ v, (StateVariable.name v, f)) <$> Function.state_variables_written f
                 else []) fs.

(** Every assignment of the declaration table by a constructor, in order. *)
Definition ctor_decls (fs : list Function.t) : list (string * DeclInfo) :=
  flat_map (λ f, if Function.is_ctor f
                 then flat_map (λ n, (λ v, (StateVariable.name v, declare_ctor f n v))
                                       <$> Node.state_variables_written n) (Function.nodes f)
                 else []) fs.

(** The entries of the uninitialised state variables. *)
Definition stub_decls (vs : list StateVariable.t) : list (string * DeclInfo) :=
  (λ v, (StateVariable.name v, declare_stub v)) <$> filter (λ v, has_no_initializer v = true) vs.

(** A constructor node assigns a state variable named [x]. *)
Definition ctor_writes (fs : list Function.t) (x : string) : Prop :=
  ∃ f n v, f ∈ fs ∧ Function.is_ctor f = true ∧ n ∈ Function.nodes f ∧
    v ∈ Node.state_variables_written n ∧ StateVariable.name v = x.

(** A state variable named [x] is declared without initializer. *)
Definition uninitialised (vs : list StateVariable.t) (x : string) : Prop :=
  ∃ v, v ∈ vs ∧ has_no_initializer v = true ∧ StateVariable.name v = x.

(** ** Lemmas *)

Lemma stat_vars_function_contract s f : contract (stat_vars_function s f) = contract s.
Proof. unfold stat_vars_function. by destruct (Function.is_ctor f). Qed.

(** Each table of the loop over functions depends only on that table. *)
Lemma stat_vars_loop_read fs s :
  state_var_read_function_map (foldl stat_vars_function s fs) =
  foldl (λ d kv, dict_append kv.1 kv.2 d) (state_var_read_function_map s) (read_pairs fs).
Proof.
  revert s. induction fs as [|f fs IH]; intros s; [done|].
  unfold read_pairs; cbn [foldl flat_map]; fold (read_pairs fs).
  rewrite foldl_app, IH. f_equal. unfold stat_vars_function.
  destruct (Function.is_ctor f); simpl; [done|]. by rewrite foldl_fmap.
Qed.

Lemma stat_vars_loop_write fs s :
  state_var_write_function_map (foldl stat_vars_function s fs) =
  foldl (λ d kv, dict_append kv.1 kv.2 d) (state_var_write_function_map s) (write_pairs fs).
Proof.
  revert s. induction fs as [|f fs IH]; intros s; [done|].
  unfold write_pairs; cbn [foldl flat_map]; fold (write_pairs fs).
  rewrite foldl_app, IH. f_equal. unfold stat_vars_function.
  destruct (Function.is_ctor f), (Function.can_send_eth f); simpl;
    rewrite ?foldl_fmap, ?foldl_skip; done.
Qed.

Lemma stat_vars_loop_declare fs s :
  state_var_declare_function_map (foldl stat_vars_function s fs) =
  foldl (λ m kv, <[kv.1 := kv.2]> m) (state_var_declare_function_map s) (ctor_decls fs).
Proof.
  revert s. induction fs as [|f fs IH]; intros s; [done|].
  unfold ctor_decls; cbn [foldl flat_map]; fold (ctor_decls fs).
  rewrite foldl_app, IH. f_equal. unfold stat_vars_function.
  destruct (Function.is_ctor f); simpl; [|done].
  rewrite foldl_flat_map. apply foldl_ext. intros m n. by rewrite foldl_fmap.
Qed.

(** ** Characterisation of the tables *)

(** The read table appends, under each variable name, every
    non-constructor function reading it, in loop order and with
    repetition. *)
Theorem stat_vars_read_spec s x :
  state_var_read_function_map (_stat_vars_info_in_contract s) !! x =
  opt_app (state_var_read_function_map s !! x)
    (snd <$> filter (λ kv, kv.1 = x) (read_pairs (Contract.functions (contract s)))).
Proof.
  unfold _stat_vars_info_in_contract. rewrite stat_vars_loop_read.
  apply lookup_fold_dict_append.
Qed.

Theorem stat_vars_write_spec s x :
  state_var_write_function_map (_stat_vars_info_in_contract s) !! x =
  opt_app (state_var_write_function_map s !! x)
    (snd <$> filter (λ kv, kv.1 = x) (write_pairs (Contract.functions (contract s)))).
Proof.
  unfold _stat_vars_info_in_contract. rewrite stat_vars_loop_write.
  apply lookup_fold_dict_append.
Qed.

(** Rewriting a loop of assignments [d[key(a)] = val(a)] into the
    assignment of the pairs [(key(a), val(a))]. *)
Lemma foldl_insert_pairs {A V} (key : A → string) (val : A → V) (m : gmap string V) l :
  foldl (λ m a, <[key a := val a]> m) m l =
  foldl (λ m kv, <[kv.1 := kv.2]> m) m ((λ a, (key a, val a)) <$> l).
Proof. by rewrite foldl_fmap. Qed.

Theorem stat_vars_declare_spec s x :
  state_var_declare_function_map (_stat_vars_info_in_contract s) !! x =
  match last (snd <$> filter (λ kv, kv.1 = x) (ctor_decls (Contract.functions (contract s)))) with
  | Some d => Some d
  | None =>
      match last (snd <$> filter (λ kv, kv.1 = x) (stub_decls (Contract.state_variables (contract s)))) with
      | Some d => Some d
      | None => state_var_declare_function_map s !! x
      end
  end.
Proof.
  unfold _stat_vars_info_in_contract. rewrite stat_vars_loop_declare.
  rewrite (lookup_foldl_insert fst snd). simpl. destruct (last _); [done|].
  rewrite foldl_guard, foldl_insert_pairs, (lookup_foldl_insert fst snd). done.
Qed.

Theorem struct_info_spec s n :
  structs_info (_struct_info s) !! n =
  match last (filter (λ st, Structure.name st = n) (Contract.structures (contract s))) with
  | Some st => Some st
  | None => structs_info s !! n
  end.
Proof.
  unfold _struct_info. simpl. rewrite (lookup_foldl_insert Structure.name (λ st, st)).
  by rewrite list_fmap_id.
Qed.

(** ** Who is in the read and write tables *)

Lemma read_pairs_elem fs x f :
  (x, f) ∈ read_pairs fs ↔
  f ∈ fs ∧ Function.is_ctor f = false ∧
  ∃ v, v ∈ Function.state_variables_read f ∧ StateVariable.name v = x.
Proof.
  unfold read_pairs. rewrite elem_of_flat_map. split.
  - intros (g & Hg & Hin). destruct (Function.is_ctor g) eqn:Hc;
      [by apply not_elem_of_nil in Hin|].
    apply list_elem_of_fmap in Hin as (v & [= -> ->] & Hv). eauto.
  - intros (Hf & Hc & v & Hv & <-). exists f. rewrite Hc.
    split; [done|]. apply list_elem_of_fmap. eauto.
Qed.

Lemma write_pairs_elem fs x f :
  (x, f) ∈ write_pairs fs ↔
  f ∈ fs ∧ Function.is_ctor f = false ∧ Function.can_send_eth f = true ∧
  ∃ v, v ∈ Function.state_variables_written f ∧ StateVariable.name v = x.
Proof.
  unfold write_pairs. rewrite elem_of_flat_map. split.
  - intros (g & Hg & Hin).
    destruct (Function.is_ctor g) eqn:Hc, (Function.can_send_eth g) eqn:Hs;
      try by apply not_elem_of_nil in Hin.
    apply list_elem_of_fmap in Hin as (v & [= -> ->] & Hv). eauto 10.
  - intros (Hf & Hc & Hs & v & Hv & <-). exists f. rewrite Hc, Hs.
    split; [done|]. apply list_elem_of_fmap. eauto.
Qed.

(** C5: starting without an entry for [x], a function ends up in the write
    list of [x] exactly when it is a non-constructor function of the
    contract that can send ether and writes [x]. *)
Theorem stat_vars_write_members s x f :
  state_var_write_function_map s !! x = None →
  (∃ l, state_var_write_function_map (_stat_vars_info_in_contract s) !! x = Some l ∧ f ∈ l) ↔
  f ∈ Contract.functions (contract s) ∧ Function.is_ctor f = false ∧
  Function.can_send_eth f = true ∧
  ∃ v, v ∈ Function.state_variables_written f ∧ StateVariable.name v = x.
Proof.
  intros H0. rewrite stat_vars_write_spec, H0, opt_app_None_filter_elem.
  apply write_pairs_elem.
Qed.

(** C26: starting without an entry for [x], a function ends up in the read
    list of [x] exactly when it is a non-constructor function of the
    contract that reads [x]. *)
Theorem stat_vars_read_members s x f :
  state_var_read_function_map s !! x = None →
  (∃ l, state_var_read_function_map (_stat_vars_info_in_contract s) !! x = Some l ∧ f ∈ l) ↔
  f ∈ Contract.functions (contract s) ∧ Function.is_ctor f = false ∧
  ∃ v, v ∈ Function.state_variables_read f ∧ StateVariable.name v = x.
Proof.
  intros H0. rewrite stat_vars_read_spec, H0, opt_app_None_filter_elem.
  apply read_pairs_elem.
Qed.

(** C6: only functions that can send ether contribute to the write table:
    a variable that no non-constructor sender writes gets no entry. *)
Theorem stat_vars_write_excludes_non_senders s x :
  state_var_write_function_map s !! x = None →
  (∀ f, f ∈ Contract.functions (contract s) → Function.is_ctor f = false →
        (∃ v, v ∈ Function.state_variables_written f ∧ StateVariable.name v = x) →
        Function.can_send_eth f = false) →
  state_var_write_function_map (_stat_vars_info_in_contract s) !! x = None.
Proof.
  intros H0 Hns. destruct (state_var_write_function_map (_stat_vars_info_in_contract s) !! x) as [l|] eqn:E; [|done]. exfalso.
  assert (∃ f, f ∈ l) as [f Hf].
  { rewrite stat_vars_write_spec, H0 in E. destruct (snd <$> _) as [|a l'];
      simpl in E; [done|]. injection E as <-. exists a. by left. }
  rewrite stat_vars_write_spec, H0 in E.
  assert ((x, f) ∈ write_pairs (Contract.functions (contract s))) as Hxf
    by (apply opt_app_None_filter_elem; by exists l).
  apply write_pairs_elem in Hxf as (Hin & Hc & Hs & Hw).
  by rewrite (Hns f Hin Hc Hw) in Hs.
Qed.

Lemma ctor_decls_elem fs x d :
  (x, d) ∈ ctor_decls fs →
  ∃ f n v, f ∈ fs ∧ Function.is_ctor f = true ∧ n ∈ Function.nodes f ∧
    v ∈ Node.state_variables_written n ∧ StateVariable.name v = x ∧ d = declare_ctor f n v.
Proof.
  unfold ctor_decls. rewrite elem_of_flat_map. intros (f & Hf & Hin).
  destruct (Function.is_ctor f) eqn:Hc; [|by apply not_elem_of_nil in Hin].
  apply elem_of_flat_map in Hin as (n & Hn & Hin).
  apply list_elem_of_fmap in Hin as (v & [= -> ->] & Hv). eauto 10.
Qed.

Lemma stub_decls_elem vs x d :
  (x, d) ∈ stub_decls vs →
  ∃ v, v ∈ vs ∧ has_no_initializer v = true ∧ StateVariable.name v = x ∧ d = declare_stub v.
Proof.
  unfold stub_decls. intros Hin.
  apply list_elem_of_fmap in Hin as (v & [= -> ->] & Hv).
  apply list_elem_of_filter in Hv as [Hni Hv]. eauto.
Qed.

Lemma ctor_decls_intro fs f n v :
  f ∈ fs → Function.is_ctor f = true → n ∈ Function.nodes f → v ∈ Node.state_variables_written n →
  (StateVariable.name v, declare_ctor f n v) ∈ ctor_decls fs.
Proof.
  intros Hf Hc Hn Hv. unfold ctor_decls. apply elem_of_flat_map. exists f. split; [done|]. rewrite Hc.
  apply elem_of_flat_map. exists n. split; [done|]. apply list_elem_of_fmap. by exists v.
Qed.

Lemma stub_decls_intro vs v :
  v ∈ vs → has_no_initializer v = true → (StateVariable.name v, declare_stub v) ∈ stub_decls vs.
Proof. intros Hv Hni. unfold stub_decls. apply list_elem_of_fmap. exists v. split; [done|]. by apply list_elem_of_filter. Qed.

(** C16: the declaration table, entry by entry, for a name the table
    did not hold before: a constructor write wins and gives the
    [{"fun", "expr", "full_expr"}] shape of a constructor node writing
    the variable; otherwise an uninitialised state variable gives the
    [{"type", "exp"}] shape; a name that neither a constructor writes
    nor an uninitialised declaration carries gets no entry. *)
Theorem stat_vars_declare_shape s x :
  state_var_declare_function_map s !! x = None →
  match state_var_declare_function_map (_stat_vars_info_in_contract s) !! x with
  | Some (DeclCtor fn e fe) =>
      ∃ n v, fn ∈ Contract.functions (contract s) ∧ Function.is_ctor fn = true ∧
        n ∈ Function.nodes fn ∧ v ∈ Node.state_variables_written n ∧
        StateVariable.name v = x ∧ DeclCtor fn e fe = declare_ctor fn n v
  | Some (DeclStub t e) =>
      ¬ ctor_writes (Contract.functions (contract s)) x ∧
      ∃ v, v ∈ Contract.state_variables (contract s) ∧ has_no_initializer v = true ∧
        StateVariable.name v = x ∧ DeclStub t e = declare_stub v
  | None =>
      ¬ ctor_writes (Contract.functions (contract s)) x ∧ ¬ uninitialised (Contract.state_variables (contract s)) x
  end.
Proof.
  intros H0. rewrite stat_vars_declare_spec, H0.
  destruct (last (snd <$> filter _ (ctor_decls _))) as [d|] eqn:Ec.
  - apply last_filter_Some, ctor_decls_elem in Ec as (f & n & v & Hf & Hc & Hn & Hv & Hx & ->).
    simpl. eauto 10.
  - assert (¬ ctor_writes (Contract.functions (contract s)) x) as Hnc.
    { intros (f & n & v & Hf & Hc & Hn & Hv & <-).
      apply (last_filter_None _ _ (declare_ctor f n v) Ec). by apply ctor_decls_intro. }
    destruct (last (snd <$> filter _ (stub_decls _))) as [d|] eqn:Es.
    + apply last_filter_Some, stub_decls_elem in Es as (v & Hv & Hni & Hx & ->). simpl. split; [done|eauto 10].
    + split; [done|]. intros (v & Hv & Hni & <-).
      apply (last_filter_None _ _ (declare_stub v) Es). by apply stub_decls_intro.
Qed.

(** ** Witnesses on the scenario contract *)

Lemma stat_vars_write_members_witness :
  state_var_write_function_map (init_state Scenario.contract) !! "X" = None ∧
  ((∃ l, state_var_write_function_map
           (_stat_vars_info_in_contract (init_state Scenario.contract)) !! "X" = Some l ∧
         Scenario.A ∈ l) ↔
   Scenario.A ∈ Contract.functions (contract (init_state Scenario.contract)) ∧
   Function.is_ctor Scenario.A = false ∧ Function.can_send_eth Scenario.A = true ∧
   ∃ v, v ∈ Function.state_variables_written Scenario.A ∧ StateVariable.name v = "X").
Proof. split; [reflexivity|]. apply stat_vars_write_members. reflexivity. Defined.

Lemma stat_vars_read_members_witness :
  state_var_read_function_map (init_state Scenario.contract) !! "X" = None ∧
  ((∃ l, state_var_read_function_map
           (_stat_vars_info_in_contract (init_state Scenario.contract)) !! "X" = Some l ∧
         Scenario.B ∈ l) ↔
   Scenario.B ∈ Contract.functions (contract (init_state Scenario.contract)) ∧
   Function.is_ctor Scenario.B = false ∧
   ∃ v, v ∈ Function.state_variables_read Scenario.B ∧ StateVariable.name v = "X").
Proof. split; [reflexivity|]. apply stat_vars_read_members. reflexivity. Defined.

(** [owner] is written only by the constructor: no write entry. *)
Lemma stat_vars_write_excludes_non_senders_witness :
  state_var_write_function_map
    (_stat_vars_info_in_contract (init_state Scenario.contract)) !! "owner" = None.
Proof.
  apply stat_vars_write_excludes_non_senders; [reflexivity|].
  intros f Hf. simpl in Hf.
  repeat (apply elem_of_cons in Hf as [->|Hf]); [..|by apply not_elem_of_nil in Hf];
    try reflexivity.
  intros _ (v & Hv%list_elem_of_singleton & Hn). subst v. discriminate.
Defined.

(** [owner] is declared without initializer and assigned in the
    constructor: the constructor shape wins. *)
Lemma stat_vars_declare_shape_witness :
  state_var_declare_function_map (init_state Scenario.contract) !! "owner" = None ∧
  match state_var_declare_function_map
          (_stat_vars_info_in_contract (init_state Scenario.contract)) !! "owner" with
  | Some (DeclCtor fn e fe) =>
      ∃ n v, fn ∈ Contract.functions (contract (init_state Scenario.contract)) ∧
        Function.is_ctor fn = true ∧ n ∈ Function.nodes fn ∧
        v ∈ Node.state_variables_written n ∧ StateVariable.name v = "owner" ∧
        DeclCtor fn e fe = declare_ctor fn n v
  | Some (DeclStub t e) =>
      ¬ ctor_writes (Contract.functions (contract (init_state Scenario.contract))) "owner" ∧
      ∃ v, v ∈ Contract.state_variables (contract (init_state Scenario.contract)) ∧
        has_no_initializer v = true ∧ StateVariable.name v = "owner" ∧ DeclStub t e = declare_stub v
  | None =>
      ¬ ctor_writes (Contract.functions (contract (init_state Scenario.contract))) "owner" ∧
      ¬ uninitialised (Contract.state_variables (contract (init_state Scenario.contract))) "owner"
  end.
Proof. split; [reflexivity|]. apply stat_vars_declare_shape. reflexivity. Defined.
