(* ===== verification/SendFunctions.v ===== *)
(** * [_functions_with_transaction_call]: the functions that send ether

    Models lines 77-89 of [contract_analyze.py].  A statement is a transfer
    when [".transfer("] or [".send("] occurs in [str(node.expression)].
    The guard of line 82 tests [function.name] against a dict whose keys
    are [function.id]s (line 83), so it never fires: every matching
    statement overwrites the entry and the last one wins, where the spec
    (section 4.1) promises that the first one wins. *)

From S2P Require Import Prelude Slither ContractInfo.

Local Open Scope py_scope.

(** [".transfer(" in str(node.expression) or ".send(" in str(node.expression)] *)
Definition is_transfer_stmt (n : Node.t) : bool :=
  (".transfer(" in_str py_str_opt (Node.expression n)) ||
  (".send(" in_str py_str_opt (Node.expression n)).

Definition send_info (f : Function.t) (n : Node.t) : SendInfo :=
  mkSendInfo (Function.id f) (Function.name f) f (Node.expression n) n.

(** The body of [for node in function.nodes] (lines 81-89). *)
Definition send_node_step (f : Function.t) (m : gmap PyKey SendInfo) (n : Node.t)
    : gmap PyKey SendInfo :=
  if is_transfer_stmt n then
    match m !! KStr (Function.name f) with
    | None => <[KInt (Function.id f) := send_info f n]> m
    | Some _ => m
    end
  else m.

Definition _functions_with_transaction_call (s : ContractInfo) : ContractInfo :=
  set_send_function_map
    (foldl (λ m f, foldl (send_node_step f) m (Function.nodes f))
       (send_function_map s) (Contract.functions (contract s))) s.

(** Every [(key, entry)] assignment the loop would make if the guard
    always let it through, in loop order. *)
Definition send_pairs (fs : list Function.t) : list (PyKey * SendInfo) :=
  flat_map (λ f, (λ n, (KInt (Function.id f), send_info f n))
                   <$> filter (λ n, is_transfer_stmt n = true) (Function.nodes f)) fs.

(** The dict has only [int] keys. *)
Definition int_keyed (m : gmap PyKey SendInfo) : Prop := ∀ s, m !! KStr s = None.

(** ** Lemmas *)

Lemma int_keyed_insert m i v : int_keyed m → int_keyed (<[KInt i := v]> m).
Proof. intros Hm s. by rewrite lookup_insert_ne. Qed.

Lemma int_keyed_foldl_insert m (ps : list (PyKey * SendInfo)) :
  int_keyed m → (∀ kv, kv ∈ ps → ∃ i, kv.1 = KInt i) →
  int_keyed (foldl (λ m kv, <[kv.1 := kv.2]> m) m ps).
Proof.
  revert m. induction ps as [|[k v] ps IH]; intros m Hm Hps; simpl; [done|].
  destruct (Hps (k, v)) as [i Hi]; [by left|]. simpl in Hi; subst.
  apply IH; [by apply int_keyed_insert|]. intros kv Hkv. apply Hps. by right.
Qed.

(** On an [int]-keyed dict the guard of line 82 always passes. *)
Lemma send_node_step_int_keyed f m n :
  int_keyed m →
  send_node_step f m n =
  if is_transfer_stmt n then <[KInt (Function.id f) := send_info f n]> m else m.
Proof. intros Hm. unfold send_node_step. by rewrite Hm. Qed.

Lemma send_pairs_int fs kv : kv ∈ send_pairs fs → ∃ i, kv.1 = KInt i.
Proof.
  unfold send_pairs. rewrite elem_of_flat_map. intros (f & _ & Hin).
  apply list_elem_of_fmap in Hin as (n & -> & _). eauto.
Qed.

Lemma send_nodes_int_keyed f m ns :
  int_keyed m →
  foldl (send_node_step f) m ns =
  foldl (λ m n, if is_transfer_stmt n then <[KInt (Function.id f) := send_info f n]> m else m) m ns ∧
  int_keyed (foldl (send_node_step f) m ns).
Proof.
  revert m. induction ns as [|n ns IHn]; intros m Hm; [done|].
  simpl. rewrite send_node_step_int_keyed by done. apply IHn.
  destruct (is_transfer_stmt n); [by apply int_keyed_insert|done].
Qed.

Lemma send_loop_int_keyed fs m :
  int_keyed m →
  foldl (λ m f, foldl (send_node_step f) m (Function.nodes f)) m fs =
  foldl (λ m kv, <[kv.1 := kv.2]> m) m (send_pairs fs).
Proof.
  revert m. induction fs as [|f fs IH]; intros m Hm; [done|].
  unfold send_pairs; cbn [foldl flat_map]; fold (send_pairs fs).
  rewrite foldl_app, foldl_fmap, <-foldl_guard.
  destruct (send_nodes_int_keyed f m (Function.nodes f) Hm) as [Heq Hk].
  cbn [fst snd]. rewrite <-Heq.
  by apply IH.
Qed.

(** On an [int]-keyed dict (the initial one is empty), the entry of a
    key is the last assignment to it: the last transfer statement of the
    last function with that id. *)
Theorem transaction_call_spec s k :
  int_keyed (send_function_map s) →
  send_function_map (_functions_with_transaction_call s) !! k =
  match last (snd <$> filter (λ kv, kv.1 = k) (send_pairs (Contract.functions (contract s)))) with
  | Some v => Some v
  | None => send_function_map s !! k
  end.
Proof.
  intros Hk. unfold _functions_with_transaction_call. simpl.
  rewrite send_loop_int_keyed by done. apply (lookup_foldl_insert fst snd).
Qed.

Lemma send_pairs_key_block g i ns :
  snd <$> filter (λ kv, kv.1 = KInt i) ((λ n, (KInt (Function.id g), send_info g n)) <$> ns) =
  if bool_decide (Function.id g = i) then send_info g <$> ns else [].
Proof.
  induction ns as [|n ns IH]; [by case_bool_decide|].
  rewrite fmap_cons, filter_cons.
  destruct (decide ((KInt (Function.id g), send_info g n).1 = KInt i)) as [Hk|Hk];
    [rewrite fmap_cons|]; rewrite IH; simpl in Hk;
    case_bool_decide as Hi; try done; congruence.
Qed.

Lemma send_pairs_key fs i :
  snd <$> filter (λ kv, kv.1 = KInt i) (send_pairs fs) =
  flat_map (λ g, if bool_decide (Function.id g = i)
                 then send_info g <$> filter (λ n, is_transfer_stmt n = true) (Function.nodes g)
                 else []) fs.
Proof.
  induction fs as [|g fs IH]; [done|].
  unfold send_pairs; cbn [flat_map]; fold (send_pairs fs).
  by rewrite filter_app, fmap_app, IH, send_pairs_key_block.
Qed.

(** C4: the entry recorded for a function is its LAST transfer statement
    (the spec, section 4.1, says the first): the guard [function.name not
    in self.send_function_map] never sees a [str] key. *)
Theorem transaction_call_last_statement_wins s f n :
  int_keyed (send_function_map s) →
  f ∈ Contract.functions (contract s) →
  (∀ g, g ∈ Contract.functions (contract s) → Function.id g = Function.id f → g = f) →
  last (filter (λ n, is_transfer_stmt n = true) (Function.nodes f)) = Some n →
  send_function_map (_functions_with_transaction_call s) !! KInt (Function.id f) =
  Some (send_info f n).
Proof.
  intros Hk Hf Huniq Hl. rewrite transaction_call_spec, send_pairs_key by done.
  rewrite (last_flat_map_blocks _ (send_info f <$> filter (λ n, is_transfer_stmt n = true)
                                     (Function.nodes f))).
  - by rewrite fmap_last, Hl.
  - intros g Hg. case_bool_decide as Hi; [right; by rewrite (Huniq g Hg Hi)|by left].
  - exists f. by rewrite bool_decide_true.
Qed.

(** Whatever the start, no [str] key is ever added. *)
Theorem transaction_call_int_keyed s :
  int_keyed (send_function_map s) →
  int_keyed (send_function_map (_functions_with_transaction_call s)).
Proof.
  intros Hk. unfold _functions_with_transaction_call. simpl.
  rewrite send_loop_int_keyed by done. apply int_keyed_foldl_insert; [done|].
  apply send_pairs_int.
Qed.

(** ** Witnesses *)

(** A function with two transfer statements. *)
Module TwoTransfers.
Definition n1 : Node.t := Node.mk (Some "investor.transfer(msg.value / 2)") [].
Definition n2 : Node.t := Node.mk (Some "owner.send(fee)") [].
Definition pay : Function.t := Function.mk 7 "pay" false false [n1; n2] [] [] [] true.
Definition contract : Contract.t := Contract.mk "Split" [] [] [pay].
End TwoTransfers.

Lemma transaction_call_last_statement_wins_witness :
  send_function_map (_functions_with_transaction_call (init_state TwoTransfers.contract))
    !! KInt (Function.id TwoTransfers.pay) = Some (send_info TwoTransfers.pay TwoTransfers.n2).
Proof.
  apply transaction_call_last_statement_wins.
  - intros k. reflexivity.
  - by left.
  - intros g Hg _. apply list_elem_of_singleton in Hg. done.
  - reflexivity.
Defined.

(** The first transfer statement of [pay] is not the one recorded. *)
Example transaction_call_first_statement_dropped :
  send_function_map (_functions_with_transaction_call (init_state TwoTransfers.contract))
    !! KInt 7 ≠ Some (send_info TwoTransfers.pay TwoTransfers.n1).
Proof. vm_compute. congruence. Qed.

Lemma transaction_call_int_keyed_witness :
  int_keyed (send_function_map (_functions_with_transaction_call (init_state Scenario.contract))).
Proof. apply transaction_call_int_keyed. intros k. reflexivity. Defined.
