(* ===== verification/CallGraph.v ===== *)
(** * [_construct_call_graph]: the internal call graph

    Models lines 91-121 of [contract_analyze.py].  The loop state is
    [CGState]: the id map [self.funcid_2_graphid] (mutated in place), the
    graph under construction, the local [edges] list, the local
    [duplicate] dict keyed by ["{}-{}".format(from_node, to_node)] and the
    counter [node_id].  [register] is the block that gives a function id a
    fresh node (lines 102-105 for the function, 111-114 for a callee). *)

From S2P Require Import Prelude Slither DiGraph ContractInfo.
From Stdlib Require Import Ascii.

(** ** The dedup key ["{}-{}".format(from_node, to_node)] *)

Definition edge_key (u v : nat) : string := pretty u +:+ "-" +:+ pretty v.

Fixpoint dash_free (s : string) : bool :=
  match s with
  | EmptyString => true
  | String c s => negb (Ascii.eqb c "-"%char) && dash_free s
  end.

Lemma dash_free_app s t : dash_free (s +:+ t) = dash_free s && dash_free t.
Proof. induction s as [|c s IH]; [done|]. rewrite string_app_cons. simpl. by rewrite IH, andb_assoc. Qed.

Lemma pretty_N_go_dash_free x s :
  ∃ t, pretty_N_go x s = t +:+ s ∧ dash_free t = true.
Proof.
  revert s. induction (N.lt_wf_0 x) as [x _ IH]; intros s.
  destruct (decide (x = 0%N)) as [->|Hx].
  - by exists "".
  - rewrite pretty_N_go_step by lia.
    destruct (IH (x `div` 10)%N) with (s := String (pretty_N_char (x `mod` 10)) s)
      as (t & -> & Ht); [apply N.div_lt; lia|].
    exists (t +:+ String (pretty_N_char (x `mod` 10)) EmptyString).
    rewrite <-string_app_assoc. split; [done|].
    rewrite dash_free_app, Ht. unfold pretty_N_char. by repeat case_match.
Qed.

Lemma pretty_nat_dash_free (n : nat) : dash_free (pretty n) = true.
Proof.
  unfold pretty, pretty_nat, pretty, pretty_N. case_decide; [done|].
  destruct (pretty_N_go_dash_free (N.of_nat n) "") as (t & -> & Ht).
  by rewrite string_app_nil_r.
Qed.

Lemma dash_split a b c d :
  dash_free a = true → dash_free c = true →
  a +:+ String "-"%char b = c +:+ String "-"%char d → a = c ∧ b = d.
Proof.
  revert c. induction a as [|x a IH]; intros [|y c] Ha Hc Heq;
    rewrite ?string_app_nil_l, ?string_app_cons in Heq; simpl in *.
  - by injection Heq.
  - injection Heq as <- _. done.
  - injection Heq as -> _. done.
  - injection Heq as <- Heq. apply andb_prop in Ha as [_ Ha], Hc as [_ Hc].
    destruct (IH c Ha Hc Heq) as [-> ->]. done.
Qed.

(** Distinct ordered pairs have distinct keys. *)
Lemma edge_key_inj u v u' v' : edge_key u v = edge_key u' v' → u = u' ∧ v = v'.
Proof.
  unfold edge_key. intros Heq.
  apply dash_split in Heq as [Hu Hv]; try apply pretty_nat_dash_free.
  split; by apply (inj pretty).
Qed.

(** ** The loop state and its steps *)

Record CGState := mkCG {
  f2g : gmap Z nat;
  graph : DiGraph.t;
  edges : list (nat * nat);
  duplicate : gmap string nat;
  node_id : nat }.

(** [if fid not in self.funcid_2_graphid: call_graph.add_node(node_id,
    label=..., fid=fid); self.funcid_2_graphid[fid] = node_id; node_id += 1] *)
Definition register (fid : Z) (lbl : string) (st : CGState) : CGState :=
  match f2g st !! fid with
  | Some _ => st
  | None =>
      mkCG (<[fid := node_id st]> (f2g st))
        (DiGraph.add_node (node_id st) (DiGraph.mkAttr lbl fid) (graph st))
        (edges st) (duplicate st) (S (node_id st))
  end.

(** The body of [for internal_call in function.internal_calls] (108-119). *)
Definition call_step (from_node : nat) (st : CGState) (ic : InternalCall) : CGState :=
  match ic with
  | ICFunction cid cname =>
      let st := register cid cname st in
      let to_node := f2g st !!! cid in
      match duplicate st !! edge_key from_node to_node with
      | None =>
          mkCG (f2g st) (graph st) (edges st ++ [(from_node, to_node)])
            (<[edge_key from_node to_node := 1]> (duplicate st)) (node_id st)
      | Some _ => st
      end
  | ICSolidityFunction _ => st
  end.

(** The body of [for function in self.contract.functions] (100-119). *)
Definition function_step (st : CGState) (f : Function.t) : CGState :=
  let st := register (Function.id f) (Function.name f) st in
  let from_node := f2g st !!! Function.id f in
  foldl (call_step from_node) st (Function.internal_calls f).

Definition cg_init (s : ContractInfo) : CGState :=
  mkCG (funcid_2_graphid s) (DiGraph.new (Contract.name (contract s))) [] ∅ 0.

Definition cg_loop (s : ContractInfo) : CGState :=
  foldl function_step (cg_init s) (Contract.functions (contract s)).

Definition _construct_call_graph (s : ContractInfo) : ContractInfo :=
  let st := cg_loop s in
  set_call_graph (f2g st) (DiGraph.add_edges_from (edges st) (graph st)) s.

(** ** The loop invariant

    The id map is a bijection from the ids seen so far onto
    [0 .. node_id - 1]; the graph's nodes are exactly those ids in order,
    each carrying the id it was created for; the edge list is
    duplicate-free, between existing nodes, and mirrored by the keys of
    [duplicate]; no edge is in the graph before [add_edges_from]. *)
Record cg_inv (st : CGState) : Prop := {
  inv_range : ∀ i k, f2g st !! i = Some k → k < node_id st;
  inv_inj : ∀ i j k, f2g st !! i = Some k → f2g st !! j = Some k → i = j;
  inv_onto : ∀ k, k < node_id st → ∃ i, f2g st !! i = Some k;
  inv_nodes : (DiGraph.nodes (graph st)).*1 = seq 0 (node_id st);
  inv_attrs : ∀ k a, (k, a) ∈ DiGraph.nodes (graph st) →
                ∃ lbl i, a = Some (DiGraph.mkAttr lbl i) ∧ f2g st !! i = Some k;
  inv_dup : ∀ u v, (u, v) ∈ edges st ↔ is_Some (duplicate st !! edge_key u v);
  inv_nodup : NoDup (edges st);
  inv_edge_range : ∀ u v, (u, v) ∈ edges st → u < node_id st ∧ v < node_id st;
  inv_no_graph_edges : DiGraph.edges (graph st) = [] }.

Lemma cg_init_inv s : funcid_2_graphid s = ∅ → cg_inv (cg_init s).
Proof.
  intros H. unfold cg_init. rewrite H. split; simpl.
  - intros i k. by rewrite lookup_empty.
  - intros i j k. by rewrite lookup_empty.
  - intros k Hk. lia.
  - done.
  - intros k a Hin. by apply not_elem_of_nil in Hin.
  - intros u v. rewrite lookup_empty.
    split; [intros Hin; by apply not_elem_of_nil in Hin|by intros [? ?]].
  - constructor.
  - intros u v Hin. by apply not_elem_of_nil in Hin.
  - done.
Qed.

Lemma seq_snoc n : seq 0 n ++ [n] = seq 0 (S n).
Proof. by rewrite seq_S. Qed.

Lemma add_node_fresh g n a :
  n ∉ (DiGraph.nodes g).*1 →
  DiGraph.add_node n a g = DiGraph.mk (DiGraph.graph_name g) (DiGraph.nodes g ++ [(n, Some a)]) (DiGraph.edges g).
Proof.
  intros Hn. unfold DiGraph.add_node. destruct (DiGraph.has_node g n) eqn:E; [|done].
  apply DiGraph.has_node_spec in E. done.
Qed.

(** After [register], the id has a node and nothing else moved. *)
Lemma register_inv st i lbl : cg_inv st → cg_inv (register i lbl st).
Proof.
  intros Hinv. unfold register. destruct (f2g st !! i) eqn:Ei; [done|].
  assert (node_id st ∉ (DiGraph.nodes (graph st)).*1) as Hfresh.
  { rewrite (inv_nodes _ Hinv), elem_of_seq. lia. }
  destruct Hinv as [Hr Hi Ho Hn Ha Hd Hnd Her Hge].
  split; simpl; rewrite ?add_node_fresh by done; simpl.
  - intros j k. rewrite lookup_insert. case_decide; [intros [= <-]; lia|].
    intros Hj. specialize (Hr _ _ Hj). lia.
  - intros j1 j2 k. rewrite !lookup_insert.
    do 2 case_decide; subst; try done; intros H1 H2; simplify_eq.
    + specialize (Hr _ _ H2). lia.
    + specialize (Hr _ _ H1). lia.
    + eauto.
  - intros k Hk. destruct (decide (k = node_id st)) as [->|Hne].
    + exists i. by rewrite lookup_insert_eq.
    + destruct (Ho k) as [j Hj]; [lia|]. exists j.
      rewrite lookup_insert_ne; [done|]. congruence.
  - rewrite fmap_app, Hn. apply seq_snoc.
  - intros k a Hin. apply elem_of_app in Hin as [Hin|Hin].
    + destruct (Ha _ _ Hin) as (l & j & -> & Hj). exists l, j. split; [done|].
      rewrite lookup_insert_ne; [done|]. congruence.
    + apply list_elem_of_singleton in Hin. simplify_eq.
      exists lbl, i. by rewrite lookup_insert_eq.
  - done.
  - done.
  - intros u v Huv. specialize (Her _ _ Huv). lia.
  - done.
Qed.

Lemma register_f2g_mono st i lbl j k :
  f2g st !! j = Some k → f2g (register i lbl st) !! j = Some k.
Proof.
  intros Hj. unfold register. destruct (f2g st !! i) eqn:Ei; [done|]. simpl.
  rewrite lookup_insert_ne; [done|]. congruence.
Qed.

Lemma register_f2g_in st i lbl : is_Some (f2g (register i lbl st) !! i).
Proof. unfold register. destruct (f2g st !! i) eqn:Ei; simpl; [by eexists|]. by rewrite lookup_insert_eq. Qed.

Lemma register_node_id_mono st i lbl : node_id st ≤ node_id (register i lbl st).
Proof. unfold register. destruct (f2g st !! i); simpl; lia. Qed.

Lemma register_edges st i lbl :
  edges (register i lbl st) = edges st ∧ duplicate (register i lbl st) = duplicate st.
Proof. unfold register. by destruct (f2g st !! i). Qed.

Lemma lookup_total_Some (m : gmap Z nat) i k : m !! i = Some k → m !!! i = k.
Proof. intros H. by rewrite lookup_total_alt, H. Qed.

(** The node of an id that [register] has just handled. *)
Lemma register_target st i lbl :
  cg_inv st → f2g (register i lbl st) !! i = Some (f2g (register i lbl st) !!! i) ∧
              f2g (register i lbl st) !!! i < node_id (register i lbl st).
Proof.
  intros Hinv. destruct (register_f2g_in st i lbl) as [k Hk].
  rewrite (lookup_total_Some _ _ _ Hk). split; [done|].
  eapply inv_range; [by apply register_inv|done].
Qed.

Lemma call_step_inv st from ic :
  cg_inv st → from < node_id st → cg_inv (call_step from st ic).
Proof.
  intros Hinv Hfrom. destruct ic as [cid cname|]; simpl; [|done].
  pose proof (register_inv st cid cname Hinv) as Hinv'.
  pose proof (register_node_id_mono st cid cname) as Hmono.
  destruct (register_target st cid cname Hinv) as [_ Hto].
  set (st' := register cid cname st) in *.
  destruct (duplicate st' !! edge_key from (f2g st' !!! cid)) eqn:Ed; [done|].
  destruct Hinv' as [Hr Hi Ho Hn Ha Hd Hnd Her Hge]. split; simpl; try done.
  - intros u v. rewrite elem_of_app, list_elem_of_singleton, lookup_insert.
    case_decide as Hk.
    + apply edge_key_inj in Hk as [-> ->]. split; [by eexists|by right].
    + rewrite <-Hd. split; [intros [H1|H1]; [done|by simplify_eq]|by left].
  - apply NoDup_app. split; [done|]. split; [|apply NoDup_singleton].
    intros e He He'. apply list_elem_of_singleton in He'. subst e.
    apply Hd in He. rewrite Ed in He. by destruct He.
  - intros u v. rewrite elem_of_app, list_elem_of_singleton.
    intros [H1|H1]; [by apply Her|simplify_eq; lia].
Qed.

Lemma call_step_node_id_mono st from ic : node_id st ≤ node_id (call_step from st ic).
Proof.
  destruct ic as [cid cname|]; simpl; [|lia].
  pose proof (register_node_id_mono st cid cname).
  by destruct (duplicate _ !! _).
Qed.

Lemma calls_inv st from cs :
  cg_inv st → from < node_id st → cg_inv (foldl (call_step from) st cs).
Proof.
  revert st. induction cs as [|c cs IH]; intros st Hinv Hfrom; [done|]. simpl.
  apply IH; [by apply call_step_inv|]. pose proof (call_step_node_id_mono st from c). lia.
Qed.

Lemma function_step_inv st f : cg_inv st → cg_inv (function_step st f).
Proof.
  intros Hinv. unfold function_step.
  destruct (register_target st (Function.id f) (Function.name f) Hinv) as [_ Hfrom].
  apply calls_inv; [by apply register_inv|done].
Qed.

Lemma cg_loop_inv s : funcid_2_graphid s = ∅ → cg_inv (cg_loop s).
Proof.
  intros H. unfold cg_loop. generalize (cg_init_inv s H).
  generalize (cg_init s). induction (Contract.functions (contract s)) as [|f fs IH];
    intros st Hst; simpl; [done|]. by apply IH, function_step_inv.
Qed.

(** ** What the loop computes *)

(** The ids of the [Function] targets among the internal calls. *)
Definition callee_ids (cs : list InternalCall) : list Z :=
  omap (λ ic, match ic with ICFunction cid _ => Some cid | ICSolidityFunction _ => None end) cs.

(** Every id the loop meets: each function, then its [Function] callees. *)
Definition seen_ids (fs : list Function.t) : list Z :=
  flat_map (λ f, Function.id f :: callee_ids (Function.internal_calls f)) fs.

(** An internal call of [f] to [cid], as node ids under the map [m]. *)
Definition call_edge (m : gmap Z nat) (fs : list Function.t) (u v : nat) : Prop :=
  ∃ f cid, f ∈ fs ∧ cid ∈ callee_ids (Function.internal_calls f) ∧
           m !! Function.id f = Some u ∧ m !! cid = Some v.

Lemma call_step_f2g st from ic :
  f2g (call_step from st ic) =
  match ic with ICFunction cid cname => f2g (register cid cname st) | _ => f2g st end.
Proof. destruct ic as [cid cname|]; simpl; [|done]. by destruct (duplicate _ !! _). Qed.

Lemma calls_f2g_mono st from cs j k :
  f2g st !! j = Some k → f2g (foldl (call_step from) st cs) !! j = Some k.
Proof.
  revert st. induction cs as [|c cs IH]; intros st Hj; simpl; [done|].
  apply IH. rewrite call_step_f2g. destruct c; [by apply register_f2g_mono|done].
Qed.

Lemma function_step_f2g_mono st f j k :
  f2g st !! j = Some k → f2g (function_step st f) !! j = Some k.
Proof. intros Hj. apply calls_f2g_mono, register_f2g_mono, Hj. Qed.

Lemma loop_f2g_mono st fs j k :
  f2g st !! j = Some k → f2g (foldl function_step st fs) !! j = Some k.
Proof.
  revert st. induction fs as [|f fs IH]; intros st Hj; simpl; [done|].
  by apply IH, function_step_f2g_mono.
Qed.

Lemma register_dom st i lbl j :
  is_Some (f2g (register i lbl st) !! j) ↔ j = i ∨ is_Some (f2g st !! j).
Proof.
  unfold register. destruct (f2g st !! i) eqn:Ei; simpl.
  - split; [by right|]. intros [->|?]; [by rewrite Ei|done].
  - rewrite lookup_insert. case_decide; subst; [naive_solver|]. naive_solver.
Qed.

Lemma calls_dom st from cs j :
  is_Some (f2g (foldl (call_step from) st cs) !! j) ↔
  j ∈ callee_ids cs ∨ is_Some (f2g st !! j).
Proof.
  revert st. induction cs as [|c cs IH]; intros st; simpl.
  - split; [by right|]. intros [Hj|?]; [by apply not_elem_of_nil in Hj|done].
  - rewrite IH, call_step_f2g. destruct c as [cid cname|]; simpl.
    + rewrite register_dom, elem_of_cons. naive_solver.
    + done.
Qed.

Lemma loop_dom st fs j :
  is_Some (f2g (foldl function_step st fs) !! j) ↔ j ∈ seen_ids fs ∨ is_Some (f2g st !! j).
Proof.
  revert st. induction fs as [|f fs IH]; intros st; simpl.
  - split; [by right|]. intros [Hj|?]; [by apply not_elem_of_nil in Hj|done].
  - unfold seen_ids; cbn [flat_map]; fold (seen_ids fs).
    rewrite IH. unfold function_step. rewrite calls_dom, register_dom.
    rewrite elem_of_cons, elem_of_app. naive_solver.
Qed.

(** A lookup that is already defined does not change in an extension. *)
Lemma extends_lookup_iff (m m' : gmap Z nat) j v :
  (∀ i k, m !! i = Some k → m' !! i = Some k) → is_Some (m !! j) →
  m !! j = Some v ↔ m' !! j = Some v.
Proof.
  intros Hext [k Hk]. rewrite Hk. split; [intros [= <-]; by apply Hext|].
  rewrite (Hext _ _ Hk). done.
Qed.

Lemma call_step_edges st from ic u v :
  cg_inv st →
  (u, v) ∈ edges (call_step from st ic) ↔
  (u, v) ∈ edges st ∨
  (∃ cid cname, ic = ICFunction cid cname ∧ u = from ∧ f2g (call_step from st ic) !! cid = Some v).
Proof.
  intros Hinv. destruct ic as [cid cname|]; simpl; [|naive_solver].
  destruct (register_target st cid cname Hinv) as [Hto _].
  destruct (register_edges st cid cname) as [He Hdup].
  pose proof (inv_dup _ (register_inv st cid cname Hinv)) as Hd.
  set (st' := register cid cname st) in *.
  destruct (duplicate st' !! edge_key from (f2g st' !!! cid)) eqn:Ed; simpl.
  - assert ((from, f2g st' !!! cid) ∈ edges st) as Hin by (rewrite <-He, Hd, Ed; by eexists).
    rewrite He. split; [by left|].
    intros [H|(cid' & cname' & [= <- <-] & -> & Hv)]; [done|]. by simplify_eq.
  - rewrite elem_of_app, list_elem_of_singleton, He. split.
    + intros [H|[= -> ->]]; [by left|right; eauto].
    + intros [H|(cid' & cname' & [= <- <-] & -> & Hv)]; [by left|right]. by simplify_eq.
Qed.

Lemma calls_edges st from cs u v :
  cg_inv st → from < node_id st →
  (u, v) ∈ edges (foldl (call_step from) st cs) ↔
  (u, v) ∈ edges st ∨
  (u = from ∧ ∃ cid, cid ∈ callee_ids cs ∧ f2g (foldl (call_step from) st cs) !! cid = Some v).
Proof.
  revert st. induction cs as [|c cs IH]; intros st Hinv Hfrom; simpl.
  - split; [by left|]. intros [H|(_ & cid & Hc & _)]; [done|by apply not_elem_of_nil in Hc].
  - pose proof (call_step_node_id_mono st from c) as Hmono.
    rewrite IH by (by apply call_step_inv || lia). rewrite call_step_edges by done.
    assert (∀ cid cname, c = ICFunction cid cname →
      ∀ w, f2g (call_step from st c) !! cid = Some w ↔
           f2g (foldl (call_step from) (call_step from st c) cs) !! cid = Some w) as Hstab.
    { intros cid cname -> w. apply extends_lookup_iff; [intros i k; apply calls_f2g_mono|].
      rewrite call_step_f2g. apply register_f2g_in. }
    destruct c as [cid cname|]; simpl.
    + setoid_rewrite elem_of_cons. split.
      * intros [[H|(? & ? & [= <- <-] & -> & Hv)]|(-> & c' & Hc' & Hv)]; [by left| |].
        -- right. split; [done|]. exists cid. split; [by left|]. by apply (Hstab cid cname).
        -- right. split; [done|]. exists c'. by split; [right|].
      * intros [H|(-> & c' & [->|Hc'] & Hv)]; [by left; left| |].
        -- left. right. exists cid, cname. split; [done|]. split; [done|]. by apply (Hstab cid cname).
        -- right. split; [done|]. by exists c'.
    + split; [intros [[H|(? & ? & ? & _)]|H]; [by left|done|by right]|].
      intros [H|H]; [by left; left|by right].
Qed.

Lemma function_step_dom st f j :
  is_Some (f2g (function_step st f) !! j) ↔
  j = Function.id f ∨ j ∈ callee_ids (Function.internal_calls f) ∨ is_Some (f2g st !! j).
Proof. unfold function_step. rewrite calls_dom, register_dom. naive_solver. Qed.

Lemma function_step_edges st f u v :
  cg_inv st →
  (u, v) ∈ edges (function_step st f) ↔
  (u, v) ∈ edges st ∨
  (∃ cid, cid ∈ callee_ids (Function.internal_calls f) ∧
     f2g (function_step st f) !! Function.id f = Some u ∧ f2g (function_step st f) !! cid = Some v).
Proof.
  intros Hinv. unfold function_step.
  destruct (register_target st (Function.id f) (Function.name f) Hinv) as [Hfrom Hlt].
  rewrite calls_edges by (by apply register_inv || done).
  rewrite (proj1 (register_edges _ _ _)).
  set (st1 := register (Function.id f) (Function.name f) st) in *.
  set (fin := foldl _ st1 _).
  assert (∀ w, f2g st1 !! Function.id f = Some w ↔ f2g fin !! Function.id f = Some w) as Hst.
  { intros w. apply extends_lookup_iff; [intros i k; apply calls_f2g_mono|by eexists]. }
  setoid_rewrite <-Hst. rewrite Hfrom. naive_solver.
Qed.

Lemma loop_edges st fs u v :
  cg_inv st →
  (u, v) ∈ edges (foldl function_step st fs) ↔
  (u, v) ∈ edges st ∨ call_edge (f2g (foldl function_step st fs)) fs u v.
Proof.
  revert st. induction fs as [|f fs IH]; intros st Hinv; simpl.
  - split; [by left|]. intros [H|(g & _ & Hg & _)]; [done|by apply not_elem_of_nil in Hg].
  - rewrite IH, function_step_edges by (by apply function_step_inv || done).
    set (fin := foldl function_step (function_step st f) fs).
    assert (∀ j w, is_Some (f2g (function_step st f) !! j) →
              f2g (function_step st f) !! j = Some w ↔ f2g fin !! j = Some w) as Hst.
    { intros j w Hj. apply extends_lookup_iff; [intros i k; apply loop_f2g_mono|done]. }
    unfold call_edge. setoid_rewrite elem_of_cons. split.
    + intros [[H|(cid & Hc & Hu & Hv)]|H]; [by left| |naive_solver].
      right. exists f, cid. rewrite <-!Hst; [naive_solver| |];
        apply function_step_dom; naive_solver.
    + intros [H|(g & cid & [->|Hg] & Hc & Hu & Hv)]; [by left; left| |naive_solver].
      left. right. exists cid. rewrite !Hst; [naive_solver| |];
        apply function_step_dom; naive_solver.
Qed.

(** [add_edges_from] at the end of the loop adds exactly the collected
    edges and no node. *)
Lemma final_graph st :
  cg_inv st →
  DiGraph.add_edges_from (edges st) (graph st) =
  DiGraph.mk (DiGraph.graph_name (graph st)) (DiGraph.nodes (graph st)) (edges st).
Proof.
  intros Hinv. rewrite DiGraph.add_edges_from_present.
  - rewrite (inv_no_graph_edges _ Hinv). simpl.
    by rewrite foldl_append_new_nodup by (apply (inv_nodup _ Hinv)).
  - intros u v Huv. rewrite (inv_nodes _ Hinv), !elem_of_seq.
    destruct (inv_edge_range _ Hinv u v Huv). lia.
Qed.

Lemma construct_call_graph_f2g s :
  funcid_2_graphid (_construct_call_graph s) = f2g (cg_loop s).
Proof. done. Qed.

Lemma construct_call_graph_graph s :
  funcid_2_graphid s = ∅ →
  call_graph (_construct_call_graph s) =
  Some (DiGraph.mk (DiGraph.graph_name (graph (cg_loop s)))
          (DiGraph.nodes (graph (cg_loop s))) (edges (cg_loop s))).
Proof. intros H. simpl. by rewrite final_graph by (by apply cg_loop_inv). Qed.

(** C25: on a fresh object, the id map has exactly the ids of the functions
    and of their [Function] callees as keys, and maps distinct ids to
    distinct nodes. *)
Theorem construct_call_graph_ids s :
  funcid_2_graphid s = ∅ →
  (∀ i, is_Some (funcid_2_graphid (_construct_call_graph s) !! i) ↔
        i ∈ seen_ids (Contract.functions (contract s))) ∧
  (∀ i j k, funcid_2_graphid (_construct_call_graph s) !! i = Some k →
            funcid_2_graphid (_construct_call_graph s) !! j = Some k → i = j).
Proof.
  intros H. rewrite construct_call_graph_f2g. split.
  - intros i. unfold cg_loop. rewrite loop_dom. simpl. rewrite H, lookup_empty.
    split; [intros [?|[? ?]]; done|by left].
  - apply inv_inj, cg_loop_inv, H.
Qed.

(** C3: every function of the contract is exactly one node of the graph,
    carrying its id; nodes are numbered [0 .. n-1] in first-seen order. *)
Theorem construct_call_graph_nodes s :
  funcid_2_graphid s = ∅ →
  ∃ g, call_graph (_construct_call_graph s) = Some g ∧
    (DiGraph.nodes g).*1 = seq 0 (length (DiGraph.nodes g)) ∧
    ∀ f, f ∈ Contract.functions (contract s) →
      ∃ k, (∃ lbl, (k, Some (DiGraph.mkAttr lbl (Function.id f))) ∈ DiGraph.nodes g) ∧
           ∀ k' lbl', (k', Some (DiGraph.mkAttr lbl' (Function.id f))) ∈ DiGraph.nodes g → k' = k.
Proof.
  intros H. pose proof (cg_loop_inv s H) as Hinv.
  eexists; split; [by apply construct_call_graph_graph|]. simpl. split.
  - assert (length (DiGraph.nodes (graph (cg_loop s))) = node_id (cg_loop s)) as ->.
    { by rewrite <-(length_fmap fst), (inv_nodes _ Hinv), length_seq. }
    apply (inv_nodes _ Hinv).
  - intros f Hf. destruct (proj2 (loop_dom (cg_init s) (Contract.functions (contract s)) (Function.id f))) as [k Hk].
    { left. apply elem_of_flat_map. exists f. split; [done|by left]. }
    fold (cg_loop s) in Hk. exists k. split.
    + assert (k ∈ (DiGraph.nodes (graph (cg_loop s))).*1) as Hkn.
      { rewrite (inv_nodes _ Hinv), elem_of_seq. pose proof (inv_range _ Hinv _ _ Hk). lia. }
      apply list_elem_of_fmap in Hkn as ([k0 a] & -> & Hin).
      destruct (inv_attrs _ Hinv _ _ Hin) as (lbl & i & -> & Hi). simpl in *.
      rewrite (inv_inj _ Hinv i (Function.id f) k0 Hi Hk) in Hin. eauto.
    + intros k' lbl' Hin. destruct (inv_attrs _ Hinv _ _ Hin) as (lbl & i & [= <- <-] & Hi).
      congruence.
Qed.

(** C2: on a fresh object, the edges of the graph are duplicate-free and
    are exactly the internal calls to [Function] targets, one edge per
    ordered pair whatever the number of calls. *)
Theorem construct_call_graph_edges s :
  funcid_2_graphid s = ∅ →
  ∃ g, call_graph (_construct_call_graph s) = Some g ∧ NoDup (DiGraph.edges g) ∧
    ∀ u v, (u, v) ∈ DiGraph.edges g ↔
           call_edge (funcid_2_graphid (_construct_call_graph s)) (Contract.functions (contract s)) u v.
Proof.
  intros H. pose proof (cg_loop_inv s H) as Hinv.
  eexists; split; [by apply construct_call_graph_graph|]. cbn [DiGraph.edges]. split.
  - apply (inv_nodup _ Hinv).
  - intros u v. rewrite construct_call_graph_f2g. unfold cg_loop.
    rewrite loop_edges by (by apply cg_init_inv). cbn [edges cg_init].
    split; [intros [Hin|?]; [by apply not_elem_of_nil in Hin|done]|by right].
Qed.

(** A contract without functions yields the empty graph named after
    the contract. *)
Theorem construct_call_graph_no_functions s :
  Contract.functions (contract s) = [] →
  call_graph (_construct_call_graph s) = Some (DiGraph.new (Contract.name (contract s))).
Proof. intros H. unfold _construct_call_graph, cg_loop. by rewrite H. Qed.

(** ** Witnesses on the scenario contract *)

Lemma construct_call_graph_ids_witness :
  funcid_2_graphid (init_state Scenario.contract) = ∅ ∧
  (∀ i, is_Some (funcid_2_graphid (_construct_call_graph (init_state Scenario.contract)) !! i) ↔
        i ∈ seen_ids (Contract.functions (contract (init_state Scenario.contract)))) ∧
  (∀ i j k, funcid_2_graphid (_construct_call_graph (init_state Scenario.contract)) !! i = Some k →
            funcid_2_graphid (_construct_call_graph (init_state Scenario.contract)) !! j = Some k → i = j).
Proof. split; [reflexivity|]. apply construct_call_graph_ids. reflexivity. Defined.

Lemma construct_call_graph_nodes_witness :
  funcid_2_graphid (init_state Scenario.contract) = ∅ ∧
  ∃ g, call_graph (_construct_call_graph (init_state Scenario.contract)) = Some g ∧
    (DiGraph.nodes g).*1 = seq 0 (length (DiGraph.nodes g)) ∧
    ∀ f, f ∈ Contract.functions (contract (init_state Scenario.contract)) →
      ∃ k, (∃ lbl, (k, Some (DiGraph.mkAttr lbl (Function.id f))) ∈ DiGraph.nodes g) ∧
           ∀ k' lbl', (k', Some (DiGraph.mkAttr lbl' (Function.id f))) ∈ DiGraph.nodes g → k' = k.
Proof. split; [reflexivity|]. apply construct_call_graph_nodes. reflexivity. Defined.

Lemma construct_call_graph_edges_witness :
  funcid_2_graphid (init_state Scenario.contract) = ∅ ∧
  ∃ g, call_graph (_construct_call_graph (init_state Scenario.contract)) = Some g ∧
    NoDup (DiGraph.edges g) ∧
    ∀ u v, (u, v) ∈ DiGraph.edges g ↔
           call_edge (funcid_2_graphid (_construct_call_graph (init_state Scenario.contract)))
             (Contract.functions (contract (init_state Scenario.contract))) u v.
Proof. split; [reflexivity|]. apply construct_call_graph_edges. reflexivity. Defined.

Lemma construct_call_graph_no_functions_witness :
  Contract.functions (contract (init_state (Contract.mk "Empty" [] [] []))) = [] ∧
  call_graph (_construct_call_graph (init_state (Contract.mk "Empty" [] [] []))) =
  Some (DiGraph.new "Empty").
Proof. split; [reflexivity|]. apply (construct_call_graph_no_functions (init_state (Contract.mk "Empty" [] [] []))). reflexivity. Defined.

(** The scenario graph: four nodes (the constructor included) and two
    edges, [A -> B] once although [A] calls [B] twice. *)
Example scenario_call_graph :
  option_map DiGraph.edges (call_graph (_construct_call_graph (init_state Scenario.contract)))
    = Some [(1, 2); (2, 3)] ∧
  option_map (λ g, length (DiGraph.nodes g)) (call_graph (_construct_call_graph (init_state Scenario.contract)))
    = Some 4.
Proof. split; vm_compute; reflexivity. Qed.

(** ** Running the loop on a map that already knows every id *)

Lemma register_present st i lbl : is_Some (f2g st !! i) → register i lbl st = st.
Proof. intros [k Hk]. unfold register. by rewrite Hk. Qed.

Lemma calls_known st from cs :
  (∀ i, i ∈ callee_ids cs → is_Some (f2g st !! i)) →
  f2g (foldl (call_step from) st cs) = f2g st ∧ graph (foldl (call_step from) st cs) = graph st.
Proof.
  revert st. induction cs as [|c cs IH]; intros st Hk; simpl; [done|].
  destruct c as [cid cname|]; simpl in *.
  - rewrite register_present by (apply Hk; by left).
    destruct (duplicate st !! _);
      match goal with |- context [foldl _ ?st' cs] => destruct (IH st') as [-> ->] end;
      try done; intros i Hi; apply Hk; by right.
  - by apply IH.
Qed.

(** When every id is already mapped, no node is created. *)
Lemma loop_known st fs :
  (∀ i, i ∈ seen_ids fs → is_Some (f2g st !! i)) →
  graph (foldl function_step st fs) = graph st.
Proof.
  revert st. induction fs as [|f fs IH]; intros st Hk; simpl; [done|].
  unfold seen_ids in Hk; cbn [flat_map] in Hk; fold (seen_ids fs) in Hk.
  unfold function_step. rewrite register_present by (apply Hk; by left).
  destruct (calls_known st (f2g st !!! Function.id f) (Function.internal_calls f)) as [Hf Hg].
  { intros i Hi. apply Hk. rewrite elem_of_app, elem_of_cons. by left; right. }
  rewrite IH, Hg; [done|]. rewrite Hf. intros i Hi. apply Hk.
  rewrite elem_of_app. by right.
Qed.
