(* ===== verification/Analyze.v ===== *)
(** * [contract_info_analyze] and the constructor [ContractInfo(contract)]

    Models lines 9-29 and 123-127 of [contract_analyze.py].  The four
    steps share [self] but write disjoint fields (frame lemmas below), so
    the object built by the constructor is described field by field by an
    abstract specification, [Facts], computed directly from the contract:
    [constructor_refines] is the refinement theorem.  Because the steps
    append to the tables of [self] and reuse [self.funcid_2_graphid],
    calling [contract_info_analyze] a second time is not idempotent. *)

From S2P Require Import Prelude Slither DiGraph ContractInfo SendFunctions CallGraph.

Definition contract_info_analyze (s : ContractInfo) : ContractInfo :=
  _construct_call_graph (_functions_with_transaction_call
    (_stat_vars_info_in_contract (_struct_info s))).

(** [ContractInfo(contract)]: [__init__] sets the fields, then analyses. *)
Definition __init__ (c : Contract.t) : ContractInfo :=
  contract_info_analyze (init_state c).

(** ** Frame lemmas: what each step leaves alone *)

Lemma stat_vars_loop_frame fs s :
  contract (foldl stat_vars_function s fs) = contract s ∧
  structs_info (foldl stat_vars_function s fs) = structs_info s ∧
  send_function_map (foldl stat_vars_function s fs) = send_function_map s ∧
  funcid_2_graphid (foldl stat_vars_function s fs) = funcid_2_graphid s ∧
  call_graph (foldl stat_vars_function s fs) = call_graph s.
Proof.
  repeat split; apply foldl_proj_inv; intros s' f;
    unfold stat_vars_function; by destruct (Function.is_ctor f).
Qed.

Lemma stat_vars_frame s :
  contract (_stat_vars_info_in_contract s) = contract s ∧
  structs_info (_stat_vars_info_in_contract s) = structs_info s ∧
  send_function_map (_stat_vars_info_in_contract s) = send_function_map s ∧
  funcid_2_graphid (_stat_vars_info_in_contract s) = funcid_2_graphid s ∧
  call_graph (_stat_vars_info_in_contract s) = call_graph s.
Proof. unfold _stat_vars_info_in_contract. exact (stat_vars_loop_frame _ (set_declare _ s)). Qed.

(** The remaining steps rebuild the record with one field replaced; these
    equations let [simpl] see through them. *)
Lemma analyze_fields s :
  let s1 := _stat_vars_info_in_contract (_struct_info s) in
  let s2 := _functions_with_transaction_call s1 in
  contract_info_analyze s =
  set_call_graph (f2g (cg_loop s2))
    (DiGraph.add_edges_from (edges (cg_loop s2)) (graph (cg_loop s2))) s2.
Proof. done. Qed.

(** ** The abstract specification of a [ContractInfo] *)

(** What the object holds for a contract, stated without the loops. *)
Record Facts (c : Contract.t) (s : ContractInfo) : Prop := {
  facts_contract : contract s = c;
  facts_structs : ∀ n, structs_info s !! n = last (filter (λ st, Structure.name st = n) (Contract.structures c));
  facts_reads : ∀ x, state_var_read_function_map s !! x =
                  opt_app None (snd <$> filter (λ kv, kv.1 = x) (read_pairs (Contract.functions c)));
  facts_writes : ∀ x, state_var_write_function_map s !! x =
                  opt_app None (snd <$> filter (λ kv, kv.1 = x) (write_pairs (Contract.functions c)));
  facts_declare : ∀ x, state_var_declare_function_map s !! x =
                  match last (snd <$> filter (λ kv, kv.1 = x) (ctor_decls (Contract.functions c))) with
                  | Some d => Some d
                  | None => last (snd <$> filter (λ kv, kv.1 = x) (stub_decls (Contract.state_variables c)))
                  end;
  facts_send : ∀ k, send_function_map s !! k = last (snd <$> filter (λ kv, kv.1 = k) (send_pairs (Contract.functions c)));
  facts_ids : ∀ i, is_Some (funcid_2_graphid s !! i) ↔ i ∈ seen_ids (Contract.functions c);
  facts_edges : ∃ g, call_graph s = Some g ∧ NoDup (DiGraph.edges g) ∧
                  ∀ u v, (u, v) ∈ DiGraph.edges g ↔ call_edge (funcid_2_graphid s) (Contract.functions c) u v }.

Lemma opt_self {A} (o : option A) : match o with Some d => Some d | None => None end = o.
Proof. by destruct o. Qed.

(** The state the call-graph step starts from, on a fresh object. *)
Lemma pre_graph_state c :
  let s2 := _functions_with_transaction_call
              (_stat_vars_info_in_contract (_struct_info (init_state c))) in
  contract s2 = c ∧ funcid_2_graphid s2 = ∅ ∧
  contract (_stat_vars_info_in_contract (_struct_info (init_state c))) = c ∧
  send_function_map (_stat_vars_info_in_contract (_struct_info (init_state c))) = ∅.
Proof.
  destruct (stat_vars_frame (_struct_info (init_state c))) as (Hc & _ & Hs & Hf & _).
  simpl. by rewrite Hc, Hs, Hf.
Qed.

(** The fields of [ContractInfo(c)], one lemma each. *)
Section InitFields.
Context (c : Contract.t).
Let s1 := _stat_vars_info_in_contract (_struct_info (init_state c)).
Let s2 := _functions_with_transaction_call s1.

Lemma init_contract : contract (__init__ c) = c.
  Proof. apply (pre_graph_state c). Qed.

Lemma init_structs n :
    structs_info (__init__ c) !! n = last (filter (λ st, Structure.name st = n) (Contract.structures c)).
  Proof.
    destruct (stat_vars_frame (_struct_info (init_state c))) as (_ & Hst & _ & _ & _).
    unfold __init__. rewrite analyze_fields. cbv zeta. simpl. rewrite Hst, struct_info_spec.
    by rewrite opt_self.
  Qed.

Lemma init_reads x :
    state_var_read_function_map (__init__ c) !! x =
    opt_app None (snd <$> filter (λ kv, kv.1 = x) (read_pairs (Contract.functions c))).
  Proof. unfold __init__. rewrite analyze_fields. simpl. by rewrite stat_vars_read_spec. Qed.

Lemma init_writes x :
    state_var_write_function_map (__init__ c) !! x =
    opt_app None (snd <$> filter (λ kv, kv.1 = x) (write_pairs (Contract.functions c))).
  Proof. unfold __init__. rewrite analyze_fields. simpl. by rewrite stat_vars_write_spec. Qed.

Lemma init_declare x :
    state_var_declare_function_map (__init__ c) !! x =
    match last (snd <$> filter (λ kv, kv.1 = x) (ctor_decls (Contract.functions c))) with
    | Some d => Some d
    | None => last (snd <$> filter (λ kv, kv.1 = x) (stub_decls (Contract.state_variables c)))
    end.
  Proof.
    unfold __init__. rewrite analyze_fields. simpl. rewrite stat_vars_declare_spec. simpl.
    destruct (last _); [done|]. by rewrite opt_self.
  Qed.

Lemma init_send k :
    send_function_map (__init__ c) !! k =
    last (snd <$> filter (λ kv, kv.1 = k) (send_pairs (Contract.functions c))).
  Proof.
    destruct (pre_graph_state c) as (_ & _ & Hc1 & Hs1).
    unfold __init__. rewrite analyze_fields. cbv zeta. cbn [set_call_graph send_function_map].
    rewrite transaction_call_spec, Hs1, Hc1; [|intros ?; by rewrite Hs1]. by rewrite opt_self.
  Qed.

Lemma init_ids i : is_Some (funcid_2_graphid (__init__ c) !! i) ↔ i ∈ seen_ids (Contract.functions c).
  Proof.
    destruct (pre_graph_state c) as (Hc2 & Hf2 & _).
    unfold __init__. rewrite analyze_fields. cbv zeta. cbn [set_call_graph funcid_2_graphid].
    unfold cg_loop. rewrite loop_dom, Hc2. cbn [cg_init f2g]. rewrite Hf2, lookup_empty.
    split; [intros [?|[? ?]]; done|by left].
  Qed.

Lemma init_edges :
    ∃ g, call_graph (__init__ c) = Some g ∧ NoDup (DiGraph.edges g) ∧
      ∀ u v, (u, v) ∈ DiGraph.edges g ↔ call_edge (funcid_2_graphid (__init__ c)) (Contract.functions c) u v.
  Proof.
    destruct (pre_graph_state c) as (Hc2 & Hf2 & _).
    pose proof (cg_loop_inv _ Hf2) as Hinv.
    unfold __init__. rewrite analyze_fields. cbv zeta. cbn [set_call_graph call_graph funcid_2_graphid].
    rewrite final_graph by done. eexists. split; [done|]. cbn [DiGraph.edges]. split; [apply Hinv|].
    intros u v. unfold cg_loop. rewrite loop_edges by (apply cg_init_inv, Hf2).
    cbn [edges cg_init]. rewrite Hc2. split; [intros [Hin|?]; [by apply not_elem_of_nil in Hin|done]|by right].
  Qed.
End InitFields.

(** C1: refinement: the object built by [ContractInfo(contract)] satisfies
    the abstract specification [Facts] of the contract, field by field. *)
Theorem constructor_refines c : Facts c (__init__ c).
Proof.
  split; [apply init_contract|apply init_structs|apply init_reads|apply init_writes
         |apply init_declare|apply init_send|apply init_ids|apply init_edges].
Qed.

(** ** Calling [contract_info_analyze] again on the same object *)

Lemma analyze_tables s :
  contract (contract_info_analyze s) = contract s ∧
  state_var_read_function_map (contract_info_analyze s) =
    state_var_read_function_map (_stat_vars_info_in_contract (_struct_info s)) ∧
  state_var_write_function_map (contract_info_analyze s) =
    state_var_write_function_map (_stat_vars_info_in_contract (_struct_info s)) ∧
  funcid_2_graphid (_functions_with_transaction_call (_stat_vars_info_in_contract (_struct_info s))) =
    funcid_2_graphid s ∧
  contract (_functions_with_transaction_call (_stat_vars_info_in_contract (_struct_info s))) =
    contract s.
Proof.
  destruct (stat_vars_frame (_struct_info s)) as (Hc & _ & _ & Hf & _).
  rewrite analyze_fields. simpl. by rewrite Hc, Hf.
Qed.

Lemma opt_app_None_Some {V} (L l : list V) : opt_app None L = Some l → L = l.
Proof. destruct L; simpl; congruence. Qed.

(** C23: [contract_info_analyze] is not idempotent: run again on the object
    [ContractInfo(c)], it appends every read a second time. *)
Theorem reanalyze_duplicates_reads c x l :
  state_var_read_function_map (__init__ c) !! x = Some l →
  state_var_read_function_map (contract_info_analyze (__init__ c)) !! x = Some (l ++ l).
Proof.
  intros Hl. pose proof (init_reads c x) as Hr. rewrite Hl in Hr.
  apply eq_sym, opt_app_None_Some in Hr.
  destruct (analyze_tables (__init__ c)) as (_ & -> & _ & _).
  rewrite stat_vars_read_spec.
  change (state_var_read_function_map (_struct_info (__init__ c))) with (state_var_read_function_map (__init__ c)).
  change (contract (_struct_info (__init__ c))) with (contract (__init__ c)).
  rewrite Hl, init_contract, Hr. done.
Qed.

(** Run again on [ContractInfo(c)], [contract_info_analyze] appends
    every write a second time. *)
Theorem reanalyze_duplicates_writes c x l :
  state_var_write_function_map (__init__ c) !! x = Some l →
  state_var_write_function_map (contract_info_analyze (__init__ c)) !! x = Some (l ++ l).
Proof.
  intros Hl. pose proof (init_writes c x) as Hr. rewrite Hl in Hr.
  apply eq_sym, opt_app_None_Some in Hr.
  destruct (analyze_tables (__init__ c)) as (_ & _ & -> & _ & _).
  rewrite stat_vars_write_spec.
  change (state_var_write_function_map (_struct_info (__init__ c))) with (state_var_write_function_map (__init__ c)).
  change (contract (_struct_info (__init__ c))) with (contract (__init__ c)).
  rewrite Hl, init_contract, Hr. done.
Qed.

(** C24: run again, the call-graph step finds every id already in
    [self.funcid_2_graphid] and creates no node: every node of the new
    graph is an endpoint of one of its edges, created by
    [add_edges_from] without [label] or [fid].  A function with no call
    in or out is no longer a node. *)
Theorem reanalyze_graph_loses_nodes c g :
  call_graph (contract_info_analyze (__init__ c)) = Some g →
  ∀ k a, (k, a) ∈ DiGraph.nodes g → a = None ∧ ∃ u v, (u, v) ∈ DiGraph.edges g ∧ (k = u ∨ k = v).
Proof.
  intros Hg. destruct (analyze_tables (__init__ c)) as (_ & _ & _ & Hf & Hc).
  rewrite analyze_fields in Hg. unfold set_call_graph in Hg. cbn [call_graph] in Hg.
  injection Hg as <-.
  assert (DiGraph.nodes (graph (cg_loop (_functions_with_transaction_call
            (_stat_vars_info_in_contract (_struct_info (__init__ c)))))) = []) as Hn.
  { unfold cg_loop. rewrite loop_known; [done|].
    intros i Hi. change (f2g (cg_init ?s2)) with (funcid_2_graphid s2). rewrite Hf.
    apply init_ids. by rewrite Hc, init_contract in Hi. }
  intros k a Hk. split.
  - revert k a Hk. apply DiGraph.add_edges_from_no_attrs. rewrite Hn. intros k a Hin. by apply not_elem_of_nil in Hin.
  - revert k a Hk. apply DiGraph.add_edges_from_endpoints. rewrite Hn. intros k a Hin. by apply not_elem_of_nil in Hin.
Qed.

(** ** The scenario of the spec, end to end *)

(** The end-to-end scenario of the spec: one struct; [X] is written by [A] only ([C] writes it but cannot send
    ether); [owner] has no write entry and a constructor declaration;
    [A]'s transfer statement is recorded; the graph has four nodes (the
    constructor is a function of the contract too) and the two edges
    [A -> B] and [B -> C]. *)
Example scenario_end_to_end :
  size (structs_info (__init__ Scenario.contract)) = 1 ∧
  state_var_write_function_map (__init__ Scenario.contract) !! "X" = Some [Scenario.A] ∧
  state_var_write_function_map (__init__ Scenario.contract) !! "owner" = None ∧
  state_var_read_function_map (__init__ Scenario.contract) !! "X" = Some [Scenario.A; Scenario.B] ∧
  state_var_declare_function_map (__init__ Scenario.contract) !! "X" = Some (DeclStub "uint256" "uint256 X") ∧
  state_var_declare_function_map (__init__ Scenario.contract) !! "owner" =
    Some (DeclCtor Scenario.ctor (Some "owner = msg.sender") "address owner = msg.sender") ∧
  option_map si_exp (send_function_map (__init__ Scenario.contract) !! KInt 11) = Some (Some "owner.transfer(X)") ∧
  send_function_map (__init__ Scenario.contract) !! KInt 12 = None ∧
  option_map (λ g, (length (DiGraph.nodes g), DiGraph.edges g)) (call_graph (__init__ Scenario.contract)) =
    Some (4, [(1, 2); (2, 3)]).
Proof. vm_compute. repeat split. Qed.

Lemma reanalyze_duplicates_reads_witness :
  state_var_read_function_map (__init__ Scenario.contract) !! "X" = Some [Scenario.A; Scenario.B] ∧
  state_var_read_function_map (contract_info_analyze (__init__ Scenario.contract)) !! "X" =
    Some ([Scenario.A; Scenario.B] ++ [Scenario.A; Scenario.B]).
Proof.
  assert (state_var_read_function_map (__init__ Scenario.contract) !! "X" = Some [Scenario.A; Scenario.B]) as H
    by (vm_compute; reflexivity).
  split; [exact H|]. apply reanalyze_duplicates_reads. exact H.
Defined.

Lemma reanalyze_duplicates_writes_witness :
  state_var_write_function_map (__init__ Scenario.contract) !! "X" = Some [Scenario.A] ∧
  state_var_write_function_map (contract_info_analyze (__init__ Scenario.contract)) !! "X" =
    Some ([Scenario.A] ++ [Scenario.A]).
Proof.
  assert (state_var_write_function_map (__init__ Scenario.contract) !! "X" = Some [Scenario.A]) as H
    by (vm_compute; reflexivity).
  split; [exact H|]. apply reanalyze_duplicates_writes. exact H.
Defined.

Lemma reanalyze_graph_loses_nodes_witness :
  ∃ g, call_graph (contract_info_analyze (__init__ Scenario.contract)) = Some g ∧
       ∀ k a, (k, a) ∈ DiGraph.nodes g → a = None ∧ ∃ u v, (u, v) ∈ DiGraph.edges g ∧ (k = u ∨ k = v).
Proof.
  eexists. split; [vm_compute; reflexivity|].
  apply (reanalyze_graph_loses_nodes Scenario.contract). vm_compute. reflexivity.
Defined.

(** Run again, the constructor (no call in or out) is no longer a node. *)
Example scenario_reanalyze_graph :
  option_map (λ g, length (DiGraph.nodes g)) (call_graph (contract_info_analyze (__init__ Scenario.contract))) = Some 3.
Proof. vm_compute. reflexivity. Qed.
