(* ===== verification/Debug.v ===== *)
(** * [debug_stat_var_info]: the printed tables (lines 129-153 of [contract_analyze.py])

    The method prints the three state-variable tables of a [ContractInfo]
    object and changes nothing; its model is the list of lines it prints,
    the trace of a writer.  Python dicts iterate in insertion order, which
    the [gmap]s of [ContractInfo] do not record, so the iteration order of
    each table is an argument, constrained by [dict_order] to list every
    key of the table once; the theorems hold for every such order, the
    insertion order included.

    A declaration entry prints its header and then the line of the one
    branch whose key it has: ["exp"] for the [{"type", "exp"}] shape,
    ["fun"] for the [{"fun", "expr", "full_expr"}] shape, so exactly two
    lines ([debug_stat_var_info_lines]). *)

From Stdlib Require Import Ascii.
From S2P Require Import Prelude Slither ContractInfo Analyze.

(** ["\t"] *)
Definition tab : string := String "009"%char EmptyString.

(** [ks] lists the keys of [d] once each: a possible iteration order. *)
Definition dict_order `{Countable K} {V} (d : gmap K V) (ks : list K) : Prop :=
  NoDup ks ∧ ∀ k, k ∈ ks ↔ is_Some (d !! k).

(** The lines printed for one declaration (lines 133-139). *)
Definition decl_lines (var : string) (di : DeclInfo) : list string :=
  (tab +:+ "定义变量" +:+ var) ::
  (match di with DeclStub _ exp => [tab +:+ tab +:+ exp] | DeclCtor _ _ _ => [] end) ++
  (match di with DeclCtor _ _ full_expr => [tab +:+ tab +:+ full_expr] | DeclStub _ _ => [] end).

(** The lines printed for one read or write entry (lines 144-146 and
    151-153): a header, then one line per function of the list. *)
Definition access_lines (header var : string) (fs : list Function.t) : list string :=
  (header +:+ var) :: ((λ f, tab +:+ Function.name f) <$> fs).

(** [debug_stat_var_info()] with the iteration orders [dk], [rk], [wk]
    of the declaration, read and write tables (lines 129-153). *)
Definition debug_stat_var_info (dk rk wk : list string) (s : ContractInfo) : list string :=
  ["===全局变量定义信息："] ++
  flat_map (λ var, from_option (decl_lines var) [] (state_var_declare_function_map s !! var)) dk ++
  ["===全局变量读信息："] ++
  flat_map (λ var, from_option (access_lines "读变量" var) [] (state_var_read_function_map s !! var)) rk ++
  ["===全局变量写信息："] ++
  flat_map (λ var, from_option (access_lines "写变量" var) [] (state_var_write_function_map s !! var)) wk.

(** ** Counting the printed lines *)

Lemma length_flat_map {A B} (h : A → list B) (l : list A) :
  length (flat_map h l) = sum_list_with (λ a, length (h a)) l.
Proof. induction l as [|a l IH]; [done|]. simpl. by rewrite length_app, IH. Qed.

Section Order.
Context `{Countable K} {V : Type}.

(** A valid iteration order is a permutation of the map's keys. *)
Lemma dict_order_perm (d : gmap K V) ks : dict_order d ks → ks ≡ₚ (map_to_list d).*1.
Proof.
  intros [Hnd Hks]. apply NoDup_Permutation; [done|apply NoDup_fst_map_to_list|].
  intros k. rewrite Hks, list_elem_of_fmap. split.
  - intros [v Hv]. exists (k, v). split; [done|]. by apply elem_of_map_to_list.
  - intros ([k' v] & -> & Hin). exists v. by apply elem_of_map_to_list.
Qed.

Lemma dict_order_iff (d : gmap K V) ks : dict_order d ks ↔ NoDup ks ∧ ks ≡ₚ (map_to_list d).*1.
Proof.
  split; [intros Ho; split; [apply Ho|by apply dict_order_perm]|].
  intros [Hnd Hp]. split; [done|]. intros k. rewrite Hp, list_elem_of_fmap. split.
  - intros ([k' v] & -> & Hin). exists v. by apply elem_of_map_to_list.
  - intros [v Hv]. exists (k, v). split; [done|]. by apply elem_of_map_to_list.
Qed.

(** A sum over the keys in any valid order is a sum over the entries. *)
Lemma dict_order_sum (d : gmap K V) ks (g : K → option V → nat) :
  dict_order d ks →
  sum_list_with (λ k, g k (d !! k)) ks = sum_list_with (λ kv, g kv.1 (Some kv.2)) (map_to_list d).
Proof.
  intros Ho. rewrite (dict_order_perm d ks Ho).
  assert (∀ kv, kv ∈ map_to_list d → d !! kv.1 = Some kv.2) as Hin.
  { intros [k v]. apply elem_of_map_to_list. }
  induction (map_to_list d) as [|kv l IH]; [done|]. rewrite fmap_cons. cbn [sum_list_with].
  rewrite (Hin kv) by by left. rewrite IH; [done|]. intros kv' Hkv'. apply Hin. by right.
Qed.
End Order.

Lemma length_decl_lines var di : length (decl_lines var di) = 2.
Proof. by destruct di. Qed.

Lemma sum_list_with_const {A} (n : nat) (l : list A) : sum_list_with (λ _, n) l = n * length l.
Proof. induction l as [|a l IH]; simpl; lia. Qed.

Lemma sum_list_with_ext {A} (f g : A → nat) (l : list A) :
  (∀ a, f a = g a) → sum_list_with f l = sum_list_with g l.
Proof. intros Hfg. induction l as [|a l IH]; simpl; [done|]. by rewrite Hfg, IH. Qed.

Lemma length_access_lines header var fs : length (access_lines header var fs) = S (length fs).
Proof. unfold access_lines. by rewrite length_cons, length_fmap. Qed.

(** C38: whatever order the three dicts iterate in, [debug_stat_var_info]
    prints three headers, exactly two lines per declared variable (its
    name and the one detail its shape has), and for every read or write
    entry one line for the variable and one per function listed. *)
Theorem debug_stat_var_info_lines s dk rk wk :
  dict_order (state_var_declare_function_map s) dk →
  dict_order (state_var_read_function_map s) rk →
  dict_order (state_var_write_function_map s) wk →
  length (debug_stat_var_info dk rk wk s) =
    3 + 2 * size (state_var_declare_function_map s)
      + sum_list_with (λ kl, S (length kl.2)) (map_to_list (state_var_read_function_map s))
      + sum_list_with (λ kl, S (length kl.2)) (map_to_list (state_var_write_function_map s)).
Proof.
  intros Hd Hr Hw. unfold debug_stat_var_info. rewrite !length_app, !length_flat_map.
  rewrite (dict_order_sum _ _ (λ k o, length (from_option (decl_lines k) [] o)) Hd).
  rewrite (dict_order_sum _ _ (λ k o, length (from_option (access_lines "读变量" k) [] o)) Hr).
  rewrite (dict_order_sum _ _ (λ k o, length (from_option (access_lines "写变量" k) [] o)) Hw).
  rewrite (sum_list_with_ext _ (λ _, 2)) by (intros [k di]; apply length_decl_lines).
  rewrite sum_list_with_const, length_map_to_list.
  rewrite !(sum_list_with_ext (λ kv : string * list Function.t, length (from_option _ [] (Some kv.2)))
              (λ kl, S (length kl.2))) by (intros [k fs]; apply length_access_lines).
  simpl. lia.
Qed.

(** ** The scenario of the spec

    Insertion order: [X] and [owner] enter the declaration table in
    declaration order (line 43); [A] reads [X] then [owner]; only [A]
    writes and can send ether. *)
Example scenario_debug :
  debug_stat_var_info ["X"; "owner"] ["X"; "owner"] ["X"] (__init__ Scenario.contract) =
  ["===全局变量定义信息：";
   tab +:+ "定义变量X"; tab +:+ tab +:+ "uint256 X";
   tab +:+ "定义变量owner"; tab +:+ tab +:+ "address owner = msg.sender";
   "===全局变量读信息：";
   "读变量X"; tab +:+ "A"; tab +:+ "B";
   "读变量owner"; tab +:+ "A";
   "===全局变量写信息：";
   "写变量X"; tab +:+ "A"].
Proof. vm_compute. reflexivity. Qed.

(** Decide [dict_order] on concrete tables by computation. *)
Ltac solve_dict_order := apply dict_order_iff, (bool_decide_unpack _); vm_compute; reflexivity.

Lemma debug_stat_var_info_lines_witness :
  length (debug_stat_var_info ["X"; "owner"] ["X"; "owner"] ["X"] (__init__ Scenario.contract)) =
    3 + 2 * size (state_var_declare_function_map (__init__ Scenario.contract))
      + sum_list_with (λ kl, S (length kl.2)) (map_to_list (state_var_read_function_map (__init__ Scenario.contract)))
      + sum_list_with (λ kl, S (length kl.2)) (map_to_list (state_var_write_function_map (__init__ Scenario.contract))).
Proof. apply debug_stat_var_info_lines; solve_dict_order. Defined.
