(* ===== verification/Num.v ===== *)
(** * Scalars of the network: reals extended with NaN

    A tensor entry of [graph_neural_network.py] is a float; the model
    computes with exact reals and keeps NaN, because the classifier tests
    [torch.isnan(torch.mean(self.linear2.weight))] (line 269).  NaN is
    absorbing for every operation, as in IEEE arithmetic; infinities are
    not represented (a tensor division by zero gives NaN, which is what
    the mean of an empty tensor gives in torch).  The Python floats of
    [GAL]'s coefficients are the exception: there [math.exp] and [/]
    raise ([py_exp], [py_truediv]).
    The activations are torch's: [sigmoid], [softplus] with its default
    [beta = 1, threshold = 20] (linear above the threshold), [relu]. *)

From S2P Require Import Prelude.
From Stdlib Require Import Reals Lra.

Local Open Scope R_scope.

Inductive num := Fin (r : R) | NaN.

Definition nlift2 (op : R → R → R) (a b : num) : num :=
  match a, b with Fin x, Fin y => Fin (op x y) | _, _ => NaN end.

Definition nadd := nlift2 Rplus.
Definition nsub := nlift2 Rminus.
Definition nmul := nlift2 Rmult.
Definition nmax := nlift2 Rmax.

(** [a / b]; a zero divisor gives NaN (see the header). *)
Definition ndiv (a b : num) : num :=
  match a, b with
  | Fin x, Fin y => if Req_EM_T y 0 then NaN else Fin (x / y)
  | _, _ => NaN
  end.

(** [sqrt] of a negative number is NaN. *)
Definition nsqrt (a : num) : num :=
  match a with
  | Fin x => if Rlt_dec x 0 then NaN else Fin (sqrt x)
  | NaN => NaN
  end.

Definition nzero : num := Fin 0.

(** Default for total lookups; only used at indices the code has checked. *)
#[global] Instance num_inhabited : Inhabited num := populate nzero.

Definition isnan (a : num) : bool := match a with NaN => true | Fin _ => false end.

(** [torch.sigmoid] *)
Definition sigmoid (a : num) : num :=
  match a with Fin x => Fin (/ (1 + exp (- x))) | NaN => NaN end.

(** [F.softplus] with [beta = 1, threshold = 20]. *)
Definition softplus (a : num) : num :=
  match a with
  | Fin x => Fin (if Rlt_dec 20 x then x else ln (1 + exp x))
  | NaN => NaN
  end.

(** [torch.relu] *)
Definition relu (a : num) : num :=
  match a with Fin x => Fin (Rmax 0 x) | NaN => NaN end.

(** [torch.nn.LeakyReLU()], negative slope [0.01]. *)
Definition leaky_relu (a : num) : num :=
  match a with Fin x => Fin (if Rlt_dec 0 x then x else x / 100) | NaN => NaN end.

(** [torch.exp] of a tensor entry (in [log_softmax]); its float32
    overflow to [inf] is not represented.  [math.exp] on a Python float
    is [py_exp] below. *)
Definition nexp (a : num) : num :=
  match a with Fin x => Fin (exp x) | NaN => NaN end.

(** ** Algebra of [nadd] *)

Lemma nadd_comm a b : nadd a b = nadd b a.
Proof. destruct a, b; unfold nadd, nlift2; try reflexivity. f_equal. lra. Qed.

Lemma nadd_assoc a b c : nadd a (nadd b c) = nadd (nadd a b) c.
Proof. destruct a, b, c; unfold nadd, nlift2; try reflexivity. f_equal. lra. Qed.

Lemma nadd_0_l a : nadd nzero a = a.
Proof. destruct a; unfold nadd, nlift2, nzero; try reflexivity. f_equal. lra. Qed.

Lemma nadd_0_r a : nadd a nzero = a.
Proof. by rewrite nadd_comm, nadd_0_l. Qed.

Lemma nadd_NaN_r a : nadd a NaN = NaN.
Proof. by destruct a. Qed.

(** [a] is a number (not NaN) satisfying [P]. *)
Definition fin_with (P : R → Prop) (a : num) : Prop := ∃ r, a = Fin r ∧ P r.

Definition finite (a : num) : Prop := fin_with (λ _, True) a.

Lemma nadd_fin_with (P Q S : R → Prop) a b :
  fin_with P a → fin_with Q b → (∀ x y, P x → Q y → S (x + y)) → fin_with S (nadd a b).
Proof. intros (x & -> & Hx) (y & -> & Hy) H. eexists. split; [reflexivity|]. auto. Qed.

Lemma nmul_fin_with (P Q S : R → Prop) a b :
  fin_with P a → fin_with Q b → (∀ x y, P x → Q y → S (x * y)) → fin_with S (nmul a b).
Proof. intros (x & -> & Hx) (y & -> & Hy) H. eexists. split; [reflexivity|]. auto. Qed.

(** ** Bounds of the activations *)

Lemma sigmoid_bounds x : ∃ y, sigmoid (Fin x) = Fin y ∧ 0 < y < 1.
Proof.
  eexists. split; [reflexivity|]. pose proof (exp_pos (- x)).
  split; [apply Rinv_0_lt_compat; lra|].
  rewrite <-Rinv_1. apply Rinv_lt_contravar; lra.
Qed.

Lemma softplus_pos x : ∃ y, softplus (Fin x) = Fin y ∧ 0 < y.
Proof.
  eexists. split; [reflexivity|]. destruct (Rlt_dec 20 x); [lra|].
  rewrite <-ln_1. pose proof (exp_pos x). apply ln_increasing; lra.
Qed.

Lemma relu_nonneg x : ∃ y, relu (Fin x) = Fin y ∧ 0 <= y.
Proof. eexists. split; [reflexivity|]. apply Rmax_l. Qed.

Lemma sigmoid_finite a : finite a → fin_with (λ y, 0 < y < 1) (sigmoid a).
Proof. intros (x & -> & _). destruct (sigmoid_bounds x) as (y & -> & Hy). by exists y. Qed.

Lemma softplus_finite a : finite a → fin_with (λ y, 0 < y) (softplus a).
Proof. intros (x & -> & _). destruct (softplus_pos x) as (y & -> & Hy). by exists y. Qed.

Lemma isnan_spec a : isnan a = true ↔ a = NaN.
Proof. by destruct a. Qed.

Lemma nmul_1_l a : finite a → nmul (Fin 1) a = a.
Proof. intros (x & -> & _). unfold nmul, nlift2. by rewrite Rmult_1_l. Qed.

Lemma leaky_relu_zero : leaky_relu nzero = nzero.
Proof. unfold leaky_relu, nzero. destruct (Rlt_dec 0 0); f_equal; lra. Qed.

Lemma nadd_NaN_l a : nadd NaN a = NaN.
Proof. reflexivity. Qed.

Lemma nmul_NaN_r a : nmul a NaN = NaN.
Proof. by destruct a. Qed.

Lemma ndiv_NaN_r a : ndiv a NaN = NaN.
Proof. by destruct a. Qed.

(** The mean of a nonempty vector of numbers is a number. *)
Lemma ndiv_fin x n : (0 < n)%nat → ndiv (Fin x) (Fin (INR n)) = Fin (x / INR n).
Proof.
  intros Hn. unfold ndiv. destruct (Req_EM_T (INR n) 0) as [E|_]; [|done].
  apply lt_0_INR in Hn. lra.
Qed.

Lemma ratio_bounds (c n : nat) : (c ≤ n)%nat → (0 < n)%nat → 0 <= INR c / INR n <= 1.
Proof.
  intros Hc Hn. apply le_INR in Hc. apply lt_0_INR in Hn. pose proof (pos_INR c).
  split; unfold Rdiv.
  - apply Rmult_le_pos; [lra|]. left. by apply Rinv_0_lt_compat.
  - apply (Rmult_le_reg_r (INR n)); [lra|]. rewrite Rmult_assoc, Rinv_l by lra. lra.
Qed.

(** ** Python floats: [math.exp] and [/]

    The coefficients of [GAL] are Python floats (doubles): [math.exp(x)]
    raises [OverflowError] when its result rounds to infinity, that is
    from [(2 - 2^-53) * 2^1023] on (halfway between the largest double
    and [2^1024]), and returns [0.0] when it rounds to zero, up to
    [2^-1075] (half the smallest subnormal); [a / b] raises
    [ZeroDivisionError] when [b] is zero, whatever [a] is, NaN included.
    Between the two thresholds the exact value stands for the rounded
    one, as everywhere in this development. *)
Definition float_overflow : R := (2 - / 2 ^ 53) * 2 ^ 1023.
Definition float_underflow : R := / 2 ^ 1075.

(** [math.exp(a)] *)
Definition py_exp (a : num) : res num :=
  match a with
  | NaN => inr NaN
  | Fin x =>
      if Rle_dec float_overflow (exp x) then raise OverflowError
      else if Rle_dec (exp x) float_underflow then inr (Fin 0)
      else inr (Fin (exp x))
  end.

(** [a / b] on Python floats *)
Definition py_truediv (a b : num) : res num :=
  match b with
  | NaN => inr NaN
  | Fin y =>
      if Req_EM_T y 0 then raise ZeroDivisionError
      else inr (match a with Fin x => Fin (x / y) | NaN => NaN end)
  end.

Lemma float_overflow_gt_1 : 1 < float_overflow.
Proof.
  unfold float_overflow.
  assert (1 < 2 ^ 1023) by (apply Rlt_pow_R1; [lra|lia]).
  assert (1 <= 2 ^ 53) by (left; apply Rlt_pow_R1; [lra|lia]).
  assert (0 < / 2 ^ 53 <= 1) as [? ?].
  { split; [apply Rinv_0_lt_compat; lra|]. rewrite <-Rinv_1. apply Rinv_le_contravar; lra. }
  nra.
Qed.

Lemma float_overflow_le : float_overflow <= 2 ^ 1024.
Proof.
  unfold float_overflow. change (2 ^ 1024) with (2 * 2 ^ 1023).
  assert (0 < / 2 ^ 53) by (apply Rinv_0_lt_compat, pow_lt; lra).
  assert (0 < 2 ^ 1023) by (apply pow_lt; lra). nra.
Qed.

Lemma float_underflow_lt_1 : float_underflow < 1.
Proof.
  unfold float_underflow. rewrite <-Rinv_1. apply Rinv_lt_contravar; [|apply Rlt_pow_R1; [lra|lia]].
  rewrite Rmult_1_l. apply pow_lt. lra.
Qed.

Lemma py_exp_0 : py_exp nzero = inr (Fin 1).
Proof.
  pose proof float_overflow_gt_1. pose proof float_underflow_lt_1.
  unfold py_exp, nzero. rewrite exp_0.
  destruct (Rle_dec float_overflow 1); [lra|]. destruct (Rle_dec 1 float_underflow); [lra|]. done.
Qed.

Lemma py_truediv_1 : py_truediv (Fin 1) (Fin 1) = inr (Fin 1).
Proof. unfold py_truediv. destruct (Req_EM_T 1 0); [lra|]. f_equal. f_equal. field. Qed.

(** What can go wrong in [math.exp(a) / math.exp(b)]: [math.exp]
    raises only [OverflowError], on a number whose [exp] overflows;
    [math.exp] returns [0.0] only below the underflow threshold; [/]
    raises only [ZeroDivisionError], on a zero divisor. *)
Lemma py_exp_inl_inv a e : py_exp a = inl e → e = OverflowError ∧ ∃ r, a = Fin r ∧ float_overflow <= exp r.
Proof.
  destruct a as [x|]; [|done]. unfold py_exp.
  destruct (Rle_dec _ _); [intros [= <-]; eauto|]. by destruct (Rle_dec _ _).
Qed.

Lemma py_exp_zero_inv a : py_exp a = inr (Fin 0) → ∃ r, a = Fin r ∧ exp r <= float_underflow.
Proof.
  destruct a as [x|]; [|done]. unfold py_exp.
  destruct (Rle_dec _ _); [done|]. destruct (Rle_dec _ _); [eauto|].
  intros [= E]. pose proof (exp_pos x). lra.
Qed.

Lemma py_truediv_inl_inv a b e : py_truediv a b = inl e → e = ZeroDivisionError ∧ b = Fin 0.
Proof.
  destruct b as [y|]; [|done]. unfold py_truediv.
  destruct (Req_EM_T y 0) as [->|]; [by intros [= <-]|done].
Qed.

Lemma py_exp_overflow x : float_overflow <= exp x → py_exp (Fin x) = inl OverflowError.
Proof. intros Hx. unfold py_exp. by destruct (Rle_dec _ _). Qed.

Lemma py_exp_underflow x : exp x <= float_underflow → py_exp (Fin x) = inr (Fin 0).
Proof.
  intros Hx. pose proof float_overflow_gt_1. pose proof float_underflow_lt_1.
  unfold py_exp. destruct (Rle_dec _ _); [lra|]. by destruct (Rle_dec _ _).
Qed.

Lemma py_truediv_zero a : py_truediv a (Fin 0) = inl ZeroDivisionError.
Proof. unfold py_truediv. by destruct (Req_EM_T 0 0). Qed.

(** [exp (n * x) = (exp x) ^ n] *)
Lemma exp_mult_INR n x : exp (INR n * x) = exp x ^ n.
Proof.
  induction n as [|n IH]; [by rewrite Rmult_0_l, exp_0|].
  rewrite S_INR, Rmult_plus_distr_r, Rmult_1_l, exp_plus, IH. simpl. lra.
Qed.

(** [exp 1000 > (3/2)^2000 >= 2^1075]. *)
Lemma exp_1000_ge : 2 ^ 1075 <= exp 1000.
Proof.
  replace 1000 with (INR 2000 * / 2) by (rewrite INR_IZR_INZ; change (Z.of_nat 2000) with 2000%Z; lra).
  rewrite exp_mult_INR.
  assert (3 / 2 < exp (/ 2)) by (pose proof (exp_ineq1 (/ 2)); lra).
  eapply Rle_trans; [|apply pow_incr; split; [|left; exact H]; lra].
  replace (3 / 2) with (3 * / 2) by lra. rewrite Rpow_mult_distr, pow_inv.
  apply (Rmult_le_reg_r (2 ^ 2000)); [apply pow_lt; lra|].
  rewrite Rmult_assoc, Rinv_l by (apply pow_nonzero; lra). rewrite Rmult_1_r, <-pow_add.
  rewrite !pow_IZR. apply IZR_le. vm_compute. discriminate.
Qed.

(** [math.exp(1000)] overflows. *)
Lemma exp_1000_overflows : float_overflow <= exp 1000.
Proof.
  eapply Rle_trans; [apply float_overflow_le|]. eapply Rle_trans; [|apply exp_1000_ge].
  apply Rle_pow; [lra|lia].
Qed.

(** [math.exp(-1000)] underflows to [0.0]. *)
Lemma exp_minus_1000_underflows : exp (-1000) <= float_underflow.
Proof.
  assert (exp (-1000) = / exp 1000) as -> by (rewrite <-exp_Ropp; f_equal; lra).
  unfold float_underflow.
  apply Rinv_le_contravar; [apply pow_lt; lra|apply exp_1000_ge].
Qed.
