(* ===== verification/Tensor.v ===== *)
(** * Tensors, [Linear], and PyG's message passing

    Vectors are lists of [num], matrices lists of rows.  [Linear] is
    [torch.nn.Linear] ([y = x W^T + b]); on a matrix ([linear_rows]) a
    row of another width than [in_features] raises [RuntimeError].
    [iadd] is the in-place [out += x] with torch's broadcasting: rows of
    the same width, or a one-column [x], else [RuntimeError].  [cat] is
    list concatenation.
    The class [MessagePassing] is the interface of
    [torch_geometric.nn.conv.MessagePassing] the two layers of the file
    implement: a [message] function of the target features [x_i], the
    source features [x_j] and the optional edge attributes, with the
    check of the widths [message] accepts.  [propagate]
    with [aggr='add'] computes every message along [edge_index] (row 0 the
    sources [j], row 1 the targets [i]) and scatter-adds it into row [i]
    of a zero matrix; an edge index out of range, or an attribute matrix
    with a row count different from the edge count, or widths [message]
    does not accept, is an error (torch raises): [propagate] returns
    [res mat], [IndexError] or [RuntimeError].  The scatter is modelled as the sequential loop the
    reduction stands for; [propagate_row] shows it sums, per target, the
    messages of the edges into it.

    The file also holds the torch modules the classifier calls:
    [BatchNorm1d] ([bn_forward]: batch statistics and a momentum update of
    the running statistics in training mode, [ValueError] on a batch of
    one row; running statistics in evaluation mode; [RuntimeError] on
    rows of another width than its number of features), [global_max_pool]
    (one row per graph of [batch]), [F.dropout], and the typeclass
    [RandomSource] that stands for torch's global generator: it draws the
    initial weights of a [Linear] and the dropout masks, and its laws are
    the shapes torch guarantees.  [zero_source] is an instance. *)

From Stdlib Require Import Reals Lra.
From S2P Require Import Prelude Num.

Notation vec := (list num).
Notation mat := (list vec).

Definition vadd (u v : vec) : vec := zip_with nadd u v.
Definition vmul (u v : vec) : vec := zip_with nmul u v.
Definition dot (w x : vec) : num := foldl nadd nzero (zip_with nmul w x).
Definition madd (a b : mat) : mat := zip_with vadd a b.
Definition zeros_vec (c : nat) : vec := replicate c nzero.
Definition zeros (n c : nat) : mat := replicate n (zeros_vec c).

(** [torch.nn.Linear]: its [in_features], [weight] (one row per output)
    and [bias]. *)
Record Linear := mkLinear { in_features : nat; weight : mat; bias : option vec }.

Definition linear (L : Linear) (x : vec) : vec :=
  let y := (λ w, dot w x) <$> weight L in
  match bias L with Some b => vadd y b | None => y end.

(** [L(x)] on a matrix: torch checks the last dimension of [x] against
    [in_features] and raises [RuntimeError] ("mat1 and mat2 shapes cannot
    be multiplied").  A matrix is a list of rows, which does not record
    the width of a matrix without rows: the check passes on it. *)
Definition linear_rows (L : Linear) (x : mat) : res mat :=
  if bool_decide (Forall (λ r, length r = in_features L) x) then inr (linear L <$> x)
  else raise RuntimeError.

(** [out += x] in place, row by row (the two have as many rows where the
    code uses it): a row of [x] as wide as the row of [out] is added, a
    row of width 1 is broadcast over it, and any other width raises
    [RuntimeError], since an in-place operation keeps the shape of
    [out]. *)
Definition iadd_row (o r : vec) : res vec :=
  if decide (length r = length o) then inr (vadd o r)
  else if decide (length r = 1) then inr (vadd o (replicate (length o) (r !!! 0)))
  else raise RuntimeError.

Definition iadd (out x : mat) : res mat := mapM (λ p, iadd_row p.1 p.2) (zip out x).

(** ** Lemmas on vectors *)

Lemma vadd_comm u v : vadd u v = vadd v u.
Proof.
  unfold vadd. revert v. induction u as [|a u IH]; intros [|b v]; cbn [zip_with]; [done..|].
  by rewrite nadd_comm, IH.
Qed.

Lemma vadd_assoc u v w : vadd u (vadd v w) = vadd (vadd u v) w.
Proof.
  unfold vadd. revert v w. induction u as [|a u IH]; intros [|b v] [|c w]; cbn [zip_with]; [done..|].
  by rewrite nadd_assoc, IH.
Qed.

Lemma vadd_zeros_l c u : length u = c → vadd (zeros_vec c) u = u.
Proof.
  intros <-. unfold vadd, zeros_vec. induction u as [|a u IH]; [done|].
  cbn [length replicate zip_with]. by rewrite nadd_0_l, IH.
Qed.

Lemma vadd_zeros_r c u : length u = c → vadd u (zeros_vec c) = u.
Proof. intros H. rewrite vadd_comm. by apply vadd_zeros_l. Qed.

Lemma length_vadd u v : length (vadd u v) = min (length u) (length v).
Proof. apply length_zip_with. Qed.

(** Adding a list of vectors to an accumulator, in any order. *)
Lemma foldl_vadd_perm (r : vec) (l l' : list vec) : l ≡ₚ l' → foldl vadd r l = foldl vadd r l'.
Proof.
  apply foldl_perm. intros c a b. by rewrite <-!vadd_assoc, (vadd_comm a b).
Qed.

(** ** Scatter-add: [out[i] += m] for every pair [(i, m)] *)

Definition scatter_add (out : mat) (ims : list (nat * vec)) : mat :=
  foldl (λ out im, alter (λ row, vadd row im.2) im.1 out) out ims.

Lemma length_scatter_add out ims : length (scatter_add out ims) = length out.
Proof.
  unfold scatter_add. revert out. induction ims as [|im ims IH]; intros out; simpl; [done|].
  by rewrite IH, length_alter.
Qed.

Lemma lookup_scatter_add out ims i :
  scatter_add out ims !! i = (λ row, foldl vadd row (snd <$> filter (λ im, im.1 = i) ims)) <$> out !! i.
Proof.
  unfold scatter_add. revert out. induction ims as [|[k m] ims IH]; intros out; simpl.
  - by destruct (out !! i).
  - rewrite IH, list_lookup_alter, filter_cons. simpl.
    case_decide as Hk; subst; simpl.
    + by destruct (out !! i).
    + done.
Qed.

(** ** In-place addition *)

Lemma iadd_row_same o r : length r = length o → iadd_row o r = inr (vadd o r).
Proof. intros H. unfold iadd_row. by rewrite decide_True. Qed.

Lemma iadd_madd (out x : mat) :
  Forall2 (λ o r, length r = length o) out x → iadd out x = inr (madd out x).
Proof.
  induction 1 as [|o r out x Hor _ IH]; [done|]. unfold iadd in *. cbn [zip_with mapM].
  cbn [fst snd]. rewrite iadd_row_same by done. rewrite res_bind_inr, IH. done.
Qed.

Lemma Forall2_widths (out x : mat) c :
  length out = length x → Forall (λ r, length r = c) out → Forall (λ r, length r = c) x →
  Forall2 (λ o r, length r = length o) out x.
Proof.
  intros Hl Ho Hx. apply Forall2_same_length_lookup. split; [done|].
  intros i o r Eo Er. by rewrite (Forall_lookup_1 _ _ _ _ Hx Er), (Forall_lookup_1 _ _ _ _ Ho Eo).
Qed.

Lemma lookup_iadd out x y i :
  iadd out x = inr y →
  y !! i = (o ← out !! i; r ← x !! i; match iadd_row o r with inr v => Some v | inl _ => None end).
Proof. intros E. rewrite (mapM_res_lookup _ _ _ i E), lookup_zip_with. by destruct (out !! i), (x !! i). Qed.

Lemma length_iadd out x y : iadd out x = inr y → length y = min (length out) (length x).
Proof. intros E. rewrite (mapM_res_length _ _ _ E). apply length_zip_with. Qed.

(** Coordinate [k] of an added row is coordinate [k] of [out] plus the
    entry of [x] added there. *)
Lemma iadd_row_lookup o r v k c :
  iadd_row o r = inr v → r !! k = Some c → v !! k = (λ t, nadd t c) <$> o !! k.
Proof.
  unfold iadd_row, vadd. destruct (decide (length r = length o)) as [Hl|Hl].
  - intros [= <-] Hk. rewrite lookup_zip_with, Hk. by destruct (o !! k).
  - destruct (decide (length r = 1)) as [H1|]; [|done]. intros [= <-] Hk.
    assert (k = 0) as -> by (apply lookup_lt_Some in Hk; lia).
    rewrite lookup_zip_with. destruct (o !! 0) eqn:Eo; simpl; [|done].
    rewrite lookup_replicate_2 by (apply lookup_lt_Some in Eo; lia).
    by rewrite list_lookup_total_alt, Hk.
Qed.

Lemma length_iadd_row o r v : iadd_row o r = inr v → length v = length o.
Proof.
  unfold iadd_row, vadd. destruct (decide _); [intros [= <-]; rewrite length_zip_with; lia|].
  destruct (decide _); [|done]. intros [= <-]. rewrite length_zip_with, length_replicate. lia.
Qed.

Lemma iadd_width out x y c :
  iadd out x = inr y → Forall (λ r, length r = c) out → Forall (λ r, length r = c) y.
Proof.
  intros E Ho. apply Forall_lookup. intros i v Hv. rewrite (lookup_iadd _ _ _ i E) in Hv.
  destruct (out !! i) as [o|] eqn:Eo; [|done]. destruct (x !! i) as [r|]; [|done]. cbn [mbind option_bind] in Hv.
  destruct (iadd_row o r) as [|v'] eqn:Ev; [done|]. injection Hv as <-.
  rewrite (length_iadd_row _ _ _ Ev). exact (Forall_lookup_1 _ _ _ _ Ho Eo).
Qed.

(** ** The message-passing interface *)

Class MessagePassing (L : Type) := {
  (** the width of every message *)
  mp_channels : L → nat;
  (** [message(x_i, x_j, edge_attr)] *)
  mp_message : L → vec → vec → option vec → vec;
  (** whether [message] accepts the widths of its arguments: [x_i] is
      gathered from the rows of [x], [edge_attr] the attribute rows;
      torch raises [RuntimeError] otherwise, even when there is no edge *)
  mp_accepts : L → mat → option mat → bool;
  (** the check reads the attribute rows in any order *)
  mp_accepts_perm l x ea ea' : ea ≡ₚ ea' → mp_accepts l x (Some ea) = mp_accepts l x (Some ea') }.

Section Propagate.
Context `{MessagePassing L}.

  (** The attribute of each edge, [None] when [edge_attr is None]. *)
Definition edge_attrs (edge_index : list (nat * nat)) (edge_attr : option mat) : list (option vec) :=
    match edge_attr with
    | None => replicate (length edge_index) None
    | Some ea => Some <$> ea
    end.

(** [x.index_select] of both endpoints: an index out of range raises
    [IndexError]. *)
Definition indices_ok (n : nat) (edge_index : list (nat * nat)) : bool :=
  bool_decide (Forall (λ e, e.1 < n ∧ e.2 < n) edge_index).

(** [torch.cat([x_i, edge_attr], dim=-1)] needs one attribute row per
    edge; otherwise it raises [RuntimeError]. *)
Definition attr_rows_ok (edge_index : list (nat * nat)) (edge_attr : option mat) : bool :=
  match edge_attr with None => true | Some ea => Nat.eqb (length ea) (length edge_index) end.

  (** [(i, message(x_i, x_j, attr))] for every edge [(j, i)]. *)
Definition edge_messages (l : L) (x : mat) (edge_index : list (nat * nat)) (edge_attr : option mat)
      : list (nat * vec) :=
    zip_with (λ e a, (e.2, mp_message l (x !!! e.2) (x !!! e.1) a)) edge_index (edge_attrs edge_index edge_attr).

Definition propagate (l : L) (x : mat) (edge_index : list (nat * nat)) (edge_attr : option mat)
      : res mat :=
  if indices_ok (length x) edge_index then
    if attr_rows_ok edge_index edge_attr && mp_accepts l x edge_attr
    then inr (scatter_add (zeros (length x) (mp_channels l)) (edge_messages l x edge_index edge_attr))
    else raise RuntimeError
  else raise IndexError.

(** [propagate] on a pair [(x_src, x_dst)] with [size=None]: [x_j] is
    read from [x_src], [x_i] from [x_dst], the output has one row per row
    of [x_dst], and each endpoint is checked against its own tensor. *)
Definition propagate_pair (l : L) (xs xd : mat) (edge_index : list (nat * nat)) (edge_attr : option mat)
      : res mat :=
  if bool_decide (Forall (λ e, e.1 < length xs ∧ e.2 < length xd) edge_index) then
    if attr_rows_ok edge_index edge_attr && mp_accepts l xd edge_attr
    then inr (scatter_add (zeros (length xd) (mp_channels l))
                (zip_with (λ e a, (e.2, mp_message l (xd !!! e.2) (xs !!! e.1) a))
                   edge_index (edge_attrs edge_index edge_attr)))
    else raise RuntimeError
  else raise IndexError.

(** A single tensor [x] is the pair [(x, x)]. *)
Lemma propagate_pair_diag l x ei ea : propagate_pair l x x ei ea = propagate l x ei ea.
Proof. reflexivity. Qed.

Lemma propagate_inr l x ei ea out :
  propagate l x ei ea = inr out →
  indices_ok (length x) ei = true ∧ attr_rows_ok ei ea = true ∧ mp_accepts l x ea = true ∧
  out = scatter_add (zeros (length x) (mp_channels l)) (edge_messages l x ei ea).
Proof.
  unfold propagate. by destruct (indices_ok _ _), (attr_rows_ok _ _), (mp_accepts _ _ _); intros [= <-].
Qed.

Lemma propagate_length l x ei ea out :
  propagate l x ei ea = inr out → length out = length x.
Proof.
  intros (_ & _ & _ & ->)%propagate_inr.
  rewrite length_scatter_add. unfold zeros. by rewrite length_replicate.
Qed.

Lemma propagate_row l x ei ea out i :
  propagate l x ei ea = inr out → i < length x →
  out !! i = Some (foldl vadd (zeros_vec (mp_channels l))
                     (snd <$> filter (λ im, im.1 = i) (edge_messages l x ei ea))).
Proof.
  intros (_ & _ & _ & ->)%propagate_inr Hi.
  rewrite lookup_scatter_add. unfold zeros. by rewrite lookup_replicate_2.
Qed.
Lemma propagate_no_edges l x :
  mp_accepts l x None = true → propagate l x [] None = inr (zeros (length x) (mp_channels l)).
Proof. intros Hc. unfold propagate, indices_ok. rewrite bool_decide_true by constructor. simpl. by rewrite Hc. Qed.
End Propagate.

(** ** [torch.nn.BatchNorm1d] on an [N x C] input

    Training mode normalises each channel with the batch mean and the
    biased batch variance and updates the running statistics with
    [momentum] (the running variance takes the unbiased estimate);
    torch refuses a batch of one row ("Expected more than 1 value per
    channel when training").  Evaluation mode uses the running
    statistics and changes nothing.  An input without rows is returned
    as is, statistics untouched; rows of a width other than the number
    of features raise [RuntimeError]. *)
Record BatchNorm1d := mkBN {
  bn_weight : vec; bn_bias : vec;
  running_mean : vec; running_var : vec;
  bn_eps : R; bn_momentum : R; bn_training : bool }.

Definition column (x : mat) (c : nat) : vec := (λ row, row !!! c) <$> x.
Definition vsum (v : vec) : num := foldl nadd nzero v.
Definition nat_num (n : nat) : num := Fin (INR n).
Definition mean (v : vec) : num := ndiv (vsum v) (nat_num (length v)).
Definition sq_dev (v : vec) : vec := (λ a, nmul (nsub a (mean v)) (nsub a (mean v))) <$> v.
Definition var_biased (v : vec) : num := ndiv (vsum (sq_dev v)) (nat_num (length v)).
Definition var_unbiased (v : vec) : num := ndiv (vsum (sq_dev v)) (nat_num (length v - 1)).

(** [(a - mu) / sqrt(var + eps) * gamma + beta] *)
Definition bn_affine (eps : R) (mu var gamma beta a : num) : num :=
  nadd (nmul (ndiv (nsub a mu) (nsqrt (nadd var (Fin eps)))) gamma) beta.

(** Normalise every row with per-channel statistics. *)
Definition bn_apply (b : BatchNorm1d) (mus vars : vec) (x : mat) : mat :=
  (λ row, imap (λ c a, bn_affine (bn_eps b) (mus !!! c) (vars !!! c)
                         (bn_weight b !!! c) (bn_bias b !!! c) a) row) <$> x.

Definition ema (m : R) (old new : num) : num := nadd (nmul (Fin (1 - m)%R) old) (nmul (Fin m) new).

Definition bn_forward (b : BatchNorm1d) (x : mat) : res (mat * BatchNorm1d) :=
  let C := length (bn_weight b) in
  if bn_training b && bool_decide (length x = 1) then raise ValueError
  else if bool_decide (x = []) then inr ([], b)
  else if negb (bool_decide (Forall (λ r, length r = C) x)) then raise RuntimeError
  else if bn_training b then
      let mus := (λ c, mean (column x c)) <$> seq 0 C in
      let vars := (λ c, var_biased (column x c)) <$> seq 0 C in
      let uvars := (λ c, var_unbiased (column x c)) <$> seq 0 C in
      inr (bn_apply b mus vars x,
            mkBN (bn_weight b) (bn_bias b)
              (zip_with (ema (bn_momentum b)) (running_mean b) mus)
              (zip_with (ema (bn_momentum b)) (running_var b) uvars)
              (bn_eps b) (bn_momentum b) (bn_training b))
  else inr (bn_apply b (running_mean b) (running_var b) x, b).

(** What [bn_forward] may return: the input normalised by some
    statistics, and the module with new running statistics at most. *)
Lemma bn_forward_inr b x y b' :
  bn_forward b x = inr (y, b') →
  (∃ mus vars, y = bn_apply b mus vars x) ∧
  (b' = b ∨ bn_training b = true ∧ ∃ rm rv,
     b' = mkBN (bn_weight b) (bn_bias b) rm rv (bn_eps b) (bn_momentum b) (bn_training b) ∧
     length rm = min (length (running_mean b)) (length (bn_weight b)) ∧
     length rv = min (length (running_var b)) (length (bn_weight b))).
Proof.
  unfold bn_forward. destruct (bn_training b) eqn:Et; cbn [andb];
    [case_bool_decide; [done|]|]; (case_bool_decide as Hx; [subst x; intros [= <- <-]; split; [by exists [], []|by left]|]);
    (destruct (negb _); [done|]); [|intros [= <- <-]; split; [by do 2 eexists|by left]].
  intros [= <- <-]. split; [by do 2 eexists|right]. split; [done|]. do 2 eexists. split; [reflexivity|].
  by rewrite !length_zip_with, !length_fmap, !length_seq.
Qed.

Lemma length_bn_forward b x y b' : bn_forward b x = inr (y, b') → length y = length x.
Proof. intros [(mus & vars & ->) _]%bn_forward_inr. unfold bn_apply. by rewrite length_fmap. Qed.

Lemma bn_forward_eval_inr b x y b' :
  bn_training b = false → bn_forward b x = inr (y, b') →
  y = bn_apply b (running_mean b) (running_var b) x ∧ b' = b.
Proof.
  intros Ht. unfold bn_forward. rewrite Ht. cbn [andb].
  case_bool_decide; [subst x; by intros [= <- <-]|]. destruct (negb _); [done|]. by intros [= <- <-].
Qed.

Lemma bn_apply_width b mus vars x c :
  Forall (λ r, length r = c) x → Forall (λ r, length r = c) (bn_apply b mus vars x).
Proof.
  intros Hx. apply Forall_fmap. eapply Forall_impl; [exact Hx|]. intros r Hr. simpl. by rewrite length_imap.
Qed.

(** In evaluation mode, on rows of the right width. *)
Lemma bn_forward_eval b x :
  bn_training b = false → Forall (λ r, length r = length (bn_weight b)) x →
  bn_forward b x = inr (bn_apply b (running_mean b) (running_var b) x, b).
Proof.
  intros Ht Hx. unfold bn_forward. rewrite Ht. cbn [andb].
  case_bool_decide as H0; [by subst|]. rewrite bool_decide_true by done. done.
Qed.

(** ** Reordering the edges *)

Section PropagatePerm.
Context `{MessagePassing L}.

Lemma edge_messages_fmap l x ei ea :
    edge_messages l x ei ea =
    (λ p, (p.1.2, mp_message l (x !!! p.1.2) (x !!! p.1.1) p.2)) <$> zip ei (edge_attrs ei ea).
  Proof.
    unfold edge_messages. generalize (edge_attrs ei ea). induction ei as [|e ei IH]; intros [|a as']; simpl; [done..|].
    by rewrite IH.
  Qed.

Lemma propagate_perm_gen l x ei ea ei' ea' :
  zip ei (edge_attrs ei ea) ≡ₚ zip ei' (edge_attrs ei' ea') →
  indices_ok (length x) ei = indices_ok (length x) ei' →
  attr_rows_ok ei ea = attr_rows_ok ei' ea' → mp_accepts l x ea = mp_accepts l x ea' →
  propagate l x ei ea = propagate l x ei' ea'.
Proof.
    intros Hp Hi Ha Hc. unfold propagate. rewrite Hi, Ha, Hc.
    destruct (indices_ok _ ei'), (attr_rows_ok ei' ea'), (mp_accepts l x ea'); [|done..].
    f_equal. apply list_eq. intros i. rewrite !lookup_scatter_add.
    destruct (zeros _ _ !! i); [|done]. simpl. f_equal. apply foldl_vadd_perm.
    rewrite !edge_messages_fmap. by rewrite Hp.
  Qed.
End PropagatePerm.

Section PropagatePermCases.
Context `{MessagePassing L}.

Lemma zip_replicate_None {A B} (l : list A) :
    zip l (replicate (length l) (@None B)) = (λ e, (e, None)) <$> l.
  Proof. induction l as [|e l IH]; [done|]. simpl. by rewrite IH. Qed.

Lemma zip_fmap_Some {A B} (l : list A) (k : list B) :
    zip l (Some <$> k) = (λ p, (p.1, Some p.2)) <$> zip l k.
  Proof. revert k. induction l as [|e l IH]; intros [|a k]; [done..|]. simpl. by rewrite IH. Qed.

Lemma indices_ok_perm n (ei ei' : list (nat * nat)) :
  ei ≡ₚ ei' → indices_ok n ei = indices_ok n ei'.
Proof. intros Hp. apply bool_decide_ext. by rewrite Hp. Qed.

  (** Reordering the columns of [edge_index] does not change the result. *)
Lemma propagate_perm l x ei ei' : ei ≡ₚ ei' → propagate l x ei None = propagate l x ei' None.
  Proof.
    intros Hp. apply propagate_perm_gen.
    - unfold edge_attrs. rewrite !zip_replicate_None. by rewrite Hp.
    - by apply indices_ok_perm.
    - done.
    - done.
  Qed.

  (** Reordering the edges together with the rows of [edge_attr] does not
      change the result. *)
Lemma propagate_perm_attr l x ei ea ei' ea' :
    length ea = length ei → length ea' = length ei' → zip ei ea ≡ₚ zip ei' ea' →
    propagate l x ei (Some ea) = propagate l x ei' (Some ea').
  Proof.
    intros Hl Hl' Hp.
    assert (ei ≡ₚ ei') as Hei.
    { rewrite <-(fst_zip ei ea), <-(fst_zip ei' ea') by lia. by rewrite Hp. }
    apply propagate_perm_gen.
    - unfold edge_attrs. rewrite !zip_fmap_Some. by rewrite Hp.
    - by apply indices_ok_perm.
    - simpl. by rewrite Hl, Hl', (Permutation_length Hei).
    - apply mp_accepts_perm. rewrite <-(snd_zip ei ea), <-(snd_zip ei' ea') by lia. by rewrite Hp.
  Qed.
End PropagatePermCases.

(** ** Finite vectors *)

Notation vfin P v := (Forall (fin_with P) v).

Lemma vadd_fin_with (P Q S : R → Prop) u v :
  vfin P u → vfin Q v → (∀ x y, P x → Q y → S (x + y)%R) → vfin S (vadd u v).
Proof. intros Hu Hv H. apply (Forall_zip_with _ _ _ _ _ _ Hu Hv). eauto using nadd_fin_with. Qed.

Lemma foldl_nadd_finite acc l :
  finite acc → vfin (λ _, True) l → finite (foldl nadd acc l).
Proof.
  intros Ha Hl. revert acc Ha. induction Hl as [|b l Hb Hl IH]; intros acc Ha; simpl; [done|].
  apply IH. by apply (nadd_fin_with (λ _, True) (λ _, True)).
Qed.

Lemma dot_finite w x : vfin (λ _, True) w → vfin (λ _, True) x → finite (dot w x).
Proof.
  intros Hw Hx. apply foldl_nadd_finite; [by exists 0%R|].
  apply (Forall_zip_with _ _ _ _ _ _ Hw Hx). intros a b Ha Hb.
  by apply (nmul_fin_with (λ _, True) (λ _, True)).
Qed.

(** A [Linear] with finite parameters maps finite vectors to finite ones. *)
Definition linear_finite (L : Linear) : Prop :=
  Forall (λ w, vfin (λ _, True) w) (weight L) ∧
  ∀ b, bias L = Some b → vfin (λ _, True) b.

Lemma linear_fin L x : linear_finite L → vfin (λ _, True) x → vfin (λ _, True) (linear L x).
Proof.
  intros [Hw Hb] Hx. unfold linear.
  assert (vfin (λ _, True) ((λ w, dot w x) <$> weight L)) as Hy.
  { apply Forall_fmap. eapply Forall_impl; [exact Hw|]. intros w Hw'. by apply dot_finite. }
  destruct (bias L) as [b|]; [|done].
  apply (vadd_fin_with (λ _, True) (λ _, True)); [done|by apply Hb|done].
Qed.

(** ** Random draws

    torch's global random number generator ([torch.manual_seed(8)] at
    line 9 fixes its initial state) as an interface: [draw_linear g i o b]
    is the initialisation of [Linear(i, o, bias=b)] (uniform weight and
    bias), [draw_mask g n c q] the Bernoulli([q]) keep mask of
    [F.dropout] on an [n x c] input, [draw_uniform g lo hi n c] the
    values [Tensor.uniform_(lo, hi)] writes into an [n x c] matrix.  The
    laws are the shapes torch guarantees and, for [uniform_], the range
    of the values; the values themselves are not specified. *)
Definition linear_shape (L : Linear) (i o : nat) (b : bool) : Prop :=
  in_features L = i ∧ length (weight L) = o ∧ Forall (λ w, length w = i) (weight L) ∧
  match bias L with Some v => b = true ∧ length v = o | None => b = false end.

Class RandomSource (G : Type) := {
  draw_linear : G → nat → nat → bool → Linear * G;
  draw_mask : G → nat → nat → R → list (list bool) * G;
  draw_uniform : G → R → R → nat → nat → mat * G;
  draw_linear_shape g i o b : linear_shape (draw_linear g i o b).1 i o b;
  draw_mask_shape g n c q :
    length (draw_mask g n c q).1 = n ∧ Forall (λ r, length r = c) (draw_mask g n c q).1;
  draw_uniform_shape g lo hi n c :
    length (draw_uniform g lo hi n c).1 = n ∧ Forall (λ r, length r = c) (draw_uniform g lo hi n c).1;
  draw_uniform_range g lo hi n c : (lo <= hi)%R →
    Forall (Forall (fin_with (λ r, lo <= r <= hi)%R)) (draw_uniform g lo hi n c).1 }.

(** A source that draws zeros and keeps everything: the laws can be met. *)
#[global] Program Instance zero_source : RandomSource unit := {
  draw_linear _ i o b := (mkLinear i (replicate o (replicate i nzero))
                            (if b then Some (replicate o nzero) else None), tt);
  draw_mask _ n c _ := (replicate n (replicate c true), tt);
  draw_uniform _ lo _ n c := (replicate n (replicate c (Fin lo)), tt) }.
Next Obligation.
  intros g i o b. split_and!; simpl; [done|by rewrite length_replicate| |].
  - apply Forall_replicate. by rewrite length_replicate.
  - destruct b; [by rewrite length_replicate|done].
Qed.
Next Obligation.
  intros g n c q. simpl. split; [by rewrite length_replicate|].
  apply Forall_replicate. by rewrite length_replicate.
Qed.
Next Obligation.
  intros g lo hi n c. simpl. split; [by rewrite length_replicate|].
  apply Forall_replicate. by rewrite length_replicate.
Qed.
Next Obligation.
  intros g lo hi n c Hle. simpl. do 2 apply Forall_replicate. exists lo. split; [done|lra].
Qed.

(** [BatchNorm1d(C)]: weight ones, bias zeros, running mean zeros,
    running variance ones, [eps = 1e-5], [momentum = 0.1], training. *)
Definition batch_norm_1d (C : nat) : BatchNorm1d :=
  mkBN (replicate C (Fin 1)) (replicate C nzero) (replicate C nzero) (replicate C (Fin 1))
    (/ 100000) (/ 10) true.

(** [module.train(mode)] on a batch norm ([eval()] is [train(False)]). *)
Definition bn_train (b : BatchNorm1d) (mode : bool) : BatchNorm1d :=
  mkBN (bn_weight b) (bn_bias b) (running_mean b) (running_var b) (bn_eps b) (bn_momentum b) mode.

(** ** [global_max_pool(x, batch)]

    [scatter(x, batch, dim=0, reduce='max')] with [int(batch.max()) + 1]
    groups: a group with no row is a zero row, NaN propagates, and a
    [batch] whose length is not the number of rows raises. *)
Definition width (x : mat) : nat := match x with [] => 0 | r :: _ => length r end.
Definition vmax (u v : vec) : vec := zip_with nmax u v.
Definition num_graphs (batch : list nat) : nat :=
  match batch with [] => 0 | _ => S (foldr Nat.max 0 batch) end.
Definition group_rows (x : mat) (batch : list nat) (gi : nat) : list vec :=
  (filter (λ rb, rb.2 = gi) (zip x batch)).*1.

Definition global_max_pool (x : mat) (batch : list nat) : res mat :=
  if negb (Nat.eqb (length batch) (length x)) then raise RuntimeError
  else inr ((λ gi, match group_rows x batch gi with
                   | [] => zeros_vec (width x)
                   | r :: rs => foldl vmax r rs
                   end) <$> seq 0 (num_graphs batch)).

(** ** [F.dropout(x, p, training)]

    [p] outside [[0, 1]] raises [ValueError]; out of training it is the
    identity; [p = 1] multiplies by zero; otherwise every entry is kept
    with probability [1 - p] and scaled by [1 / (1 - p)]. *)
Definition dropout `{RandomSource G} (rng : G) (p : R) (training : bool) (x : mat) : res (mat * G) :=
  if Rlt_dec p 0 then raise ValueError
  else if Rlt_dec 1 p then raise ValueError
  else if negb training then inr (x, rng)
  else if Req_EM_T p 1 then inr ((λ row : vec, (λ a : num, nmul a nzero) <$> row) <$> x, rng)
  else let '(mask, rng') := draw_mask rng (length x) (width x) (1 - p) in
       inr (zip_with (zip_with (λ a keep, nmul a (if keep : bool then Fin (/ (1 - p)) else nzero))) x mask,
            rng').

(** ** NaN propagation *)

Lemma foldl_nadd_NaN l : foldl nadd NaN l = NaN.
Proof. induction l; [done|]. cbn [foldl]. by rewrite nadd_NaN_l. Qed.

(** A dot product with an all-NaN vector is NaN when neither side is empty. *)
Lemma dot_NaN_r w x : w ≠ [] → x ≠ [] → Forall (λ a, a = NaN) x → dot w x = NaN.
Proof.
  intros Hw Hx HN. destruct w as [|a w]; [done|]. destruct x as [|b x]; [done|].
  apply Forall_cons in HN as [-> _]. unfold dot. simpl. rewrite nmul_NaN_r.
  replace (nadd nzero NaN) with NaN by (by rewrite nadd_NaN_r). apply foldl_nadd_NaN.
Qed.

Lemma linear_NaN L x :
  Forall (λ w, w ≠ []) (weight L) → x ≠ [] → Forall (λ a, a = NaN) x →
  Forall (λ a, a = NaN) (linear L x).
Proof.
  intros Hw Hx HN. unfold linear.
  assert (Forall (λ a, a = NaN) ((λ w, dot w x) <$> weight L)) as Hy.
  { apply Forall_fmap. eapply Forall_impl; [exact Hw|]. intros w Hw'. by apply dot_NaN_r. }
  destruct (bias L) as [b|]; [|done].
  apply (Forall_zip_with _ _ _ _ _ _ Hy (Forall_true (λ _, True) b (λ _, I))). by intros ? ? -> _.
Qed.

Lemma length_linear L x : length (linear L x) = match bias L with Some b => min (length (weight L)) (length b) | None => length (weight L) end.
Proof. unfold linear. destruct (bias L); [by rewrite length_vadd, length_fmap|by rewrite length_fmap]. Qed.

Lemma linear_shape_length L i o x : linear_shape L i o true → length (linear L x) = o.
Proof.
  intros (_ & Hw & _ & Hb). rewrite length_linear. destruct (bias L) as [b|]; [|done].
  destruct Hb as [_ Hb]. lia.
Qed.

Lemma linear_shape_width L i o b x : linear_shape L i o b → length (linear L x) = o.
Proof.
  intros (_ & Hw & _ & Hb). rewrite length_linear. destruct (bias L) as [v|]; [|done].
  destruct Hb as [_ Hb]. lia.
Qed.

Lemma linear_rows_ok L x : Forall (λ r, length r = in_features L) x → linear_rows L x = inr (linear L <$> x).
Proof. intros H. unfold linear_rows. by rewrite bool_decide_true. Qed.

Lemma linear_rows_inr L x y :
  linear_rows L x = inr y → y = linear L <$> x ∧ Forall (λ r, length r = in_features L) x.
Proof. unfold linear_rows. case_bool_decide; [by intros [= <-]|done]. Qed.

(** Adding messages at least as wide as a row keeps the row's width. *)
Lemma length_foldl_vadd (r : vec) (msgs : list vec) :
  Forall (λ m, length r ≤ length m) msgs → length (foldl vadd r msgs) = length r.
Proof.
  revert r. induction msgs as [|m msgs IH]; intros r Hm; [done|].
  apply Forall_cons in Hm as [Hm Hms]. cbn [foldl].
  assert (length (vadd r m) = length r) as Hl by (rewrite length_vadd; lia).
  rewrite IH; [done|]. rewrite Hl. exact Hms.
Qed.

(** [propagate] returns rows of the message width when every message is
    that wide. *)
Lemma propagate_width `{MessagePassing L} l x ei ea out :
  propagate l x ei ea = inr out →
  Forall (λ im, mp_channels l ≤ length im.2) (edge_messages l x ei ea) →
  Forall (λ r, length r = mp_channels l) out.
Proof.
  intros E Hm. apply Forall_lookup. intros i r Hr.
  assert (i < length x) as Hi by (rewrite <-(propagate_length _ _ _ _ _ E); by eapply lookup_lt_Some).
  rewrite (propagate_row _ _ _ _ _ _ E Hi) in Hr. injection Hr as <-.
  rewrite length_foldl_vadd; unfold zeros_vec; rewrite ?length_replicate; [done|].
  apply Forall_fmap, (Forall_filter_sub _ _ _ Hm).
Qed.

Lemma mean_finite v : Forall finite v → v ≠ [] → isnan (mean v) = false.
Proof.
  intros Hv Hne. unfold mean.
  destruct (foldl_nadd_finite nzero v) as (s & Hs & _); [by exists 0%R|exact Hv|].
  unfold vsum, nat_num. rewrite Hs, ndiv_fin; [done|]. destruct v; [done|simpl; lia].
Qed.
