(* ===== verification/MYGNN.v ===== *)
(** * [MYGNN]: the gated residual message-passing layer

    Models lines 103-166 of [graph_neural_network.py].  A layer has two
    [Linear] maps of input width [channels + dim] and output width
    [channels], and a [BatchNorm1d] when [batch_norm=True].  The message
    along an edge [j -> i] is
    [sigmoid(line_attention(z)) * softplus(line_node(z))] with
    [z = cat([x_i, edge_attr])] (or [x_i] alone): it reads the TARGET
    node and the edge, never the source [x_j].  [forward] sums the
    messages per target ([aggr='add']), applies the batch norm, then adds
    the input ([out += x[1]]): the batch norm comes before the residual,
    where the spec (section 4.2) lists it after.  The widths of
    [cat([x_i, edge_attr])] must be the [in_features] of both [Linear]s
    ([message_accepts], checked by torch even without edges), and
    [out += x[1]] must broadcast ([iadd]); both raise [RuntimeError]
    otherwise, the second after a training-mode batch norm has updated
    its statistics, so [forward] returns the layer beside the result.
    [MYGNN_init] is the
    constructor, drawing the two [Linear]s from a [RandomSource] and
    drawing them again in [reset_parameters]; [MYGNN_repr] is
    [__repr__], read back by [parse_repr] ([repr_roundtrip]).

    The theorems: the output row of a node depends only on that node's
    own features (and the edges into it), so features never travel along
    edges; the result does not depend on the order of the edges; with no
    edge and no batch norm the layer is the identity on features of
    width [channels]; in evaluation mode a layer of its constructor's
    shapes returns on every graph of the right widths; without batch norm
    every output coordinate is at least the input coordinate, since every
    message coordinate is positive. *)

From Stdlib Require Import Reals Lra.
From S2P Require Import Prelude Num Tensor.

Record MYGNN := mkMYGNN {
  channels : nat;
  dim : nat;
  line_attention : Linear;
  line_node : Linear;
  bn : option BatchNorm1d }.

Definition set_bn (m : MYGNN) (b : BatchNorm1d) : MYGNN :=
  mkMYGNN (channels m) (dim m) (line_attention m) (line_node m) (Some b).

(** [message(x_i, x_j, edge_attr)] (lines 160-166). *)
Definition message (m : MYGNN) (x_i x_j : vec) (edge_attr : option vec) : vec :=
  let z := match edge_attr with None => x_i | Some e => x_i ++ e end in
  vmul (sigmoid <$> linear (line_attention m) z) (softplus <$> linear (line_node m) z).

(** The widths [message] accepts: [z = cat([x_i, edge_attr], dim=-1)]
    must have the [in_features] of both [Linear]s (lines 161-166), [x_i]
    being a row of [x]; torch checks it even when there is no edge. *)
Definition message_accepts (m : MYGNN) (x : mat) (edge_attr : option mat) : bool :=
  match edge_attr with
  | None => bool_decide (Forall (λ r, length r = in_features (line_attention m) ∧
                                       length r = in_features (line_node m)) x)
  | Some ea => bool_decide (Forall (λ r, Forall (λ e, length r + length e = in_features (line_attention m) ∧
                                                      length r + length e = in_features (line_node m)) ea) x)
  end.

Lemma message_accepts_perm m x ea ea' :
  ea ≡ₚ ea' → message_accepts m x (Some ea) = message_accepts m x (Some ea').
Proof.
  intros Hp. apply bool_decide_ext. apply Forall_iff. intros r. by rewrite Hp.
Qed.

(** [MYGNN(MessagePassing)] with [aggr='add'] (line 107). *)
#[global] Instance MYGNN_MessagePassing : MessagePassing MYGNN :=
  { mp_channels := channels; mp_message := message; mp_accepts := message_accepts;
    mp_accepts_perm := message_accepts_perm }.

(** [forward(x, edge_index, edge_attr)] (lines 142-158): the result and
    the layer after the call, which a batch norm in training mode has
    updated in place, also when [out += x[1]] raises afterwards. *)
Definition forward (m : MYGNN) (x : mat) (edge_index : list (nat * nat)) (edge_attr : option mat)
    : res mat * MYGNN :=
  match propagate m x edge_index edge_attr with
  | inl e => (inl e, m)
  | inr out =>
      match bn m with
      | None => (iadd out x, m)
      | Some b =>
          match bn_forward b out with
          | inl e => (inl e, m)
          | inr (out', b') => (iadd out' x, set_bn m b')
          end
      end
  end.

(** The argument [x: Union[Tensor, PairTensor]] of [forward]. *)
Inductive XInput := XTensor (x : mat) | XPair (x_src x_dst : mat).

(** [forward] as written (lines 142-158): a tensor becomes the pair
    [(x, x)] (lines 145-146); [x_j] comes from [x[0]], [x_i] and the
    residual from [x[1]]. *)
Definition forward_py (m : MYGNN) (x : XInput) (edge_index : list (nat * nat)) (edge_attr : option mat)
    : res mat * MYGNN :=
  let '(x0, x1) := match x with XTensor x => (x, x) | XPair x0 x1 => (x0, x1) end in
  match propagate_pair m x0 x1 edge_index edge_attr with
  | inl e => (inl e, m)
  | inr out =>
      match bn m with
      | None => (iadd out x1, m)
      | Some b =>
          match bn_forward b out with
          | inl e => (inl e, m)
          | inr (out', b') => (iadd out' x1, set_bn m b')
          end
      end
  end.

(** On a single tensor it is [forward]. *)
Lemma forward_py_tensor m x ei ea : forward_py m (XTensor x) ei ea = forward m x ei ea.
Proof. unfold forward_py, forward. by rewrite propagate_pair_diag. Qed.

(** What a call of [forward] can do: raise with the layer unchanged, or
    run [propagate], the batch norm if any, and [out += x]. *)
Lemma forward_inv m x ei ea r m1 :
  forward m x ei ea = (r, m1) →
  (∃ e, r = inl e ∧ m1 = m) ∨
  ∃ out out', propagate m x ei ea = inr out ∧ r = iadd out' x ∧
    (bn m = None ∧ out' = out ∧ m1 = m ∨
     ∃ b b', bn m = Some b ∧ bn_forward b out = inr (out', b') ∧ m1 = set_bn m b').
Proof.
  unfold forward. destruct (propagate m x ei ea) as [e|out]; [intros [= <- <-]; left; by eexists|].
  destruct (bn m) as [b|] eqn:Eb.
  - destruct (bn_forward b out) as [e|[out' b']] eqn:Ef; [intros [= <- <-]; left; by eexists|].
    intros [= <- <-]. right. exists out, out'. split_and!; [done|done|]. right. by exists b, b'.
  - intros [= <- <-]. right. exists out, out. split_and!; [done|done|]. by left.
Qed.

(** ** The order of the edges does not matter *)

(** C8: [forward] gives the same result, running statistics included, for
    any reordering of the columns of [edge_index]. *)
Theorem forward_edge_order m x ei ei' :
  ei ≡ₚ ei' → forward m x ei None = forward m x ei' None.
Proof. intros Hp. unfold forward. by rewrite (propagate_perm m x ei ei' Hp). Qed.

(** [forward] gives the same result when the edges are reordered
    together with the rows of [edge_attr]. *)
Theorem forward_edge_order_attr m x ei ea ei' ea' :
  length ea = length ei → length ea' = length ei' → zip ei ea ≡ₚ zip ei' ea' →
  forward m x ei (Some ea) = forward m x ei' (Some ea').
Proof. intros Hl Hl' Hp. unfold forward. by rewrite (propagate_perm_attr m x ei ea ei' ea' Hl Hl' Hp). Qed.

(** ** No edge *)

Lemma madd_zeros_l c (x : mat) :
  Forall (λ r, length r = c) x → madd (zeros (length x) c) x = x.
Proof.
  induction 1 as [|r x Hr Hx IH]; [done|]. unfold madd, zeros in *.
  cbn [length replicate zip_with]. by rewrite IH, vadd_zeros_l.
Qed.

(** C34: without batch norm and without edges, a layer whose two
    [Linear]s take [channels] inputs (so [dim = 0]) is the identity on a
    feature matrix of width [channels] (spec, section 8): the messages
    are checked against the [Linear]s even though there are none, the
    sum is zero and [out += x] gives back [x]. *)
Theorem forward_no_edges m x :
  bn m = None → in_features (line_attention m) = channels m → in_features (line_node m) = channels m →
  Forall (λ r, length r = channels m) x →
  forward m x [] None = (inr x, m).
Proof.
  intros Hbn Ha Hn Hx. unfold forward. rewrite propagate_no_edges, Hbn.
  - rewrite iadd_madd; [cbn [mp_channels MYGNN_MessagePassing]; by rewrite madd_zeros_l|].
    apply (Forall2_widths _ _ (channels m)); [unfold zeros; by rewrite length_replicate| |done].
    apply Forall_replicate. unfold zeros_vec. by rewrite length_replicate.
  - cbn [mp_accepts MYGNN_MessagePassing message_accepts]. apply bool_decide_true. eapply Forall_impl; [exact Hx|]. intros r Hr. simpl in Hr. lia.
Qed.

(** ** Features never travel along edges *)

(** The messages into node [i] read [x_i] only. *)
Lemma edge_messages_into m x x' ei ea i :
  x !!! i = x' !!! i →
  snd <$> filter (λ im, im.1 = i) (edge_messages m x ei ea) =
  snd <$> filter (λ im, im.1 = i) (edge_messages m x' ei ea).
Proof.
  intros Hi. rewrite !edge_messages_fmap. generalize (zip ei (edge_attrs ei ea)).
  induction l as [|p l IH]; [done|]. rewrite !fmap_cons, !filter_cons. cbn [fst].
  case_decide as Hp; [rewrite !fmap_cons|done]. rewrite IH. cbn [snd].
  rewrite Hp, Hi. reflexivity.
Qed.

Lemma lookup_madd (a b : mat) i : madd a b !! i = (r ← a !! i; s ← b !! i; Some (vadd r s)).
Proof. apply lookup_zip_with. Qed.

(** C7: when the batch norm, if any, is in evaluation mode, the output row
    of node [i] is a function of row [i] of the input alone: changing the
    features of every other node, its neighbours included, leaves it
    unchanged. *)
Theorem forward_row_local m x x' ei ea y y' m1 m1' i :
  (∀ b, bn m = Some b → bn_training b = false) →
  length x = length x' → x !! i = x' !! i →
  forward m x ei ea = (inr y, m1) → forward m x' ei ea = (inr y', m1') →
  y !! i = y' !! i.
Proof.
  intros Hbn Hl Hi [(e & ? & _)|(out & o & P & Hy & Hb)]%forward_inv; [done|].
  intros [(e & ? & _)|(out' & o' & P' & Hy' & Hb')]%forward_inv; [done|].
  assert (out !! i = out' !! i) as Hout.
  { destruct (decide (i < length x)) as [Hlt|Hge].
    - rewrite (propagate_row m x ei ea out i P Hlt), (propagate_row m x' ei ea out' i P') by lia.
      do 2 f_equal. apply edge_messages_into. by rewrite !list_lookup_total_alt, Hi.
    - rewrite !lookup_ge_None_2; [done| |];
        rewrite ?(propagate_length _ _ _ _ _ P), ?(propagate_length _ _ _ _ _ P'); lia. }
  assert (o !! i = o' !! i) as Ho.
  { destruct Hb as [(Hn & -> & _)|(b & b1 & Eb & Ef & _)], Hb' as [(Hn' & -> & _)|(b' & b1' & Eb' & Ef' & _)];
      simplify_eq; [done|].
    apply bn_forward_eval_inr in Ef as [-> _], Ef' as [-> _]; [|by apply Hbn..].
    unfold bn_apply. by rewrite !list_lookup_fmap, Hout. }
  rewrite (lookup_iadd _ _ _ i (eq_sym Hy)), (lookup_iadd _ _ _ i (eq_sym Hy')). by rewrite Ho, Hi.
Qed.

(** ** Witnesses on a one-channel layer *)

Module Demo.
Definition layer : MYGNN :=
    mkMYGNN 1 0 (mkLinear 1 [[Fin 1]] None) (mkLinear 1 [[Fin 1]] None) None.
  (** The same with one edge attribute. *)
Definition layer_attr : MYGNN :=
    mkMYGNN 1 1 (mkLinear 2 [[Fin 1; Fin 1]] None) (mkLinear 2 [[Fin 1; Fin 1]] None) None.
Definition x : mat := [[Fin 1]; [Fin 2]].
  (** [x] with another feature for node 1, the neighbour of node 0. *)
Definition x' : mat := [[Fin 1]; [Fin 5]].
End Demo.

Lemma forward_edge_order_witness :
  [(0, 1); (1, 0)] ≡ₚ [(1, 0); (0, 1)] ∧
  forward Demo.layer Demo.x [(0, 1); (1, 0)] None = forward Demo.layer Demo.x [(1, 0); (0, 1)] None.
Proof.
  assert ([(0, 1); (1, 0)] ≡ₚ [(1, 0); (0, 1)]) as Hp by constructor.
  split; [exact Hp|]. apply forward_edge_order. exact Hp.
Defined.

Lemma forward_edge_order_attr_witness :
  forward Demo.layer_attr Demo.x [(0, 1); (1, 0)] (Some [[Fin 3]; [Fin 4]]) =
  forward Demo.layer_attr Demo.x [(1, 0); (0, 1)] (Some [[Fin 4]; [Fin 3]]).
Proof. apply forward_edge_order_attr; [reflexivity|reflexivity|constructor]. Defined.

Lemma forward_no_edges_witness :
  forward Demo.layer Demo.x [] None = (inr Demo.x, Demo.layer).
Proof. apply forward_no_edges; [reflexivity..|repeat constructor]. Defined.

(** Node 0 receives an edge from node 1; changing node 1's features does
    not change node 0's output. *)
Lemma forward_row_local_witness :
  ∃ y y' m1 m1', forward Demo.layer Demo.x [(1, 0)] None = (inr y, m1) ∧
                 forward Demo.layer Demo.x' [(1, 0)] None = (inr y', m1') ∧
                 y !! 0 = y' !! 0.
Proof.
  do 4 eexists. split; [reflexivity|]. split; [reflexivity|].
  eapply (forward_row_local Demo.layer Demo.x Demo.x' [(1, 0)] None);
    [intros b Hb; discriminate Hb|reflexivity|reflexivity|reflexivity|reflexivity].
Defined.

(** ** Without batch norm the residual only grows *)

Definition params_finite (m : MYGNN) : Prop :=
  linear_finite (line_attention m) ∧ linear_finite (line_node m).

(** Every coordinate of a message is a positive number: a gate in
    [(0, 1)] times a positive softplus. *)
Lemma message_pos m xi xj e :
  params_finite m → vfin (λ _, True) xi → (∀ v, e = Some v → vfin (λ _, True) v) →
  vfin (λ r, 0 < r)%R (message m xi xj e).
Proof.
  intros [Ha Hn] Hxi He. unfold message.
  assert (vfin (λ _, True) (match e with None => xi | Some v => xi ++ v end)) as Hz.
  { destruct e as [v|]; [apply Forall_app; split; [done|by apply He]|done]. }
  apply (Forall_zip_with _ (fin_with (λ y, 0 < y < 1)%R) (fin_with (λ y, 0 < y)%R)).
  - apply Forall_fmap. eapply Forall_impl; [by apply linear_fin|]. intros a Hfa. by apply sigmoid_finite.
  - apply Forall_fmap. eapply Forall_impl; [by apply linear_fin|]. intros a Hfa. by apply softplus_finite.
  - intros a b Ha' Hb'. apply (nmul_fin_with _ _ _ _ _ Ha' Hb'). intros u v Hu Hv.
    apply Rmult_lt_0_compat; lra.
Qed.

Lemma fold_msgs_nonneg (acc : vec) (msgs : list vec) :
  vfin (λ r, 0 <= r)%R acc → Forall (λ v, vfin (λ r, 0 < r)%R v) msgs →
  vfin (λ r, 0 <= r)%R (foldl vadd acc msgs).
Proof.
  intros Ha Hm. revert acc Ha. induction Hm as [|v msgs Hv Hm IH]; intros acc Ha; simpl; [done|].
  apply IH. apply (vadd_fin_with _ _ _ _ _ Ha Hv). intros u w Hu Hw. lra.
Qed.

Lemma edge_messages_pos m x ei ea :
  params_finite m → Forall (λ r, vfin (λ _, True) r) x →
  (∀ rows, ea = Some rows → Forall (λ r, vfin (λ _, True) r) rows) →
  Forall (λ im, vfin (λ r, 0 < r)%R im.2) (edge_messages m x ei ea).
Proof.
  intros Hp Hx Hea. rewrite edge_messages_fmap. apply Forall_fmap, Forall_forall.
  intros [[j i] a] Hin. simpl. apply message_pos; [done| |].
  - rewrite list_lookup_total_alt. destruct (x !! i) as [r|] eqn:E; simpl; [|constructor].
    by apply (Forall_lookup_1 _ _ _ _ Hx E).
  - intros v ->. destruct ea as [rows|]; simpl in Hin.
    + apply elem_of_zip_r, list_elem_of_fmap in Hin as (w & [= <-] & Hw).
      by apply (proj1 (Forall_forall _ _) (Hea rows eq_refl)).
    + apply elem_of_zip_r, elem_of_replicate in Hin as [? _]. done.
Qed.

(** C15: without batch norm, with finite parameters, features and edge
    attributes, every coordinate of the output is at least the same
    coordinate of the input: the messages are positive and only added. *)
Theorem forward_residual_monotone m x ei ea y m1 i k a b :
  bn m = None → params_finite m → Forall (λ r, vfin (λ _, True) r) x →
  (∀ rows, ea = Some rows → Forall (λ r, vfin (λ _, True) r) rows) →
  forward m x ei ea = (inr y, m1) →
  x !! i ≫= (λ r, r !! k) = Some (Fin a) → y !! i ≫= (λ r, r !! k) = Some (Fin b) →
  (a <= b)%R.
Proof.
  intros Hbn Hp Hx Hea [(e & ? & _)|(out & o & P & Hy & Hb)]%forward_inv; [done|].
  destruct Hb as [(_ & -> & _)|(b' & ? & Eb & _)]; [|congruence].
  destruct (x !! i) as [xi|] eqn:Exi; [|done]. simpl. intros Hxk.
  assert (i < length x) as Hlt by (by eapply lookup_lt_Some).
  rewrite (lookup_iadd _ _ _ i (eq_sym Hy)), (propagate_row m x ei ea out i P Hlt), Exi. simpl.
  destruct (iadd_row _ xi) as [|v] eqn:Ev; [done|]. simpl.
  rewrite (iadd_row_lookup _ _ _ _ _ Ev Hxk).
  destruct (foldl _ _ _ !! k) as [o'|] eqn:Eo; [|done]. simpl. intros [= Hb].
  assert (vfin (λ r, 0 <= r)%R (foldl vadd (zeros_vec (mp_channels m))
            (snd <$> filter (λ im, im.1 = i) (edge_messages m x ei ea)))) as Hnn.
  { apply fold_msgs_nonneg.
    - unfold zeros_vec. apply Forall_replicate. by exists 0%R.
    - apply Forall_fmap. eapply Forall_impl; [apply Forall_filter_sub, edge_messages_pos; done|].
      intros im Him. exact Him. }
  destruct (Forall_lookup_1 _ _ _ _ Hnn Eo) as (r & -> & Hr).
  cbn [nadd nlift2] in Hb. injection Hb as <-. lra.
Qed.

Lemma forward_residual_monotone_witness :
  ∃ y m1 b, forward Demo.layer Demo.x [(1, 0)] None = (inr y, m1) ∧
            y !! 0 ≫= (λ r, r !! 0) = Some (Fin b) ∧ (1 <= b)%R.
Proof.
  do 3 eexists. split; [reflexivity|]. split; [reflexivity|].
  eapply (forward_residual_monotone Demo.layer Demo.x [(1, 0)] None _ _ 0 0 1%R); [reflexivity| | | |reflexivity..].
  - split; split; [repeat constructor; by exists 1%R| intros b Hb; discriminate Hb
                  |repeat constructor; by exists 1%R| intros b Hb; discriminate Hb].
  - repeat constructor; [by exists 1%R|by exists 2%R].
  - intros rows Hr. discriminate Hr.
Defined.

(** ** Construction and mode switch *)

Section Init.
Context `{RandomSource G}.

(** [MYGNN(channels, dim, batch_norm=batch_norm, bias=bias)] (lines
    104-133): two [Linear(channels + dim, channels)], a [BatchNorm1d] when
    [batch_norm], then [reset_parameters()] (lines 135-140) draws both
    [Linear]s again and resets the batch norm to its initial state. *)
Definition MYGNN_init (rng : G) (channels dim : nat) (batch_norm bias : bool) : MYGNN * G :=
  let '(la, rng) := draw_linear rng (channels + dim) channels bias in
  let '(ln, rng) := draw_linear rng (channels + dim) channels bias in
  let b := if batch_norm then Some (batch_norm_1d channels) else None in
  let '(la, rng) := draw_linear rng (channels + dim) channels bias in
  let '(ln, rng) := draw_linear rng (channels + dim) channels bias in
  (mkMYGNN channels dim la ln b, rng).
End Init.

(** [layer.train(mode)]: only the batch norm's behaviour depends on it. *)
Definition mygnn_train (m : MYGNN) (mode : bool) : MYGNN :=
  mkMYGNN (channels m) (dim m) (line_attention m) (line_node m) ((λ b, bn_train b mode) <$> bn m).

(** [__repr__] (lines 168-169):
    [f'{self.__class__.__name__}({self.channels}, dim={self.dim})']. *)
Definition MYGNN_repr (m : MYGNN) : string :=
  "MYGNN(" +:+ pretty (channels m) +:+ ", dim=" +:+ pretty (dim m) +:+ ")".

(** Reading a representation back: the class name, the channels, the
    edge dimension. *)
Definition parse_repr (s : string) : option (nat * nat) :=
  s1 ← strip_prefix "MYGNN(" s;
  let '(c, s2) := read_digits s1 0 in
  s3 ← strip_prefix ", dim=" s2;
  let '(d, s4) := read_digits s3 0 in
  if decide (s4 = ")") then Some (N.to_nat c, N.to_nat d) else None.

(** C33: [__repr__] loses nothing: the channels and the edge dimension
    are read back from the string it prints. *)
Theorem repr_roundtrip m : parse_repr (MYGNN_repr m) = Some (channels m, dim m).
Proof.
  unfold parse_repr, MYGNN_repr.
  rewrite strip_prefix_app. cbn [mbind option_bind].
  rewrite read_digits_pretty by done. cbv beta iota.
  rewrite strip_prefix_app. cbn [mbind option_bind].
  rewrite read_digits_pretty by done. cbv beta iota.
  by rewrite decide_True, !Nat2N.id.
Qed.

(** The representation of the one-channel demo layer. *)
Example repr_demo : MYGNN_repr Demo.layer = "MYGNN(1, dim=0)".
Proof. vm_compute. reflexivity. Qed.

(** ** Evaluation mode never fails on a well-formed graph *)

Lemma length_madd a b : length (madd a b) = min (length a) (length b).
Proof. apply length_zip_with. Qed.

(** The shapes [MYGNN(channels, dim, bias=True)] gives its parameters. *)
Definition mygnn_shape (m : MYGNN) : Prop :=
  linear_shape (line_attention m) (channels m + dim m) (channels m) true ∧
  linear_shape (line_node m) (channels m + dim m) (channels m) true ∧
  ∀ b, bn m = Some b → length (bn_weight b) = channels m.

(** The edge attributes a layer accepts: none when [dim = 0], rows of
    width [dim] otherwise. *)
Definition attr_width (m : MYGNN) (ea : option mat) : Prop :=
  match ea with None => dim m = 0 | Some rows => Forall (λ e, length e = dim m) rows end.

Lemma length_message m xi xj e :
  mygnn_shape m → length (message m xi xj e) = channels m.
Proof.
  intros (Ha & Hn & _). unfold message, vmul. rewrite length_zip_with, !length_fmap.
  rewrite (linear_shape_length _ _ _ _ Ha), (linear_shape_length _ _ _ _ Hn). lia.
Qed.

Lemma message_accepts_width m x ea :
  mygnn_shape m → Forall (λ r, length r = channels m) x → attr_width m ea →
  message_accepts m x ea = true.
Proof.
  intros ((Ha & _) & (Hn & _) & _) Hx Hea. destruct ea as [rows|]; simpl in Hea; apply bool_decide_true.
  - eapply Forall_impl; [exact Hx|]. intros r Hr. simpl in Hr. eapply Forall_impl; [exact Hea|].
    intros e He. simpl in He. lia.
  - eapply Forall_impl; [exact Hx|]. intros r Hr. simpl in Hr. lia.
Qed.

(** With its batch norm (if any) in evaluation mode, a layer of the
    shapes of its constructor returns on every graph whose features
    have [channels] columns, whose edge indices are in range and whose
    attribute rows match the edges in number and width; it keeps the
    number of rows and the width, and is itself unchanged. *)
Lemma forward_eval_ok m x ei ea :
  (∀ b, bn m = Some b → bn_training b = false) → mygnn_shape m →
  Forall (λ r, length r = channels m) x → attr_width m ea →
  indices_ok (length x) ei = true → attr_rows_ok ei ea = true →
  ∃ y, forward m x ei ea = (inr y, m) ∧ length y = length x ∧ Forall (λ r, length r = channels m) y.
Proof.
  intros Hev Hs Hx Hea Hi Ha.
  assert (propagate m x ei ea = inr (scatter_add (zeros (length x) (mp_channels m)) (edge_messages m x ei ea)))
    as P.
  { unfold propagate. rewrite Hi, Ha. cbn [mp_accepts MYGNN_MessagePassing]. by rewrite message_accepts_width. }
  set (out := scatter_add _ _) in P.
  assert (length out = length x) as Hl by apply (propagate_length _ _ _ _ _ P).
  assert (Forall (λ r, length r = channels m) out) as Hw.
  { apply (propagate_width _ _ _ _ _ P). apply Forall_forall. intros im Him. cbn [mp_channels MYGNN_MessagePassing].
    rewrite edge_messages_fmap in Him. apply list_elem_of_fmap in Him as (p & -> & _).
    simpl. by rewrite length_message. }
  assert (∀ o, length o = length x → Forall (λ r, length r = channels m) o →
            iadd o x = inr (madd o x) ∧ length (madd o x) = length x ∧ Forall (λ r, length r = channels m) (madd o x))
    as Hadd.
  { intros o Ho Hwo. assert (iadd o x = inr (madd o x)) as E by (apply iadd_madd, (Forall2_widths _ _ (channels m)); done).
    split_and!; [done|rewrite length_madd; lia|exact (iadd_width _ _ _ _ E Hwo)]. }
  unfold forward. rewrite P. destruct (bn m) as [b|] eqn:Eb.
  - rewrite bn_forward_eval; [|by apply Hev|by rewrite (proj2 (proj2 Hs) b Eb)].
    destruct (Hadd (bn_apply b (running_mean b) (running_var b) out)) as (E & ? & ?).
    + unfold bn_apply. by rewrite length_fmap.
    + by apply bn_apply_width.
    + rewrite E. eexists. split; [|done]. f_equal. destruct m; simpl in *; by subst.
  - destruct (Hadd out Hl Hw) as (E & ? & ?). rewrite E. by eexists.
Qed.

(** ** The source tensor of a pair is never read *)

(** C40: on a pair input [(x_src, x_dst)], [forward] reads only the
    number of rows of [x_src] (for the index check): the messages use
    [x_i] from [x_dst] and never [x_j], so any other source tensor of the
    same height gives the same result, running statistics included. *)
Theorem forward_pair_ignores_source m xs xs' xd ei ea :
  length xs = length xs' →
  forward_py m (XPair xs xd) ei ea = forward_py m (XPair xs' xd) ei ea.
Proof.
  intros Hl. unfold forward_py.
  assert (propagate_pair m xs xd ei ea = propagate_pair m xs' xd ei ea) as ->; [|done].
  unfold propagate_pair. by rewrite Hl.
Qed.

Lemma forward_pair_ignores_source_witness :
  forward_py Demo.layer (XPair Demo.x Demo.x) [(1, 0)] None =
  forward_py Demo.layer (XPair Demo.x' Demo.x) [(1, 0)] None.
Proof. apply forward_pair_ignores_source. reflexivity. Defined.

