(* ===== verification/GAL.v ===== *)
(** * [GAL]: the attention layer (lines 36-100 of [graph_neural_network.py])

    [GAL] is a second [MessagePassing] layer of the file; no other code of
    the repository instantiates it (the [MYGNN] line that would is
    commented out).  Its [forward] maps the features through [self.linear],
    scores every edge [(col, row)] with [leakyrelu(a . cat(x[row], x[col]))],
    adds the scores per SOURCE node [col] into [e_all], rescales each score
    in place to [exp(e) / exp(e_all[col])], and propagates
    [norm * x_j] into the targets.  Python names: [col, row = edge_index],
    so [col] is row 0 of [edge_index] (the sources) and [row] row 1.

    The per-edge [norm] tensor is passed to [propagate] as the per-edge
    argument of the [MessagePassing] interface (its rows are
    [norm.view(-1, 1)]).

    The comment at line 72 says [e_all] serves "to compute a normalised
    softmax"; the code divides [exp(e)] by [exp] of the SUM of the scores,
    which is [exp(e - e_all)] and not a softmax: with all scores zero,
    every coefficient is [1] ([gal_zero_attention_sum]).  [self.linear]
    raises [RuntimeError] on rows of another width than [in_features],
    [torch.mm] on rows of [cat(x[row], x[col])] of another width than
    [self.a].  With exactly one edge, [temp.squeeze()] is a 0-d tensor
    ([Squeezed]) and [e[count]] in the loop of line 76 raises
    [IndexError] ([gal_one_edge_raises]).  Line 83 computes on Python
    floats: [math.exp] raises [OverflowError] on a score or a sum above
    about [709.78] and returns [0.0] below about [-745.13], and the
    division by [0.0] raises [ZeroDivisionError] ([py_exp], [py_truediv]
    of [Num]; [gal_float_errors]); the loop stops at the first exception.
    [normalise] is the loop as written, [coefficients] its reference, and
    [normalise_coefficients] shows they agree.  [GAL_init] is the constructor
    ([xavier_uniform_] on [self.a], then the [Linear]); the layer it
    builds returns [n x out_featrues] outputs. *)

From Stdlib Require Import Reals Lra.
From S2P Require Import Prelude Num Tensor.

(** [self.a] (shape [2 * out_featrues x 1], kept as a vector) and
    [self.linear]; [out_featrues] keeps the source's spelling. *)
Record GAL := mkGAL {
  a : vec;
  gal_linear : Linear;
  out_featrues : nat }.

(** [message(x_j, norm)] (lines 91-100): [norm.view(-1, 1) * x_j], the
    one-entry row of the edge broadcast over [x_j].  [GAL.forward] always
    passes [norm]; without it the message is [x_j]. *)
Definition gal_message (g : GAL) (x_i x_j : vec) (norm : option vec) : vec :=
  match norm with Some w => nmul (w !!! 0) <$> x_j | None => x_j end.

(** [norm.view(-1, 1) * x_j] broadcasts for every width: [message]
    accepts all its arguments. *)
#[global] Instance GAL_MessagePassing : MessagePassing GAL :=
  { mp_channels := out_featrues; mp_message := gal_message; mp_accepts _ _ _ := true;
    mp_accepts_perm _ _ _ _ _ := eq_refl }.

(** [temp = torch.mm(a_input, self.a)] with
    [a_input = torch.cat([x[row], x[col]], dim=1)] (lines 58-63), one
    entry per edge, before [squeeze]. *)
Definition edge_scores (g : GAL) (x : mat) (col row : list nat) : vec :=
  (λ z, dot z (a g)) <$> zip_with (λ r c, x !!! r ++ x !!! c) row col.

(** [e_all[i] += e[count]] for [i] in [col] on a vector [e]: the sums of
    lines 73-77 when no index raises. *)
Definition score_sums (N : nat) (col : list nat) (e : vec) : vec :=
  foldl (λ acc ie, alter (λ s, nadd s ie.2) ie.1 acc) (replicate N nzero) (zip col e).

(** [e = self.leakyrelu(temp)] (line 67) on a vector. *)
Definition scores (g : GAL) (x : mat) (col row : list nat) : vec :=
  leaky_relu <$> edge_scores g x col row.

(** The result of [.squeeze()] on the [E x 1] product (line 63): a 0-d
    tensor when [E = 1], a vector of [E] entries otherwise. *)
Inductive Squeezed := Scalar (v : num) | Vector (e : vec).

Definition squeeze (temp : vec) : Squeezed :=
  match temp with [v] => Scalar v | _ => Vector temp end.

(** An elementwise function ([self.leakyrelu]) keeps the shape. *)
Definition squeezed_map (f : num → num) (t : Squeezed) : Squeezed :=
  match t with Scalar v => Scalar (f v) | Vector e => Vector (f <$> e) end.

(** [e[count]]: "invalid index of a 0-dim tensor" is an [IndexError],
    as is an index past the end. *)
Definition squeezed_index (t : Squeezed) (k : nat) : res num :=
  match t with
  | Scalar _ => raise IndexError
  | Vector e => match e !! k with Some v => inr v | None => raise IndexError end
  end.

(** One iteration of the loop of lines 73-77, with [(count, e_all)]:
    [e_all[i] += e[count]; count = count + 1]. *)
Definition score_step (e : Squeezed) (acc : res (nat * vec)) (i : nat) : res (nat * vec) :=
  p ← acc;
  v ← squeezed_index e p.1;
  if decide (i < length p.2) then inr (S p.1, alter (λ s, nadd s v) i p.2) else raise IndexError.

(** The loop of lines 73-77 from [e_all = torch.zeros(N)] and
    [count = 0], over the sources [col]. *)
Definition score_loop (N : nat) (col : list nat) (e : Squeezed) : res vec :=
  r ← foldl (score_step e) (inr (0, replicate N nzero)) col; inr r.2.

(** The right-hand side of line 83 for edge [i] with score [v], on
    Python floats: [math.exp(v) / math.exp(e_all[col[i]])]. *)
Definition coefficient (col : list nat) (e_all : vec) (i : nat) (v : num) : res num :=
  n ← py_exp v; d ← py_exp (e_all !!! (col !!! i)); py_truediv n d.

(** One iteration of [for i in range(len(e)): e[i] = math.exp(e[i]) /
    math.exp(e_all[col[i]])] (line 83): [e[i]] is overwritten in place;
    an exception ends the loop. *)
Definition normalise_step (col : list nat) (e_all : vec) (acc : res vec) (i : nat) : res vec :=
  e ← acc; c ← coefficient col e_all i (e !!! i); inr (<[i := c]> e).

(** The loop of lines 82-83 over [range(len(e))] on a vector. *)
Definition normalise (col : list nat) (e_all e : vec) : res vec :=
  foldl (normalise_step col e_all) (inr e) (seq 0 (length e)).

(** Lines 82-83 on what [squeeze] returned: [len()] of a 0-d tensor
    raises [TypeError]. *)
Definition normalise_py (col : list nat) (e_all : vec) (e : Squeezed) : res vec :=
  match e with Scalar _ => raise TypeError | Vector e => normalise col e_all e end.

(** The coefficients [e] after line 83 when there is no single edge:
    scores, [leakyrelu], the sums per source node, the in-place
    rescaling. *)
Definition attention (g : GAL) (x : mat) (col row : list nat) : res vec :=
  let e := scores g x col row in
  normalise col (score_sums (length x) col e) e.

(** [GAL.forward(x, edge_index)] (lines 50-89): [self.linear] raises
    [RuntimeError] on rows of another width than [in_features];
    indexing [x[row]] or [x[col]] out of range raises [IndexError];
    [torch.mm] raises [RuntimeError] unless [cat(x[row], x[col])] has as
    many columns as [self.a] has rows. *)
Definition gal_forward (g : GAL) (x : mat) (edge_index : list (nat * nat)) : res mat :=
  x ← linear_rows (gal_linear g) x;
  let col := edge_index.*1 in
  let row := edge_index.*2 in
  if negb (indices_ok (length x) edge_index) then raise IndexError
  else if negb (bool_decide (Forall (λ r, length r + length r = length (a g)) x)) then raise RuntimeError
  else
    let e := squeezed_map leaky_relu (squeeze (edge_scores g x col row)) in
    e_all ← score_loop (length x) col e;
    e ← normalise_py col e_all e;
    propagate g x edge_index (Some ((λ n, [n]) <$> e)).

Section Init.
Context `{RandomSource G}.

(** The bound of [torch.nn.init.xavier_uniform_(t, gain)]:
    [sqrt(3) * gain * sqrt(2 / (fan_in + fan_out))]. *)
Definition xavier_bound (gain : R) (fan_in fan_out : nat) : R :=
  sqrt 3 * (gain * sqrt (2 / INR (fan_in + fan_out))).

(** [GAL(in_features, out_featrues)] (lines 37-48): [self.a] of shape
    [2 * out_featrues x 1] drawn by [xavier_uniform_] with [gain=1.414]
    (fan in [1], fan out [2 * out_featrues]), then
    [Linear(in_features, out_featrues)]. *)
Definition GAL_init (rng : G) (in_features out_featrues : nat) : GAL * G :=
  let bound := xavier_bound (1414 / 1000) 1 (2 * out_featrues) in
  let '(am, rng) := draw_uniform rng (- bound) bound (2 * out_featrues) 1 in
  let '(L, rng) := draw_linear rng in_features out_featrues true in
  (mkGAL (concat am) L out_featrues, rng).
End Init.

(** ** The in-place loop is a map *)

(** The reference: every coefficient from the score it replaces, left
    to right, the first exception winning. *)
Fixpoint coefficients (col : list nat) (e_all : vec) (i : nat) (l : vec) : res vec :=
  match l with
  | [] => inr []
  | v :: l => c ← coefficient col e_all i v; cs ← coefficients col e_all (S i) l; inr (c :: cs)
  end.

Lemma normalise_step_inl col s e0 l : foldl (normalise_step col s) (inl e0) l = inl e0.
Proof. induction l as [|i l IH]; [done|]. apply IH. Qed.

(** After the first [length pre] iterations the loop has written the
    coefficients [pre]; the rest of [e] is untouched. *)
Lemma normalise_from col s pre l :
  foldl (normalise_step col s) (inr (pre ++ l)) (seq (length pre) (length l)) =
  (cs ← coefficients col s (length pre) l; inr (pre ++ cs)).
Proof.
  revert pre. induction l as [|v l IH]; intros pre; [simpl; by rewrite app_nil_r|].
  cbn [length seq foldl coefficients]. unfold normalise_step at 2. rewrite res_bind_inr.
  rewrite list_lookup_total_alt, list_lookup_middle by done. simpl.
  destruct (coefficient col s (length pre) v) as [err|c]; simpl; [apply normalise_step_inl|].
  rewrite insert_app_r_alt, Nat.sub_diag by lia. simpl.
  replace (pre ++ c :: l) with ((pre ++ [c]) ++ l) by by rewrite <-app_assoc.
  replace (S (length pre)) with (length (pre ++ [c])) by (rewrite length_app; simpl; lia).
  rewrite IH. rewrite length_app. simpl. replace (length pre + 1) with (S (length pre)) by lia.
  destruct (coefficients _ _ _ l); [done|]. simpl. by rewrite <-app_assoc.
Qed.

(** The in-place loop of lines 82-83 computes every coefficient from the
    ORIGINAL score: each iteration reads only the entry it overwrites. *)
Lemma normalise_coefficients col s e : normalise col s e = coefficients col s 0 e.
Proof.
  unfold normalise. pose proof (normalise_from col s [] e) as H. simpl in H. rewrite H.
  by destruct (coefficients col s 0 e).
Qed.

Lemma length_edge_scores g x ei : length (edge_scores g x ei.*1 ei.*2) = length ei.
Proof. unfold edge_scores. by rewrite length_fmap, length_zip_with, !length_fmap, Nat.min_id. Qed.

Lemma squeeze_vector temp : length temp ≠ 1 → squeeze temp = Vector temp.
Proof. destruct temp as [|v [|w t]]; simpl; [done|lia|done]. Qed.

Lemma score_step_inl e err col : foldl (score_step e) (inl err) col = inl err.
Proof. induction col as [|i col IH]; [done|]. apply IH. Qed.

(** After [length pre] iterations over the vector [pre ++ rest], the
    loop adds the remaining scores [rest] one by one. *)
Lemma score_loop_from pre rest col acc :
  length rest = length col → Forall (λ i, i < length acc) col →
  foldl (score_step (Vector (pre ++ rest))) (inr (length pre, acc)) col =
  inr (length pre + length col, foldl (λ acc ie, alter (λ s, nadd s ie.2) ie.1 acc) acc (zip col rest)).
Proof.
  revert pre rest acc. induction col as [|i col IH]; intros pre [|v rest] acc Hl Hc; simpl in Hl; try lia.
  - simpl. by rewrite Nat.add_0_r.
  - apply Forall_cons in Hc as [Hi Hc]. cbn [foldl zip zip_with]. unfold score_step at 2.
    rewrite res_bind_inr. cbn [squeezed_index fst snd]. rewrite list_lookup_middle by done.
    rewrite res_bind_inr, decide_True by done.
    replace (pre ++ v :: rest) with ((pre ++ [v]) ++ rest) by by rewrite <-app_assoc.
    replace (S (length pre)) with (length (pre ++ [v])) by (rewrite length_app; simpl; lia).
    rewrite IH; [|lia|].
    + f_equal. f_equal. rewrite length_app. simpl. lia.
    + eapply Forall_impl; [exact Hc|]. intros j Hj. by rewrite length_alter.
Qed.

(** On a vector with one score per source in range, the loop computes
    [score_sums]. *)
Lemma score_loop_vector N col e :
  length e = length col → Forall (λ i, i < N) col → score_loop N col (Vector e) = inr (score_sums N col e).
Proof.
  intros Hl Hc. unfold score_loop, score_sums. pose proof (score_loop_from [] e col (replicate N nzero)) as H.
  simpl in H. rewrite H; [done|done|]. by rewrite length_replicate.
Qed.

(** On a 0-d tensor, the first [e[count]] raises. *)
Lemma score_loop_scalar N i col v : score_loop N (i :: col) (Scalar v) = inl IndexError.
Proof.
  unfold score_loop. cbn [foldl].
  change (score_step (Scalar v) (inr (0, replicate N nzero)) i) with (@inl exc (nat * vec) IndexError).
  by rewrite score_step_inl.
Qed.

Lemma indices_ok_col N ei : indices_ok N ei = true → Forall (λ i, i < N) ei.*1.
Proof.
  intros Hi. apply bool_decide_eq_true in Hi. apply Forall_fmap. eapply Forall_impl; [exact Hi|].
  by intros e [? _].
Qed.

(** The guards of [GAL.forward] on [x]: rows of [in_features] entries
    for [self.linear], rows of [self.linear(x)] half as wide as [self.a]
    for [torch.mm]. *)
Definition gal_widths (g : GAL) (x : mat) : Prop :=
  Forall (λ r, length r = in_features (gal_linear g)) x ∧
  Forall (λ r, length r + length r = length (a g)) (linear (gal_linear g) <$> x).

(** Past its guards and with other than one edge, [GAL.forward] is the
    attention loop followed by [propagate]. *)
Lemma gal_forward_unfold g x ei :
  gal_widths g x → indices_ok (length x) ei = true → length ei ≠ 1 →
  gal_forward g x ei =
  (e ← attention g (linear (gal_linear g) <$> x) ei.*1 ei.*2;
   propagate g (linear (gal_linear g) <$> x) ei (Some ((λ n, [n]) <$> e))).
Proof.
  intros [Hw Hmm] Hi Hl. unfold gal_forward. rewrite linear_rows_ok by done. rewrite res_bind_inr. cbv beta zeta.
  rewrite length_fmap, Hi. cbn [negb]. rewrite bool_decide_true by done. cbn [negb].
  rewrite squeeze_vector by (by rewrite length_edge_scores). cbn [squeezed_map].
  rewrite score_loop_vector; [|by rewrite !length_fmap, length_edge_scores|by apply indices_ok_col].
  rewrite res_bind_inr. cbn [normalise_py]. unfold attention, scores. by rewrite length_fmap.
Qed.

(** With exactly one edge, past the guards of [self.linear] and
    [torch.mm], [e[count]] at line 76 raises; an index out of range
    raises [IndexError] before. *)
Lemma gal_forward_one_edge g x e : gal_widths g x → gal_forward g x [e] = inl IndexError.
Proof.
  intros [Hw Hmm]. unfold gal_forward. rewrite linear_rows_ok by done. rewrite res_bind_inr. cbv beta zeta.
  destruct (indices_ok _ _); cbn [negb]; [|done]. rewrite bool_decide_true by done. cbn [negb].
  unfold edge_scores. cbn [fmap list_fmap zip_with squeeze squeezed_map].
  by rewrite score_loop_scalar, res_bind_inl.
Qed.

(** The shapes [GAL(in_features, out_featrues)] gives its parameters:
    [self.linear] is a [Linear(in_features, out_featrues)], [self.a] has
    [2 * out_featrues] entries. *)
Definition gal_shape (g : GAL) (i : nat) : Prop :=
  (∃ b, linear_shape (gal_linear g) i (out_featrues g) b) ∧ length (a g) = 2 * out_featrues g.

Lemma gal_shape_widths g i x : gal_shape g i → Forall (λ r, length r = i) x → gal_widths g x.
Proof.
  intros [[b Hs] Ha] Hx. split.
  - by destruct Hs as [-> _].
  - apply Forall_fmap, Forall_forall. intros r _. simpl. rewrite (linear_shape_width _ _ _ _ _ Hs). lia.
Qed.

(** C28: with exactly one edge, [torch.mm(a_input, self.a).squeeze()] is a
    0-d tensor and [e[count]] at line 76 raises [IndexError]: a layer of
    the shapes of its constructor fails on every graph with one edge
    whose features have [in_features] columns. *)
Theorem gal_one_edge_raises g i x e :
  gal_shape g i → Forall (λ r, length r = i) x → gal_forward g x [e] = inl IndexError.
Proof. intros Hs Hx. apply gal_forward_one_edge. by apply (gal_shape_widths _ i). Qed.

Lemma gal_forward_inr g x ei out :
  gal_forward g x ei = inr out →
  gal_widths g x ∧ indices_ok (length x) ei = true ∧ length ei ≠ 1 ∧
  ∃ cs, attention g (linear (gal_linear g) <$> x) ei.*1 ei.*2 = inr cs ∧
    propagate g (linear (gal_linear g) <$> x) ei (Some ((λ n, [n]) <$> cs)) = inr out.
Proof.
  intros E. assert (gal_widths g x) as Hw.
  { unfold gal_forward in E. destruct (linear_rows _ x) as [err|x'] eqn:El; [by rewrite res_bind_inl in E|].
    apply linear_rows_inr in El as [-> Hw]. rewrite res_bind_inr in E. cbv beta zeta in E.
    destruct (indices_ok _ _); cbn [negb] in E; [|done].
    case_bool_decide; [done|]. done. }
  destruct (indices_ok (length x) ei) eqn:Hi.
  2:{ unfold gal_forward in E. rewrite linear_rows_ok in E by apply Hw. rewrite res_bind_inr in E.
      cbv beta zeta in E. by rewrite length_fmap, Hi in E. }
  destruct (decide (length ei = 1)) as [Hl|Hl].
  { destruct ei as [|e [|]]; simpl in Hl; try lia. by rewrite gal_forward_one_edge in E. }
  rewrite gal_forward_unfold in E by done. split_and!; [done|done|done|]. by apply res_bind_inr_inv in E.
Qed.

(** ** Python floats: [OverflowError] and [ZeroDivisionError] *)

(** Line 83 raises for edge [k] with score [v]: [math.exp] overflows on
    [v], or overflows or returns [0.0] on the sum [e_all[col[k]]]. *)
Definition raises_at (col : list nat) (e_all : vec) (k : nat) (v : num) : Prop :=
  (∃ r, v = Fin r ∧ float_overflow <= exp r)%R ∨
  (∃ r, e_all !!! (col !!! k) = Fin r ∧ (float_overflow <= exp r ∨ exp r <= float_underflow))%R.

(** Line 83 raises exactly in those cases, and only [OverflowError] or
    [ZeroDivisionError]. *)
Lemma coefficient_inl col s i v err :
  coefficient col s i v = inl err → (err = OverflowError ∨ err = ZeroDivisionError) ∧ raises_at col s i v.
Proof.
  unfold coefficient, raises_at. intros [E|(n & _ & E)]%res_bind_inl_inv.
  { apply py_exp_inl_inv in E as [-> ?]. split; by left. }
  apply res_bind_inl_inv in E as [E|(d & Ed & E)].
  { apply py_exp_inl_inv in E as [-> (r & Hr & ?)]. split; [by left|right; eauto]. }
  apply py_truediv_inl_inv in E as [-> ->]. apply py_exp_zero_inv in Ed as (r & Hr & ?).
  split; [by right|right; eauto].
Qed.

Lemma coefficient_raises col s i v : raises_at col s i v → ∃ err, coefficient col s i v = inl err.
Proof.
  unfold coefficient. intros [(r & -> & Hr)|(r & Hs & Hr)].
  { rewrite py_exp_overflow by done. eauto. }
  destruct (py_exp v) as [err|n]; [eauto|]. rewrite res_bind_inr, Hs.
  destruct Hr as [Hr|Hr]; [rewrite py_exp_overflow by done; eauto|].
  rewrite py_exp_underflow, res_bind_inr, py_truediv_zero by done. eauto.
Qed.

(** The reference loop fails exactly when one coefficient does. *)
Lemma coefficients_inl col s i l err :
  coefficients col s i l = inl err →
  (err = OverflowError ∨ err = ZeroDivisionError) ∧ ∃ k v, l !! k = Some v ∧ raises_at col s (i + k) v.
Proof.
  revert i. induction l as [|v l IH]; intros i; [done|]. cbn [coefficients].
  intros [E|(c & _ & E)]%res_bind_inl_inv.
  - apply coefficient_inl in E as [? ?]. split; [done|]. exists 0, v. by rewrite Nat.add_0_r.
  - apply res_bind_inl_inv in E as [E|(cs & _ & E)]; [|done].
    apply IH in E as [? (k & w & ? & ?)]. split; [done|]. exists (S k), w.
    by replace (i + S k) with (S i + k) by lia.
Qed.

Lemma coefficients_raises col s i l k v :
  l !! k = Some v → raises_at col s (i + k) v → ∃ err, coefficients col s i l = inl err.
Proof.
  revert i k. induction l as [|w l IH]; intros i [|k] Hk Hr; try done; cbn [coefficients].
  - injection Hk as ->. rewrite Nat.add_0_r in Hr. destruct (coefficient_raises _ _ _ _ Hr) as [err ->]. eauto.
  - destruct (coefficient col s i w) as [err|c]; [eauto|]. rewrite res_bind_inr.
    destruct (IH (S i) k Hk) as [err ->]; [by replace (S i + k) with (i + S k) by lia|]. eauto.
Qed.

Lemma coefficients_length col s i l cs : coefficients col s i l = inr cs → length cs = length l.
Proof.
  revert i cs. induction l as [|v l IH]; intros i cs; cbn [coefficients]; [by intros [= <-]|].
  intros (c & _ & E)%res_bind_inr_inv. apply res_bind_inr_inv in E as (cs' & E & [= <-]).
  simpl. f_equal. by eapply IH.
Qed.

(** With one coefficient per edge [propagate] returns. *)
Lemma propagate_norm_ok g x ei cs :
  indices_ok (length x) ei = true → length cs = length ei →
  ∃ out, propagate g x ei (Some ((λ n, [n]) <$> cs)) = inr out.
Proof.
  intros Hi Hl. unfold propagate. rewrite Hi. cbn [attr_rows_ok].
  rewrite length_fmap, Hl, Nat.eqb_refl. by eexists.
Qed.

(** C39: on Python floats the normalisation of line 83 decides whether
    the layer returns.  For a layer of the shapes of its constructor, on
    features with [in_features] columns, edge indices in range and other
    than exactly one edge (the cases where an earlier line raises),
    [GAL.forward] raises exactly when some edge [k] has a score [e[k]]
    whose [math.exp] overflows (above about [709.78]), or a source node
    whose score sum [e_all[col[k]]] overflows or is so negative (below
    about [-745.13]) that [math.exp] returns [0.0] and the division
    raises; the exception is then [OverflowError] or
    [ZeroDivisionError].  Otherwise it returns. *)
Theorem gal_float_errors g i x ei :
  gal_shape g i → Forall (λ r, length r = i) x →
  indices_ok (length x) ei = true → length ei ≠ 1 →
  match gal_forward g x ei with
  | inl err =>
      (err = OverflowError ∨ err = ZeroDivisionError) ∧
      ∃ k v, scores g (linear (gal_linear g) <$> x) ei.*1 ei.*2 !! k = Some v ∧
        raises_at ei.*1 (score_sums (length x) ei.*1 (scores g (linear (gal_linear g) <$> x) ei.*1 ei.*2)) k v
  | inr _ =>
      ∀ k v, scores g (linear (gal_linear g) <$> x) ei.*1 ei.*2 !! k = Some v →
        ¬ raises_at ei.*1 (score_sums (length x) ei.*1 (scores g (linear (gal_linear g) <$> x) ei.*1 ei.*2)) k v
  end.
Proof.
  intros Hs Hx Hi Hl. rewrite gal_forward_unfold by (done || by apply (gal_shape_widths _ i)).
  unfold attention. rewrite length_fmap, normalise_coefficients.
  destruct (coefficients _ _ 0 _) as [err|cs] eqn:E.
  - rewrite res_bind_inl. cbv beta iota. by apply coefficients_inl in E.
  - rewrite res_bind_inr.
    destruct (propagate_norm_ok g (linear (gal_linear g) <$> x) ei cs) as [out ->].
    { by rewrite length_fmap. }
    { apply coefficients_length in E. rewrite E. unfold scores. by rewrite length_fmap, length_edge_scores. }
    cbv beta iota. intros k v Hk Hr. destruct (coefficients_raises _ _ 0 _ k v Hk Hr) as [err' E']. congruence.
Qed.

(** ** Zero scores: the coefficients are not normalised *)

Lemma foldl_nadd_zeros l : Forall (λ w, w = nzero) l → foldl nadd nzero l = nzero.
Proof. induction 1 as [|w l -> _ IH]; [done|]. cbn [foldl]. by rewrite nadd_0_l. Qed.

Lemma dot_zeros_r z w : vfin (λ _, True) z → Forall (λ v, v = nzero) w → dot z w = nzero.
Proof.
  intros Hz Hw. apply foldl_nadd_zeros.
  apply (Forall_zip_with _ _ _ _ _ _ Hz Hw). intros u v (r & -> & _) ->.
  unfold nmul, nlift2, nzero. by rewrite Rmult_0_r.
Qed.

Lemma dot_zeros_l z w : Forall (λ v, v = nzero) z → vfin (λ _, True) w → dot z w = nzero.
Proof.
  intros Hz Hw. apply foldl_nadd_zeros.
  apply (Forall_zip_with _ _ _ _ _ _ Hz Hw). intros u v -> (r & -> & _).
  unfold nmul, nlift2, nzero. by rewrite Rmult_0_l.
Qed.

(** The rows [cat(x[row], x[col])] inherit what holds of every entry of
    [x] (also of the default row [[]] out of range). *)
Lemma edge_rows_Forall (P : num → Prop) x col row :
  Forall (Forall P) x → Forall (Forall P) (zip_with (λ r c, x !!! r ++ x !!! c) row col).
Proof.
  intros Hx. apply Forall_forall. intros z Hz. apply elem_of_lookup_zip_with in Hz as (k & r & c & -> & _).
  apply Forall_app. split; apply Forall_lookup_total; auto using Forall_nil.
Qed.

(** All scores vanish when [self.a] or the features do. *)
Lemma edge_scores_zero g x col row :
  (Forall (λ w, w = nzero) (a g) ∧ Forall (λ r, vfin (λ _, True) r) x) ∨
  (vfin (λ _, True) (a g) ∧ Forall (Forall (λ w, w = nzero)) x) →
  Forall (λ v, v = nzero) (edge_scores g x col row).
Proof.
  intros [[Ha Hx]|[Ha Hx]]; unfold edge_scores; apply Forall_fmap;
    eapply Forall_impl; try apply (edge_rows_Forall _ _ col row Hx); intros z Hz; simpl.
  - by apply dot_zeros_r.
  - by apply dot_zeros_l.
Qed.

Lemma score_sums_zero N col e :
  Forall (λ v, v = nzero) e → Forall (λ v, v = nzero) (score_sums N col e).
Proof.
  intros He. unfold score_sums.
  assert (Forall (λ v, v = nzero) (replicate N nzero)) as Hacc by (by apply Forall_replicate).
  revert col He Hacc. generalize (replicate N nzero) as acc.
  induction e as [|v e IH]; intros acc [|c col] He Hacc; simpl; [done..|].
  apply Forall_cons in He as [Hv He]. apply IH; [done|].
  apply Forall_alter; [done|]. intros w _ ->. simpl. rewrite Hv. apply nadd_0_l.
Qed.

(** [math.exp(0.0) / math.exp(0.0) = 1.0], for every edge. *)
Lemma coefficients_zero col s i l :
  Forall (λ v, v = nzero) s → Forall (λ v, v = nzero) l →
  coefficients col s i l = inr (replicate (length l) (Fin 1)).
Proof.
  intros Hs Hl. revert i. induction Hl as [|v l -> _ IH]; intros i; [done|]. cbn [coefficients].
  unfold coefficient. rewrite py_exp_0, res_bind_inr.
  rewrite (@Forall_lookup_total _ num_inhabited _ _ _ Hs eq_refl), py_exp_0, res_bind_inr, py_truediv_1.
  by rewrite res_bind_inr, IH.
Qed.

Lemma attention_zero g x col row :
  Forall (λ v, v = nzero) (edge_scores g x col row) →
  attention g x col row = inr (replicate (length (edge_scores g x col row)) (Fin 1)).
Proof.
  intros Hs. unfold attention, scores. rewrite normalise_coefficients.
  assert (Forall (λ v, v = nzero) (leaky_relu <$> edge_scores g x col row)) as He.
  { apply Forall_fmap. eapply Forall_impl; [exact Hs|]. intros v ->. apply leaky_relu_zero. }
  rewrite coefficients_zero; [by rewrite length_fmap|by apply score_sums_zero|done].
Qed.

Lemma zip_replicate {A B} (l : list A) (b : B) : zip l (replicate (length l) b) = (λ x, (x, b)) <$> l.
Proof. induction l as [|x l IH]; [done|]. simpl. by rewrite IH. Qed.

Lemma fmap_nmul_1 (v : vec) : vfin (λ _, True) v → nmul (Fin 1) <$> v = v.
Proof. induction 1 as [|w v Hw _ IH]; [done|]. rewrite fmap_cons, IH. by rewrite nmul_1_l. Qed.

(** Every edge with coefficient [1]: the messages into [i] are the
    features of its sources. *)
Lemma edge_messages_unit g x ei i :
  Forall (λ r, vfin (λ _, True) r) x →
  snd <$> filter (λ im, im.1 = i) (edge_messages g x ei (Some ((λ n, [n]) <$> replicate (length ei) (Fin 1)))) =
  (λ e, x !!! e.1) <$> filter (λ e, e.2 = i) ei.
Proof.
  intros Hx. rewrite edge_messages_fmap. unfold edge_attrs.
  rewrite fmap_replicate, zip_fmap_Some, zip_replicate.
  induction ei as [|e ei IH]; [done|]. rewrite !fmap_cons.
  destruct (decide (e.2 = i)) as [He|He].
  - rewrite !filter_cons_True by done. rewrite !fmap_cons, IH. f_equal. simpl.
    apply fmap_nmul_1. by apply Forall_lookup_total.
  - by rewrite !filter_cons_False.
Qed.

(** C29: with a zero attention vector [self.a], every coefficient
    [exp(e) / exp(e_all)] is [exp(0) / exp(0) = 1], so the output row of
    node [i] is the plain sum of [self.linear(x_j)] over the edges
    [j -> i]: a node with [d] incoming edges gets weights summing to [d].
    The code's normalisation divides by [exp] of the SUM of the scores,
    not by the sum of their [exp]s, so it is not the softmax the comment
    of line 72 announces. *)
Theorem gal_zero_attention_sum g x ei out i :
  Forall (λ w, w = nzero) (a g) →
  Forall (λ r, vfin (λ _, True) r) (linear (gal_linear g) <$> x) →
  gal_forward g x ei = inr out → i < length x →
  out !! i = Some (foldl vadd (zeros_vec (out_featrues g))
                    ((λ e, (linear (gal_linear g) <$> x) !!! e.1) <$> filter (λ e, e.2 = i) ei)).
Proof.
  intros Ha Hx (_ & _ & _ & cs & Hcs & Hp)%gal_forward_inr Hi.
  rewrite attention_zero, length_edge_scores in Hcs by (apply edge_scores_zero; by left).
  injection Hcs as <-.
  rewrite (propagate_row _ _ _ _ _ i Hp) by (by rewrite length_fmap).
  by rewrite edge_messages_unit.
Qed.

(** ** The shape of a fresh layer's output *)

(** Every message of [GAL] is as wide as the source row it scales. *)
Lemma gal_messages_width g x ei ea c :
  indices_ok (length x) ei = true → Forall (λ r, length r = c) x →
  Forall (λ im, c ≤ length im.2) (edge_messages g x ei ea).
Proof.
  intros Hi Hx. apply bool_decide_eq_true in Hi. unfold edge_messages.
  apply (Forall_zip_with _ _ (λ _, True) _ _ _ Hi (Forall_true _ _ (λ _, I))).
  intros [j i] o [Hj _] _. simpl in *.
  assert (length (x !!! j) = c) as Hl.
  { apply (Forall_lookup_1 (λ r, length r = c) x j); [exact Hx|]. by apply list_lookup_lookup_total_lt. }
  destruct o; simpl; rewrite ?length_fmap; lia.
Qed.

Lemma GAL_init_shape `{RandomSource G} (rng : G) i o :
  linear_shape (gal_linear (GAL_init rng i o).1) i o true ∧ out_featrues (GAL_init rng i o).1 = o.
Proof.
  unfold GAL_init. destruct (draw_uniform _ _ _ _ _) as [am rng1].
  pose proof (draw_linear_shape rng1 i o true) as Hs.
  destruct (draw_linear rng1 i o true) as [L rng2]. by split.
Qed.

(** C30: a layer built by [GAL(in_features, out_featrues)] maps an
    [n]-row feature matrix to an [n x out_featrues] matrix, whatever the
    graph, whenever [forward] returns. *)
Theorem GAL_init_forward_shape `{RandomSource G} (rng : G) i o x ei y :
  gal_forward (GAL_init rng i o).1 x ei = inr y →
  length y = length x ∧ Forall (λ r, length r = o) y.
Proof.
  destruct (GAL_init_shape rng i o) as [Hs Ho].
  intros (_ & Hi & _ & cs & _ & E)%gal_forward_inr. split.
  - rewrite (propagate_length _ _ _ _ _ E). apply length_fmap.
  - rewrite <-Ho. eapply (propagate_width _ _ _ _ _ E). simpl. rewrite Ho.
    apply gal_messages_width; [by rewrite length_fmap|].
    apply Forall_fmap, Forall_forall. intros r _. by eapply linear_shape_length.
Qed.

(** A [Linear] with zero weights and bias sends finite rows to zeros. *)
Lemma linear_zeros L v :
  Forall (Forall (λ w, w = nzero)) (weight L) → from_option (Forall (λ w, w = nzero)) True (bias L) →
  vfin (λ _, True) v → Forall (λ w, w = nzero) (linear L v).
Proof.
  intros Hw Hb Hv. unfold linear.
  assert (Forall (λ w, w = nzero) ((λ w, dot w v) <$> weight L)) as Hy.
  { apply Forall_fmap. eapply Forall_impl; [exact Hw|]. intros w Hw'. by apply dot_zeros_l. }
  destruct (bias L) as [b|]; [|done]. apply (Forall_zip_with _ _ _ _ _ _ Hy Hb).
  intros u w -> ->. apply nadd_0_l.
Qed.

(** ** Witnesses *)

Module GALDemo.
(** One feature, the identity as [self.linear], a zero attention vector. *)
Definition g : GAL := mkGAL [nzero; nzero] (mkLinear 1 [[Fin 1]] None) 1.
Definition x : mat := [[Fin 1]; [Fin 2]; [Fin 3]].
(** Nodes 1 and 2 both send to node 0. *)
Definition ei : list (nat * nat) := [(1, 0); (2, 0)].
(** The same layer with [self.a = [1000, 0]]: edge [1 -> 0] scores
    [1000 * x'[0] = 1000]. *)
Definition g_hot : GAL := mkGAL [Fin 1000; nzero] (mkLinear 1 [[Fin 1]] None) 1.
End GALDemo.

Lemma GALDemo_x_finite : Forall (λ r, vfin (λ _, True) r) GALDemo.x.
Proof. repeat econstructor. Qed.

Lemma GALDemo_finite : Forall (λ r, vfin (λ _, True) r) (linear (gal_linear GALDemo.g) <$> GALDemo.x).
Proof. repeat constructor. all: eexists; split; [reflexivity|exact I]. Qed.

(** The guards of [GAL.forward] on a concrete layer and graph. *)
Ltac gal_guards := first [reflexivity | discriminate | split; cbn; repeat constructor].

Lemma GALDemo_runs : ∃ out, gal_forward GALDemo.g GALDemo.x GALDemo.ei = inr out.
Proof.
  rewrite gal_forward_unfold by gal_guards.
  rewrite attention_zero by (apply edge_scores_zero; left; split; [repeat constructor|apply GALDemo_finite]).
  eexists. reflexivity.
Qed.

Lemma gal_zero_attention_sum_witness :
  ∃ out, gal_forward GALDemo.g GALDemo.x GALDemo.ei = inr out ∧
    out !! 0 = Some (foldl vadd (zeros_vec 1)
                 ((λ e, (linear (gal_linear GALDemo.g) <$> GALDemo.x) !!! e.1) <$>
                    filter (λ e, e.2 = 0) GALDemo.ei)).
Proof.
  destruct GALDemo_runs as [out Hout]. exists out. split; [exact Hout|].
  apply (gal_zero_attention_sum GALDemo.g GALDemo.x GALDemo.ei);
    [repeat constructor|apply GALDemo_finite|exact Hout|simpl; lia].
Defined.

(** Both demo layers have the shapes of [GAL(1, 1)]. *)
Lemma GALDemo_shape : gal_shape GALDemo.g 1.
Proof. split; [exists false; split_and!; cbn; [done|done|repeat constructor|done]|done]. Qed.

Lemma GALDemo_hot_shape : gal_shape GALDemo.g_hot 1.
Proof. split; [exists false; split_and!; cbn; [done|done|repeat constructor|done]|done]. Qed.

(** A single edge [1 -> 0] on the demo graph. *)
Lemma gal_one_edge_raises_witness :
  gal_shape GALDemo.g 1 ∧ gal_forward GALDemo.g GALDemo.x [(1, 0)] = inl IndexError.
Proof.
  split; [exact GALDemo_shape|]. apply (gal_one_edge_raises GALDemo.g 1); [exact GALDemo_shape|repeat constructor].
Defined.

Lemma GALDemo_hot_score :
  scores GALDemo.g_hot (linear (gal_linear GALDemo.g_hot) <$> GALDemo.x) GALDemo.ei.*1 GALDemo.ei.*2 !! 0
  = Some (Fin 1000).
Proof.
  cbv [scores edge_scores linear dot GALDemo.g_hot GALDemo.x GALDemo.ei a gal_linear weight bias].
  cbn. destruct (Rlt_dec _ _); do 2 f_equal; lra.
Qed.

Lemma gal_float_errors_witness :
  ∃ err, gal_forward GALDemo.g_hot GALDemo.x GALDemo.ei = inl err ∧ (err = OverflowError ∨ err = ZeroDivisionError).
Proof.
  pose proof (gal_float_errors GALDemo.g_hot 1 GALDemo.x GALDemo.ei GALDemo_hot_shape
                ltac:(repeat constructor) eq_refl ltac:(discriminate)) as H.
  revert H. destruct (gal_forward GALDemo.g_hot GALDemo.x GALDemo.ei) as [err|out]; intros H.
  - exists err. split; [reflexivity|apply H].
  - exfalso. apply (H 0 (Fin 1000) GALDemo_hot_score). left. exists 1000%R. split; [reflexivity|exact exp_1000_overflows].
Defined.

(** [GAL(1, 1)] drawn from [zero_source]: zero weights and bias, so
    every score is [0] and the layer returns. *)
Lemma GAL_init_runs : ∃ y, gal_forward (GAL_init (G:=unit) tt 1 1).1 GALDemo.x GALDemo.ei = inr y.
Proof.
  rewrite gal_forward_unfold by gal_guards.
  rewrite attention_zero; [eexists; reflexivity|].
  apply edge_scores_zero. right. split.
  - cbn. repeat econstructor.
  - apply Forall_fmap. eapply Forall_impl; [exact GALDemo_x_finite|]. intros r Hr.
    apply linear_zeros; [cbn; repeat constructor..|exact Hr].
Qed.

Lemma GAL_init_forward_shape_witness :
  ∃ y, gal_forward (GAL_init (G:=unit) tt 1 1).1 GALDemo.x GALDemo.ei = inr y ∧
    length y = 3 ∧ Forall (λ r, length r = 1) y.
Proof.
  destruct GAL_init_runs as [y Hy]. exists y. split; [exact Hy|].
  apply (GAL_init_forward_shape (G:=unit) tt 1 1 GALDemo.x GALDemo.ei). exact Hy.
Defined.
