(* ===== verification/GALOrder.v ===== *)
(** * [GAL.forward] and the order of the edges (lines 50-89 of [graph_neural_network.py])

    [GAL.forward] reads the edges in the order of the columns of
    [edge_index]: the scores (line 63), the sums of line 76 and the
    in-place loop of line 83 all run over that order.  When the layer
    returns, the order does not matter: the sums add the same scores,
    every coefficient depends on its own edge and on the sum of its
    source only, and [propagate] adds the messages in any order
    ([gal_forward_edge_order]).  When it raises, the loop of line 83
    stops at the first edge that raises, so which exception comes out
    depends on the order ([gal_error_depends_on_order]).

    [edge_score] and [coef_at] state the per-edge work of [GAL] edge by
    edge; [scores_edge_score] and [attention_edges] show that the
    definitions of [GAL] compute them. *)

From Stdlib Require Import Reals Lra.
From S2P Require Import Prelude Num Tensor GAL.

(** The score of one edge [(col, row)]: lines 58, 63 and 67 on one column
    of [edge_index]. *)
Definition edge_score (g : GAL) (x : mat) (e : nat * nat) : num :=
  leaky_relu (dot (x !!! e.2 ++ x !!! e.1) (a g)).

(** Line 83 for an edge with source [src] and score [v]. *)
Definition coef_at (s : vec) (src : nat) (v : num) : res num :=
  n ← py_exp v; d ← py_exp (s !!! src); py_truediv n d.

(** The sum of the scores of the edges leaving node [c], added in the
    order of the edges. *)
Definition source_sum (g : GAL) (x : mat) (ei : list (nat * nat)) (c : nat) : num :=
  foldl nadd nzero (edge_score g x <$> filter (λ e, e.1 = c) ei).

(** The weight line 83 gives an edge with score [s] whose source has
    score sum [S], when it does not raise: [exp(s - S)], or [0.0] when
    [math.exp(s)] underflows; NaN when either is NaN. *)
Definition gal_weight (s tot : num) : num :=
  match s, tot with
  | Fin s, Fin t => Fin (if Rle_dec (exp s) float_underflow then 0 else exp (s - t))
  | _, _ => NaN
  end.

(** ** The work of [GAL], edge by edge *)

Lemma scores_edge_score g x ei : scores g x ei.*1 ei.*2 = edge_score g x <$> ei.
Proof.
  unfold scores, edge_scores. induction ei as [|e ei IH]; [done|].
  rewrite !fmap_cons. cbn [zip_with]. rewrite !fmap_cons. f_equal. exact IH.
Qed.

Lemma score_sums_edges N ei (f : nat * nat → num) :
  score_sums N ei.*1 (f <$> ei) = foldl (λ acc e, alter (λ s, nadd s (f e)) e.1 acc) (replicate N nzero) ei.
Proof.
  unfold score_sums. generalize (replicate N nzero). induction ei as [|e ei IH]; intros acc; [done|].
  apply IH.
Qed.

(** Two additions into [e_all] commute, at one index or at two. *)
Lemma alter_nadd_comm (acc : vec) i j u v :
  alter (λ s, nadd s v) j (alter (λ s, nadd s u) i acc) =
  alter (λ s, nadd s u) i (alter (λ s, nadd s v) j acc).
Proof.
  destruct (decide (i = j)) as [->|Hij].
  - rewrite !list_alter_alter_eq. apply list_alter_ext; [|done]. intros s _. simpl.
    by rewrite <-!nadd_assoc, (nadd_comm u v).
  - apply list_alter_alter_ne. congruence.
Qed.

(** The sums of line 76 do not depend on the order of the edges. *)
Lemma score_sums_perm N ei ei' (f : nat * nat → num) :
  ei ≡ₚ ei' → score_sums N ei.*1 (f <$> ei) = score_sums N ei'.*1 (f <$> ei').
Proof.
  intros Hp. rewrite !score_sums_edges. apply foldl_comm_perm; [|done].
  intros acc e1 e2. apply alter_nadd_comm.
Qed.

Lemma coefficients_edges s pre ei (f : nat * nat → num) :
  coefficients (pre ++ ei).*1 s (length pre) (f <$> ei) = mapM (λ e, coef_at s e.1 (f e)) ei.
Proof.
  revert pre. induction ei as [|e ei IH]; intros pre; [done|]. rewrite fmap_cons. cbn [coefficients mapM].
  assert (coefficient (pre ++ e :: ei).*1 s (length pre) (f e) = coef_at s e.1 (f e)) as ->.
  { assert ((pre ++ e :: ei).*1 !!! length pre = e.1) as He.
    { rewrite fmap_app, fmap_cons, list_lookup_total_alt, list_lookup_middle; [done|]. by rewrite length_fmap. }
    unfold coefficient, coef_at. by rewrite He. }
  replace (pre ++ e :: ei) with ((pre ++ [e]) ++ ei) by by rewrite <-app_assoc.
  replace (S (length pre)) with (length (pre ++ [e])) by (rewrite length_app; simpl; lia).
  by rewrite IH.
Qed.

(** The coefficients of line 83 are a [mapM] over the edges, with the
    sums of line 76 computed in any order [ei']. *)
Lemma attention_edges g x ei ei' :
  ei ≡ₚ ei' →
  attention g x ei.*1 ei.*2 =
  mapM (λ e, coef_at (score_sums (length x) ei'.*1 (edge_score g x <$> ei')) e.1 (edge_score g x e)) ei.
Proof.
  intros Hp. unfold attention. rewrite normalise_coefficients, scores_edge_score, (score_sums_perm _ ei ei') by done.
  apply (coefficients_edges _ [] ei).
Qed.

Lemma zip_fmap_r {A B C} (l : list A) (k : list B) (h : B → C) :
  zip l (h <$> k) = (λ p, (p.1, h p.2)) <$> zip l k.
Proof. revert k. induction l as [|e l IH]; intros [|b k]; [done..|]. simpl. by rewrite IH. Qed.

(** ** The weights in closed form *)

(** Entry [c] of [e_all] after the loop of lines 73-77 is the sum of the
    scores of the edges leaving [c]. *)
Lemma score_sums_lookup N ei (f : nat * nat → num) c :
  c < N → score_sums N ei.*1 (f <$> ei) !!! c = foldl nadd nzero (f <$> filter (λ e, e.1 = c) ei).
Proof.
  intros Hc. rewrite score_sums_edges.
  assert (∀ acc, c < length acc → foldl (λ acc e, alter (λ s, nadd s (f e)) e.1 acc) acc ei !!! c =
                                  foldl nadd (acc !!! c) (f <$> filter (λ e, e.1 = c) ei)) as H.
  { induction ei as [|e ei IH]; intros acc Hl; [done|]. cbn [foldl]. rewrite IH by (by rewrite length_alter).
    rewrite filter_cons. rewrite !list_lookup_total_alt, list_lookup_alter.
    destruct (lookup_lt_is_Some_2 acc c Hl) as [v Hv]. rewrite Hv.
    case_decide as He; simpl; [|done]. by rewrite He, Hv. }
  rewrite H by (by rewrite length_replicate). by rewrite lookup_total_replicate_2.
Qed.

(** The exceptions of [math.exp] and of the division set apart, line 83
    computes [gal_weight]. *)
Lemma coef_at_weight s src v c : coef_at s src v = inr c → c = gal_weight v (s !!! src).
Proof.
  unfold coef_at, gal_weight. intros (n & En & (d & Ed & Ec)%res_bind_inr_inv)%res_bind_inr_inv.
  destruct v as [r|]; unfold py_exp in En.
  - destruct (Rle_dec float_overflow (exp r)); [done|].
    destruct (s !!! src) as [t|]; unfold py_exp in Ed; [|injection Ed as <-; by injection Ec as <-].
    destruct (Rle_dec float_overflow (exp t)); [done|].
    destruct (Rle_dec (exp t) float_underflow); injection Ed as <-; [by rewrite py_truediv_zero in Ec|].
    unfold py_truediv in Ec. destruct (Req_EM_T (exp t) 0) as [H0|_]; [pose proof (exp_pos t); lra|].
    injection Ec as <-. destruct (Rle_dec (exp r) float_underflow); injection En as <-; f_equal.
    + unfold Rdiv. lra.
    + unfold Rminus. rewrite exp_plus, exp_Ropp. done.
  - injection En as <-. destruct (s !!! src) as [t|]; unfold py_exp in Ed; [|injection Ed as <-; by injection Ec as <-].
    destruct (Rle_dec float_overflow (exp t)); [done|].
    destruct (Rle_dec (exp t) float_underflow); injection Ed as <-; [by rewrite py_truediv_zero in Ec|].
    unfold py_truediv in Ec. destruct (Req_EM_T (exp t) 0); [done|]. by injection Ec as <-.
Qed.

(** With coefficient [h e] on every edge [e], the messages into [i] are
    the source rows scaled by their coefficients. *)
Lemma gal_messages_into g x ei cs (h : nat * nat → num) i :
  Forall2 (λ e c, c = h e) ei cs →
  snd <$> filter (λ im, im.1 = i) (edge_messages g x ei (Some ((λ n, [n]) <$> cs))) =
  (λ e, nmul (h e) <$> x !!! e.1) <$> filter (λ e, e.2 = i) ei.
Proof.
  rewrite edge_messages_fmap. unfold edge_attrs. induction 1 as [|e c ei cs -> _ IH]; [done|].
  cbn [fmap list_fmap zip zip_with]. rewrite !filter_cons. cbn [fst].
  case_decide; [|done]. rewrite !fmap_cons, IH. cbn [snd mp_message GAL_MessagePassing gal_message]. change ([h e] !!! 0) with (h e). f_equal. f_equal. by rewrite list_lookup_total_alt.
Qed.

(** C27: what [GAL.forward] computes, in closed form.  When it returns,
    row [i] of the output is the sum, over the edges [j -> i] in order,
    of [self.linear(x)[j]] scaled by [exp(s - S)], where [s] is the score
    of the edge and [S] the sum of the scores of ALL the edges leaving
    [j] (its own included); [0.0] replaces the weight when [math.exp(s)]
    underflows.  The weights of the edges into a node need not sum to
    [1]: the code divides by [exp] of a sum, not by a sum of [exp]s. *)
Theorem gal_forward_reference g x ei out i :
  gal_forward g x ei = inr out → i < length x →
  let x' : mat := linear (gal_linear g) <$> x in
  out !! i = Some (foldl vadd (zeros_vec (out_featrues g))
                    ((λ e, nmul (gal_weight (edge_score g x' e) (source_sum g x' ei e.1)) <$> x' !!! e.1) <$>
                       filter (λ e, e.2 = i) ei)).
Proof.
  intros (_ & Hind & _ & cs & Hcs & Hp)%gal_forward_inr Hi x'.
  rewrite (propagate_row _ _ _ _ _ i Hp) by (by rewrite length_fmap). do 3 f_equal.
  rewrite (attention_edges _ _ ei ei (reflexivity _)) in Hcs. apply mapM_res_Forall2 in Hcs.
  apply gal_messages_into. apply bool_decide_eq_true in Hind.
  apply Forall2_same_length_lookup. split; [exact (Forall2_length _ _ _ Hcs)|].
  intros k e c Ek Ec. pose proof (Forall2_lookup_lr _ _ _ _ _ _ Hcs Ek Ec) as Hc.
  apply coef_at_weight in Hc as ->. unfold source_sum. rewrite score_sums_lookup; [done|].
  rewrite length_fmap. exact (proj1 (Forall_lookup_1 _ _ _ _ Hind Ek)).
Qed.

Lemma gal_forward_reference_witness :
  ∃ out, gal_forward GALDemo.g GALDemo.x GALDemo.ei = inr out ∧
    let x' : mat := linear (gal_linear GALDemo.g) <$> GALDemo.x in
    out !! 0 = Some (foldl vadd (zeros_vec (out_featrues GALDemo.g))
                      ((λ e, nmul (gal_weight (edge_score GALDemo.g x' e) (source_sum GALDemo.g x' GALDemo.ei e.1))
                               <$> x' !!! e.1) <$> filter (λ e, e.2 = 0) GALDemo.ei)).
Proof.
  destruct GALDemo_runs as [out Hout]. exists out. split; [exact Hout|].
  exact (gal_forward_reference GALDemo.g GALDemo.x GALDemo.ei out 0 Hout ltac:(simpl; lia)).
Defined.

(** ** The order of the edges *)

(** C35: reordering the columns of [edge_index] does not change what
    [GAL.forward] returns: when it returns on [ei], it returns the same
    output on every permutation [ei'] of [ei].  By symmetry it returns on
    [ei] exactly when it returns on [ei'] (whatever it raises). *)
Theorem gal_forward_edge_order g x ei ei' out :
  ei ≡ₚ ei' → gal_forward g x ei = inr out → gal_forward g x ei' = inr out.
Proof.
  intros Hp (Hw & Hi & Hl & cs & Hcs & Hprop)%gal_forward_inr.
  rewrite gal_forward_unfold; [|done|by rewrite <-(indices_ok_perm _ _ _ Hp)|by rewrite <-(Permutation_length Hp)].
  rewrite (attention_edges _ _ ei ei' Hp) in Hcs. rewrite (attention_edges _ _ ei' ei' (reflexivity _)).
  destruct (mapM_res_perm _ _ _ _ Hp Hcs) as (cs' & Hcs' & Hz). rewrite Hcs', res_bind_inr, <-Hprop.
  symmetry. apply propagate_perm_attr.
  - rewrite length_fmap. by apply mapM_res_length in Hcs.
  - rewrite length_fmap. by apply mapM_res_length in Hcs'.
  - rewrite !zip_fmap_r. by rewrite Hz.
Qed.

Lemma gal_forward_edge_order_witness :
  ∃ out, [(1, 0); (2, 0)] ≡ₚ [(2, 0); (1, 0)] ∧ gal_forward GALDemo.g GALDemo.x GALDemo.ei = inr out ∧
    gal_forward GALDemo.g GALDemo.x [(2, 0); (1, 0)] = inr out.
Proof.
  destruct GALDemo_runs as [out Hout]. exists out.
  assert ([(1, 0); (2, 0)] ≡ₚ [(2, 0); (1, 0)]) as Hp by constructor.
  split_and!; [exact Hp|exact Hout|]. exact (gal_forward_edge_order _ _ _ _ _ Hp Hout).
Defined.

(** ** Which exception: the order decides *)

Module GALOrderDemo.
(** One feature, the identity as [self.linear], [self.a = [0, 1000]]:
    an edge scores [1000 * x'[col]] before [leakyrelu]. *)
Definition g : GAL := mkGAL [nzero; Fin 1000] (mkLinear 1 [[Fin 1]] None) 1.
Definition x : mat := [[Fin 1]; [Fin (-100)]; [Fin 0]].
(** [hot] from node 0 scores [1000]: [math.exp] overflows.  [cold] from
    node 1 scores [-1000] (after [leakyrelu]); node 1 sends no other
    edge, so [e_all[1] = -1000] and [math.exp] of it is [0.0]. *)
Definition hot : nat * nat := (0, 2).
Definition cold : nat * nat := (1, 2).
End GALOrderDemo.

Lemma GALOrderDemo_scores :
  edge_score GALOrderDemo.g (linear (gal_linear GALOrderDemo.g) <$> GALOrderDemo.x) GALOrderDemo.hot = Fin 1000 ∧
  edge_score GALOrderDemo.g (linear (gal_linear GALOrderDemo.g) <$> GALOrderDemo.x) GALOrderDemo.cold = Fin (-1000).
Proof.
  cbv [edge_score linear dot GALOrderDemo.g GALOrderDemo.x GALOrderDemo.hot GALOrderDemo.cold a gal_linear weight bias].
  cbn. split; destruct (Rlt_dec _ _); do 2 f_equal; lra.
Qed.

Example gal_error_depends_on_order :
  gal_forward GALOrderDemo.g GALOrderDemo.x [GALOrderDemo.hot; GALOrderDemo.cold] = inl OverflowError ∧
  gal_forward GALOrderDemo.g GALOrderDemo.x [GALOrderDemo.cold; GALOrderDemo.hot] = inl ZeroDivisionError.
Proof.
  destruct GALOrderDemo_scores as [Hhot Hcold].
  split; rewrite gal_forward_unfold by gal_guards;
    rewrite (attention_edges _ _ _ _ (reflexivity _)); cbn [mapM]; rewrite !fmap_cons, Hhot, Hcold;
    unfold coef_at.
  - rewrite (py_exp_overflow 1000) by apply exp_1000_overflows. by rewrite !res_bind_inl.
  - rewrite (py_exp_underflow (-1000)) by apply exp_minus_1000_underflows. rewrite res_bind_inr.
    match goal with |- context [py_exp (?S !!! ?i)] => assert (S !!! i = Fin (-1000)) as -> by (cbn; f_equal; lra) end.
    rewrite (py_exp_underflow (-1000)) by apply exp_minus_1000_underflows.
    rewrite res_bind_inr, py_truediv_zero. by rewrite !res_bind_inl.
Qed.
