(* ===== verification/Glorot.v ===== *)
(** * [glorot]: Glorot initialisation (lines 25-33 of [graph_neural_network.py])

    [glorot(value)] re-draws a tensor uniformly in [[-stdv, stdv]] with
    [stdv = sqrt(6 / (value.size(-2) + value.size(-1)))]; on anything
    else it calls itself on every tensor of [value.parameters()], then of
    [value.buffers()].  The tensors a module of this file holds have rank
    0, 1 or 2, so [Tensor] tags a value with its rank; [size(-2)] of a
    tensor of rank below 2 raises [IndexError], and [6.0 / 0] raises
    [ZeroDivisionError].  [uniform_] writes into the tensor in place: the
    parameters re-drawn before an exception keep their new values.

    A module is seen through its two lists ([PyModule]); [mygnn_module]
    and [gal_module] list those of the two layers in registration order.
    Every layer with a bias registers a 1-D parameter, so [glorot] on it
    raises after re-drawing the parameters registered before the bias
    ([glorot_mygnn_raises], [glorot_gal_raises]).  A matrix carries its
    number of columns ([in_features] for a [Linear] weight), so that a
    [0 x c] tensor ([self.a] of [GAL(in, 0)], the weight of
    [Linear(in, 0)]) is re-drawn as torch does and only [0 x 0] raises
    [ZeroDivisionError].  [glorot] is called nowhere outside
    comments (line 136). *)

From Stdlib Require Import Reals Lra.
From S2P Require Import Prelude Num Tensor MYGNN GAL.

(** A torch tensor of rank 0, 1 or 2; a matrix keeps its number of
    columns [size(-1)], which its list of rows does not record when it
    has none. *)
Inductive Tensor := T0 (a : num) | T1 (v : vec) | T2 (cols : nat) (m : mat).

(** [value.parameters()] and [value.buffers()] of a module, in the order
    the module registered them. *)
Record PyModule := mkModule { parameters : list Tensor; buffers : list Tensor }.

(** What [glorot] may receive: a tensor, a module, or any other object
    (no [parameters] attribute: the loops run over [[]]). *)
Inductive Value := VTensor (t : Tensor) | VModule (m : PyModule) | VOther.

#[global] Instance Tensor_inhabited : Inhabited Tensor := populate (T0 nzero).

(** [torch.nn.Linear] registers [weight] ([out_features x in_features]),
    then [bias] when [bias=True]. *)
Definition linear_parameters (L : Linear) : list Tensor :=
  T2 (in_features L) (weight L) :: from_option (λ b, [T1 b]) [] (bias L).

(** [BatchNorm1d] registers the parameters [weight], [bias] and the
    buffers [running_mean], [running_var] ([num_batches_tracked], the
    third buffer, is not kept by [BatchNorm1d] here: it only matters when
    [momentum=None]). *)
Definition bn_parameters (b : BatchNorm1d) : list Tensor := [T1 (bn_weight b); T1 (bn_bias b)].
Definition bn_buffers (b : BatchNorm1d) : list Tensor := [T1 (running_mean b); T1 (running_var b)].

(** [MYGNN] registers [line_attention], [line_node], then [bn] (lines
    126-131). *)
Definition mygnn_module (m : MYGNN) : PyModule :=
  mkModule (linear_parameters (line_attention m) ++ linear_parameters (line_node m) ++
            from_option bn_parameters [] (bn m))
           (from_option bn_buffers [] (bn m)).

(** [GAL] registers [a] (shape [2 * out_featrues x 1]), then [linear]
    (lines 43-48). *)
Definition gal_module (g : GAL) : PyModule :=
  mkModule (T2 1 ((λ w, [w]) <$> a g) :: linear_parameters (gal_linear g)) [].

Section Glorot.
Context `{RandomSource G}.

Definition glorot_stdv (r c : nat) : R := sqrt (6 / INR (r + c)).

(** The tensor branch (lines 26-28): the new value of the tensor. *)
Definition glorot_tensor (t : Tensor) : pyst G Tensor :=
  match t with
  | T2 c m =>
      if decide (length m + c = 0) then pyst_raise ZeroDivisionError
      else
        g ← pyst_get;
        let stdv := glorot_stdv (length m) c in
        let '(m', g') := draw_uniform g (- stdv) stdv (length m) c in
        pyst_put g';;
        mret (T2 c m')
  | _ => pyst_raise IndexError
  end.

(** [glorot(v)] on the [i]-th tensor of a list, written back in place. *)
Definition glorot_at (i : nat) : pyst (list Tensor * G) unit :=
  '(ts, _) ← pyst_get;
  t' ← pyst_zoom snd (λ s g, (s.1, g)) (glorot_tensor (ts !!! i));
  '(ts, g) ← pyst_get;
  pyst_put (<[i := t']> ts, g).

(** [for v in ...: glorot(v)] over a list of [n] tensors. *)
Definition glorot_all (n : nat) : pyst (list Tensor * G) unit :=
  foldl (λ m i, _ ← m; glorot_at i) (mret ()) (seq 0 n).

(** The module branch (lines 29-33): parameters, then buffers. *)
Definition glorot_module : pyst (PyModule * G) unit :=
  '(m, _) ← pyst_get;
  pyst_zoom (λ s, (parameters s.1, s.2)) (λ s t, (mkModule t.1 (buffers s.1), t.2))
    (glorot_all (length (parameters m)));;
  pyst_zoom (λ s, (buffers s.1, s.2)) (λ s t, (mkModule (parameters s.1) t.1, t.2))
    (glorot_all (length (buffers m))).

(** [glorot(value)] (lines 25-33). *)
Definition glorot : pyst (Value * G) unit :=
  '(v, _) ← pyst_get;
  match v with
  | VTensor t =>
      t' ← pyst_zoom snd (λ s g, (s.1, g)) (glorot_tensor t);
      '(_, g) ← pyst_get;
      pyst_put (VTensor t', g)
  | VModule m => pyst_zoom (λ s, (m, s.2)) (λ _ t, (VModule t.1, t.2)) glorot_module
  | VOther => mret ()
  end.

(** ** Runs of the tensor branch *)

(** A tensor [glorot] can re-draw: rank 2, not [0 x 0]. *)
Definition redrawable (t : Tensor) : Prop :=
  ∃ c m, t = T2 c m ∧ length m + c ≠ 0.

(** [t'] is a re-draw of [t]: same shape, entries in [[-stdv, stdv]]. *)
Definition redrawn (t t' : Tensor) : Prop :=
  ∃ c m m', t = T2 c m ∧ t' = T2 c m' ∧ length m' = length m ∧
    Forall (λ r, length r = c) m' ∧
    Forall (Forall (fin_with (λ x, - glorot_stdv (length m) c <= x <= glorot_stdv (length m) c)%R)) m'.

Lemma glorot_stdv_nonneg r c : (0 <= glorot_stdv r c)%R.
Proof. apply sqrt_pos. Qed.

Lemma glorot_tensor_redrawn t g :
  redrawable t → ∃ t' g', glorot_tensor t g = (inr t', g') ∧ redrawn t t'.
Proof.
  intros (c & m & -> & Hnz). cbn [glorot_tensor]. rewrite decide_False by done.
  pose proof (draw_uniform_shape g (- glorot_stdv (length m) c) (glorot_stdv (length m) c) (length m) c) as [Hl Hw].
  pose proof (draw_uniform_range g (- glorot_stdv (length m) c) (glorot_stdv (length m) c) (length m) c) as Hr.
  pyst_unfold. destruct (draw_uniform _ _ _ _ _) as [m' g'] eqn:E. simpl in *.
  exists (T2 c m'), g'. split; [reflexivity|]. exists c, m, m'. split_and!; try done.
  apply Hr. pose proof (glorot_stdv_nonneg (length m) c). lra.
Qed.

(** Below rank 2 [value.size(-2)] raises and nothing is drawn. *)
Lemma glorot_tensor_low_rank t g : (∀ c m, t ≠ T2 c m) → glorot_tensor t g = (inl IndexError, g).
Proof. destruct t as [a|v|c m]; [done|done|]. intros Hm. by destruct (Hm c m). Qed.

Lemma glorot_at_run i ts g r g' :
  glorot_tensor (ts !!! i) g = (r, g') →
  glorot_at i (ts, g) = match r with inl e => (inl e, (ts, g')) | inr t' => (inr (), (<[i := t']> ts, g')) end.
Proof.
  intros E. cbv [glorot_at pyst_zoom pyst_get pyst_put mbind pyst_bind fst snd]. cbv beta iota zeta.
  rewrite E. by destruct r.
Qed.

(** ** The loops over [parameters()] and [buffers()] *)

(** The tensors [0 .. k-1] can all be re-drawn. *)
Definition redrawable_prefix (k : nat) (ts : list Tensor) : Prop :=
  ∀ i, i < k → ∃ t, ts !! i = Some t ∧ redrawable t.

(** What [k] iterations leave: tensors [0 .. k-1] re-drawn, the others
    untouched. *)
Definition redrawn_prefix (k : nat) (ts ts' : list Tensor) : Prop :=
  length ts' = length ts ∧ (∀ i, k ≤ i → ts' !! i = ts !! i) ∧
  (∀ i, i < k → redrawn (ts !!! i) (ts' !!! i)).

Lemma redrawn_prefix_step k ts ts' t' :
  redrawn_prefix k ts ts' → k < length ts → redrawn (ts !!! k) t' →
  redrawn_prefix (S k) ts (<[k := t']> ts').
Proof.
  intros (Hl & Hsame & Hre) Hk Ht. split_and!.
  - by rewrite length_insert.
  - intros i Hi. rewrite list_lookup_insert_ne by lia. apply Hsame. lia.
  - intros i Hi. destruct (decide (i = k)) as [->|Hne].
    + rewrite list_lookup_total_insert_eq by lia. done.
    + rewrite list_lookup_total_insert_ne by done. apply Hre. lia.
Qed.

Lemma glorot_all_prefix k ts g :
  redrawable_prefix k ts →
  ∃ ts' g', foldl (λ m i, _ ← m; glorot_at i) (mret ()) (seq 0 k) (ts, g) = (inr (), (ts', g')) ∧
    redrawn_prefix k ts ts'.
Proof.
  induction k as [|k IH]; intros Hp.
  - exists ts, g. split; [done|]. split_and!; [done|done|intros; lia].
  - destruct IH as (ts' & g' & Hrun & Hpre); [intros i Hi; apply Hp; lia|].
    destruct (Hp k) as (t & Ht & Hr); [lia|].
    destruct (glorot_tensor_redrawn t g' Hr) as (t' & g'' & Eg & Hre).
    assert (ts' !!! k = t) as Htk.
    { rewrite list_lookup_total_alt, (proj1 (proj2 Hpre) k) by lia. by rewrite Ht. }
    exists (<[k := t']> ts'), g''. rewrite seq_S, foldl_app. cbn [foldl]. split.
    + rewrite (pyst_bind_inr _ _ _ _ _ Hrun). cbv beta. rewrite Nat.add_0_l. rewrite <-Htk in Eg. by rewrite (glorot_at_run _ _ _ _ _ Eg).
    + apply redrawn_prefix_step; [done|by apply lookup_lt_Some in Ht|].
      rewrite list_lookup_total_alt, Ht. done.
Qed.

(** When tensor [k] has rank below 2, the loop re-draws tensors
    [0 .. k-1], raises [IndexError] at [k], and never reaches the rest. *)
Lemma glorot_all_raise k n ts g t :
  k < n → redrawable_prefix k ts → ts !! k = Some t → (∀ c m, t ≠ T2 c m) →
  ∃ ts' g', glorot_all n (ts, g) = (inl IndexError, (ts', g')) ∧ redrawn_prefix k ts ts'.
Proof.
  intros Hkn Hp Ht Hlow.
  destruct (glorot_all_prefix k ts g Hp) as (ts' & g' & Hrun & Hpre).
  exists ts', g'. split; [|done]. unfold glorot_all.
  assert (seq 0 n = (seq 0 k ++ [k]) ++ seq (S k) (n - S k)) as ->.
  { rewrite <-seq_S. replace n with (S k + (n - S k)) at 1 by lia. by rewrite seq_app. }
  rewrite foldl_app, (pyst_foldl_run (λ _ i, glorot_at i)).
  rewrite foldl_app. cbn [foldl]. rewrite (pyst_bind_inr _ _ _ _ _ Hrun). cbv beta.
  assert (ts' !!! k = t) as Htk.
  { rewrite list_lookup_total_alt, (proj1 (proj2 Hpre) k) by lia. by rewrite Ht. }
  rewrite (glorot_at_run _ _ _ _ _ (glorot_tensor_low_rank (ts' !!! k) g' ltac:(by rewrite Htk))).
  done.
Qed.

(** A module whose parameters [0 .. k-1] can be re-drawn and whose
    parameter [k] has rank below 2: [glorot] raises [IndexError], the
    first [k] parameters keep their new values, the buffers are never
    reached. *)
Lemma glorot_module_raise md g k t :
  k < length (parameters md) → redrawable_prefix k (parameters md) →
  parameters md !! k = Some t → (∀ c m, t ≠ T2 c m) →
  ∃ ps' g', glorot (VModule md, g) = (inl IndexError, (VModule (mkModule ps' (buffers md)), g')) ∧
    redrawn_prefix k (parameters md) ps'.
Proof.
  intros Hk Hp Ht Hlow.
  destruct (glorot_all_raise k (length (parameters md)) (parameters md) g t Hk Hp Ht Hlow)
    as (ps' & g' & E & Hpre).
  exists ps', g'. split; [|done].
  cbv [glorot glorot_module pyst_zoom pyst_get mbind pyst_bind fst snd]. cbv beta iota zeta.
  by rewrite E.
Qed.

Lemma redrawn_prefix_1 ts ts' : redrawn_prefix 1 ts ts' → ts ≠ [] → ts' = ts' !!! 0 :: drop 1 ts.
Proof.
  intros (Hl & Hsame & _) Hne. destruct ts as [|t0 ts]; [done|].
  destruct ts' as [|t0' ts']; [done|]. f_equal. simpl in Hl.
  apply list_eq. intros i. specialize (Hsame (S i) ltac:(lia)). simpl in Hsame. rewrite Hsame. simpl. by rewrite ?drop_0.
Qed.

Lemma nonempty_redrawable c (w : mat) : w ≠ [] → redrawable (T2 c w).
Proof. intros Hw. exists c, w. split; [done|]. destruct w; [done|simpl; lia]. Qed.

(** ** What [glorot] does *)

(** C32: on a rank-2 tensor that is not [0 x 0], [glorot] returns and
    leaves a tensor of the same shape whose entries all lie in
    [[-stdv, stdv]], [stdv = sqrt(6 / (rows + cols))]. *)
Theorem glorot_tensor_range c m g :
  length m + c ≠ 0 →
  ∃ m' g', glorot (VTensor (T2 c m), g) = (inr (), (VTensor (T2 c m'), g')) ∧
    length m' = length m ∧ Forall (λ r, length r = c) m' ∧
    Forall (Forall (fin_with (λ x, - glorot_stdv (length m) c <= x <= glorot_stdv (length m) c)%R)) m'.
Proof.
  intros Hnz. destruct (glorot_tensor_redrawn (T2 c m) g) as (t' & g' & E & (c0 & m0 & m' & [= <- <-] & -> & Hre));
    [by exists c, m|].
  exists m', g'. split; [|done].
  cbv [glorot pyst_zoom pyst_get pyst_put mbind pyst_bind fst snd]. cbv beta iota zeta.
  by rewrite E.
Qed.

(** C31: [glorot] cannot be applied to a [MYGNN] layer with a bias (the
    default [bias=True]): it re-draws [line_attention.weight], then meets
    the 1-D [line_attention.bias] and raises [IndexError]; every other
    parameter and buffer keeps its value. *)
Theorem glorot_mygnn_raises m g :
  bias (line_attention m) ≠ None → weight (line_attention m) ≠ [] →
  ∃ w' g', glorot (VModule (mygnn_module m), g) =
    (inl IndexError, (VModule (mkModule (T2 (in_features (line_attention m)) w' ::
                                           drop 1 (parameters (mygnn_module m)))
                                        (buffers (mygnn_module m))), g')) ∧
    redrawn (T2 (in_features (line_attention m)) (weight (line_attention m)))
            (T2 (in_features (line_attention m)) w').
Proof.
  intros Hb Hw. destruct (bias (line_attention m)) as [b|] eqn:Eb; [|done].
  assert (parameters (mygnn_module m) !! 1 = Some (T1 b)) as Ht by (by cbn; rewrite Eb).
  destruct (glorot_module_raise (mygnn_module m) g 1 (T1 b)) as (ps' & g' & E & Hpre);
    [by apply lookup_lt_Some in Ht|intros i Hi; replace i with 0 by lia; eexists; split; [reflexivity|];
       by apply nonempty_redrawable|done|done|].
  pose proof (proj2 (proj2 Hpre) 0 ltac:(lia)) as (c0 & m0 & w' & E0 & E1 & Hre). simpl in E0.
  injection E0 as <- <-. exists w', g'. rewrite E, (redrawn_prefix_1 _ _ Hpre), E1 by done.
  split; [done|]. exists (in_features (line_attention m)), (weight (line_attention m)), w'. done.
Qed.
(** The same holds of [GAL]: [self.a] and [linear.weight] are re-drawn,
    then the 1-D [linear.bias] raises [IndexError]. *)
Lemma glorot_gal_raises g rng :
  bias (gal_linear g) ≠ None → weight (gal_linear g) ≠ [] →
  ∃ ps' rng', glorot (VModule (gal_module g), rng) = (inl IndexError, (VModule (mkModule ps' []), rng')) ∧
    redrawn_prefix 2 (parameters (gal_module g)) ps'.
Proof.
  intros Hb Hw. destruct (bias (gal_linear g)) as [b|] eqn:Eb; [|done].
  assert (parameters (gal_module g) !! 2 = Some (T1 b)) as Ht by (by cbn; rewrite Eb).
  apply (glorot_module_raise (gal_module g) rng 2 (T1 b)); [by apply lookup_lt_Some in Ht| |done|done].
  intros [|[|i]] Hi; [| |lia]; eexists; (split; [reflexivity|]).
  - exists 1, ((λ w, [w]) <$> a g). split; [done|lia].
  - by apply nonempty_redrawable.
Qed.
End Glorot.

(** ** Concrete runs, with the generator [zero_source] *)

Module GlorotDemo.
(** A [1 x 2] weight, and the layer [MYGNN(1, dim=0)] with its default
    bias. *)
Definition w : mat := [[nzero; nzero]].
Definition layer : MYGNN := (MYGNN_init (G:=unit) tt 1 0 false true).1.
End GlorotDemo.

Lemma glorot_tensor_range_witness :
  ∃ m' g', glorot (VTensor (T2 2 GlorotDemo.w), tt) = (inr (), (VTensor (T2 2 m'), g')) ∧
    length m' = 1 ∧ Forall (λ r, length r = 2) m' ∧
    Forall (Forall (fin_with (λ x, - glorot_stdv 1 2 <= x <= glorot_stdv 1 2)%R)) m'.
Proof. apply (glorot_tensor_range 2 GlorotDemo.w tt). simpl. lia. Defined.

Lemma glorot_mygnn_raises_witness :
  ∃ w' g', glorot (VModule (mygnn_module GlorotDemo.layer), tt) =
    (inl IndexError, (VModule (mkModule (T2 (in_features (line_attention GlorotDemo.layer)) w' ::
                                           drop 1 (parameters (mygnn_module GlorotDemo.layer)))
                                        (buffers (mygnn_module GlorotDemo.layer))), g')) ∧
    redrawn (T2 (in_features (line_attention GlorotDemo.layer)) (weight (line_attention GlorotDemo.layer)))
            (T2 (in_features (line_attention GlorotDemo.layer)) w').
Proof. apply glorot_mygnn_raises; simpl; congruence. Defined.
