(* ===== verification/Classifier.v ===== *)
(** * [CGCClass]: the graph classifier (lines 172-274 of [graph_neural_network.py])

    The model holds an optional edge encoder (two [Linear]s, present when
    [MODEL_EDGE_DIM != 0]), [n_layers] [MYGNN] layers with batch norm, and
    the head [linear1], [bn2], [linear2].  [forward] encodes the edge
    attributes, runs the layers in order (each may update its batch
    norm), max-pools the nodes of each graph, applies dropout, [relu] of
    [linear1], [bn2] and [linear2], raises [RuntimeError] when the mean of
    [linear2.weight] is NaN, and squashes every logit with [sigmoid].
    Every [Linear] raises [RuntimeError] on rows of another width than
    its [in_features]; a layer's [out += x] raises after its batch norm
    has updated its statistics, and the layer is stored as left.

    The model is an object mutated in place and torch's random generator
    is global state, so [forward] runs in [pyst (CGCClass * G)] (see
    [Prelude]): a batch norm updated before an exception stays updated.
    The generator is the [RandomSource] interface of [Tensor]. *)

From Stdlib Require Import Reals Lra.
From S2P Require Import Prelude Num Tensor MYGNN.

(** The [model_params] dictionary read by [__init__] (lines 175-182). *)
Record model_params := mkParams {
  MODEL_FEAT_SIZE : nat;
  MODEL_LAYERS : nat;
  MODEL_DROPOUT_RATE : R;
  MODEL_EDGE_DENSE_NEURONS : nat;
  MODEL_EDGE_NEURONS : nat;
  MODEL_DENSE_NEURONS : nat;
  MODEL_EDGE_DIM : nat;
  MODEL_OUT_CHANNELS : nat }.

(** The attributes of a [CGCClass]; [edge_encoder] holds
    [(linear_edge1, linear_edge2)] when [edge_flag == 1]. *)
Record CGCClass := mkCGC {
  n_layers : nat;
  dropout_rate : R;
  edge_encoder : option (Linear * Linear);
  edge_dim : nat;
  gnn_layers : list MYGNN;
  linear1 : Linear;
  bn2 : BatchNorm1d;
  linear2 : Linear;
  training : bool }.

Definition edge_flag (m : CGCClass) : nat := match edge_encoder m with Some _ => 1 | None => 0 end.

(** A batch of graphs: [data.x, data.y, data.edge_index, data.edge_attr,
    data.batch]. *)
Record Data := mkData {
  data_x : mat;
  data_y : mat;
  data_edge_index : list (nat * nat);
  data_edge_attr : option mat;
  data_batch : list nat }.

Definition set_layers (m : CGCClass) (ls : list MYGNN) : CGCClass :=
  mkCGC (n_layers m) (dropout_rate m) (edge_encoder m) (edge_dim m) ls
    (linear1 m) (bn2 m) (linear2 m) (training m).

Definition set_bn2 (m : CGCClass) (b : BatchNorm1d) : CGCClass :=
  mkCGC (n_layers m) (dropout_rate m) (edge_encoder m) (edge_dim m) (gnn_layers m)
    (linear1 m) b (linear2 m) (training m).

(** [model.train(mode)]; [model.eval()] is [train(False)]: the flag of the
    model (read by dropout) and of every batch norm. *)
Definition cgc_train (m : CGCClass) (mode : bool) : CGCClass :=
  mkCGC (n_layers m) (dropout_rate m) (edge_encoder m) (edge_dim m)
    ((λ l, mygnn_train l mode) <$> gnn_layers m)
    (linear1 m) (bn_train (bn2 m) mode) (linear2 m) mode.

Definition eval (m : CGCClass) : CGCClass := cgc_train m false.

Section Model.
Context `{RandomSource G}.

(** Lines 186-193. *)
Definition edge_encoder_init (rng : G) (p : model_params) : option (Linear * Linear) * nat * G :=
  if decide (MODEL_EDGE_DIM p = 0) then (None, 0, rng)
  else
    let '(l1, rng) := draw_linear rng (MODEL_EDGE_DIM p) (MODEL_EDGE_DENSE_NEURONS p) true in
    let '(l2, rng) := draw_linear rng (MODEL_EDGE_DENSE_NEURONS p) (MODEL_EDGE_NEURONS p) true in
    (Some (l1, l2), MODEL_EDGE_NEURONS p, rng).

(** Lines 215-218: [MYGNN(feature_size, dim=self.edge_dim, batch_norm=True)]
    appended [n_layers] times. *)
Definition layers_init (rng : G) (n feat edim : nat) : list MYGNN * G :=
  foldl (λ acc _, let '(ls, rng) := acc in
                  let '(l, rng) := MYGNN_init rng feat edim true true in (ls ++ [l], rng))
    ([], rng) (seq 0 n).

(** [CGCClass(model_params)] (lines 173-229); [SMOTE] and the prints do
    not take part in the computation. *)
Definition CGCClass_init (rng : G) (p : model_params) : CGCClass * G :=
  let '(enc, edim, rng) := edge_encoder_init rng p in
  let '(layers, rng) := layers_init rng (MODEL_LAYERS p) (MODEL_FEAT_SIZE p) edim in
  let '(l1, rng) := draw_linear rng (MODEL_FEAT_SIZE p) (MODEL_DENSE_NEURONS p) true in
  let b2 := batch_norm_1d (MODEL_DENSE_NEURONS p) in
  let '(l2, rng) := draw_linear rng (MODEL_DENSE_NEURONS p) (MODEL_OUT_CHANNELS p) true in
  (mkCGC (MODEL_LAYERS p) (MODEL_DROPOUT_RATE p) enc edim layers l1 b2 l2 true, rng).

(** Lines 238-243: the edge encoder, or [None]; an encoder applied to a
    missing [edge_attr] raises [TypeError], to rows of another width
    [RuntimeError]. *)
Definition encode_edges (m : CGCClass) (edge_attr : option mat) : res (option mat) :=
  match edge_encoder m with
  | Some (l1, l2) =>
      match edge_attr with
      | Some ea => ea ← linear_rows l1 ea; ea ← linear_rows l2 ea; inr (Some ea)
      | None => raise TypeError
      end
  | None => inr None
  end.

(** One iteration of lines 257-258:
    [x = self.gnn_layers[i](x, edge_index, edge_attr)]; the layer is
    stored as the call left it (its batch norm updated in place), also
    when the call raised. *)
Definition layer_step (ei : list (nat * nat)) (ea : option mat) (x : mat) (i : nat)
    : pyst (CGCClass * G) mat :=
  '(m, rng) ← pyst_get;
  match gnn_layers m !! i with
  | None => pyst_raise IndexError
  | Some l =>
      let '(r, l') := forward l x ei ea in
      pyst_put (set_layers m (<[i := l']> (gnn_layers m)), rng);;
      pyst_lift r
  end.

Definition run_layers (ei : list (nat * nat)) (ea : option mat) (n : nat) (x : mat)
    : pyst (CGCClass * G) mat :=
  foldl (λ acc i, x ← acc; layer_step ei ea x i) (mret x) (seq 0 n).

(** The output block (lines 264-267) up to the logits. *)
Definition head (x : mat) : pyst (CGCClass * G) mat :=
  '(m, rng) ← pyst_get;
  '(x, rng) ← pyst_lift (dropout rng (dropout_rate m) (training m) x);
  pyst_put (m, rng);;
  x ← pyst_lift (linear_rows (linear1 m) x);
  let x := (λ row : vec, relu <$> row) <$> x in
  '(x, b2) ← pyst_lift (bn_forward (bn2 m) x);
  pyst_put (set_bn2 m b2, rng);;
  pyst_lift (linear_rows (linear2 m) x).

(** [CGCClass.forward(data)] (lines 231-274). *)
Definition cgc_forward (d : Data) : pyst (CGCClass * G) mat :=
  '(m, _) ← pyst_get;
  ea ← pyst_lift (encode_edges m (data_edge_attr d));
  x ← run_layers (data_edge_index d) ea (n_layers m) (data_x d);
  x ← pyst_lift (global_max_pool x (data_batch d));
  x ← head x;
  '(m, _) ← pyst_get;
  if isnan (mean (concat (weight (linear2 m)))) then pyst_raise RuntimeError
  else mret ((λ row : vec, sigmoid <$> row) <$> x).
End Model.

(** ** Outputs *)

Section Outputs.
Context `{RandomSource G}.

Lemma sigmoid_range a : sigmoid a = NaN ∨ fin_with (λ r, 0 < r < 1)%R (sigmoid a).
Proof.
  destruct a as [r|]; [right|by left]. destruct (sigmoid_bounds r) as (y & -> & Hy). by exists y.
Qed.

(** C11: every entry [forward] returns is NaN or a probability in
    [[0, 1]] (spec, section 4.3): each output channel is squashed by its
    own sigmoid, so the two channels need not sum to 1.  The exact
    sigmoid lies strictly inside; in float32 it rounds to [0.0] or [1.0]
    far out, so the interval is closed. *)
Theorem cgc_forward_probabilities d s y s' :
  cgc_forward d s = (inr y, s') →
  Forall (Forall (λ a, a = NaN ∨ fin_with (λ r, 0 <= r <= 1)%R a)) y.
Proof.
  unfold cgc_forward. intros H'. pyst_inv H'.
  destruct (isnan _); [discriminate H'|]. injection H' as <- _.
  apply Forall_fmap, Forall_forall. intros row _. apply Forall_fmap, Forall_forall. intros b _.
  unfold compose. destruct (sigmoid_range b) as [->|(r & -> & Hr)]; [by left|right]. exists r. split; [done|lra].
Qed.
End Outputs.

(** ** Every branch of every step *)

Section Runs.
Context `{RandomSource G}.

(** [layer_step] as a state transition: the layer [i] is replaced by
    the layer [forward] leaves. *)
Lemma layer_step_run ei ea x i m (rng : G) :
  layer_step ei ea x i (m, rng) =
  match gnn_layers m !! i with
  | None => (inl IndexError, (m, rng))
  | Some l =>
      match forward l x ei ea with
      | (r, l') => (r, (set_layers m (<[i := l']> (gnn_layers m)), rng))
      end
  end.
Proof.
  unfold layer_step. rewrite pyst_bind_run. cbv [pyst_get]. cbv beta iota.
  destruct (gnn_layers m !! i); [|done]. by destruct (forward _ _ _ _).
Qed.

Lemma run_layers_S ei ea n x :
  run_layers (G:=G) ei ea (S n) x = (y ← run_layers ei ea n x; layer_step ei ea y n).
Proof. unfold run_layers. by rewrite seq_S, foldl_app. Qed.

(** [head] as a state transition: dropout advances the generator, [bn2]
    may update its statistics. *)
Lemma head_run x m (rng : G) :
  head x (m, rng) =
  match dropout rng (dropout_rate m) (training m) x with
  | inl e => (inl e, (m, rng))
  | inr (x1, rng1) =>
      match linear_rows (linear1 m) x1 with
      | inl e => (inl e, (m, rng1))
      | inr x2 =>
          match bn_forward (bn2 m) ((λ row : vec, relu <$> row) <$> x2) with
          | inl e => (inl e, (m, rng1))
          | inr (x3, b2) => (linear_rows (linear2 m) x3, (set_bn2 m b2, rng1))
          end
      end
  end.
Proof.
  unfold head. cbv [pyst_get pyst_lift pyst_put mbind pyst_bind mret pyst_ret]. cbv beta iota zeta.
  destruct (dropout _ _ _ _) as [|[x1 rng1]]; [done|]. destruct (linear_rows _ _) as [|x2]; [done|].
  destruct (bn_forward _ _) as [|[]]; [done|]. by destruct (linear_rows _ _).
Qed.
End Runs.

(** ** What [forward] may change *)

(** Two states of a batch norm with the same affine parameters,
    constants and mode: only the running statistics may differ. *)
Definition bn_frame (b b' : BatchNorm1d) : Prop :=
  bn_weight b' = bn_weight b ∧ bn_bias b' = bn_bias b ∧ bn_eps b' = bn_eps b ∧
  bn_momentum b' = bn_momentum b ∧ bn_training b' = bn_training b.

Definition layer_frame (l l' : MYGNN) : Prop :=
  channels l' = channels l ∧ dim l' = dim l ∧ line_attention l' = line_attention l ∧
  line_node l' = line_node l ∧ option_Forall2 bn_frame (bn l) (bn l').

Definition cgc_frame (m m' : CGCClass) : Prop :=
  n_layers m' = n_layers m ∧ dropout_rate m' = dropout_rate m ∧ edge_encoder m' = edge_encoder m ∧
  edge_dim m' = edge_dim m ∧ Forall2 layer_frame (gnn_layers m) (gnn_layers m') ∧
  linear1 m' = linear1 m ∧ bn_frame (bn2 m) (bn2 m') ∧ linear2 m' = linear2 m ∧
  training m' = training m.

#[global] Instance bn_frame_preorder : PreOrder bn_frame.
Proof.
  split; [intros b; by split_and!|].
  intros b1 b2 b3 (?&?&?&?&?) (?&?&?&?&?). split_and!; congruence.
Qed.

#[global] Instance layer_frame_preorder : PreOrder layer_frame.
Proof.
  split.
  - intros l. by split_and!.
  - intros l1 l2 l3 (?&?&?&?&H12) (?&?&?&?&H23). split_and!; try congruence.
    destruct H12; inversion H23; subst; constructor; by etrans.
Qed.

#[global] Instance cgc_frame_preorder : PreOrder cgc_frame.
Proof.
  split.
  - intros m. split_and!; try done; reflexivity.
  - intros m1 m2 m3 (?&?&?&?&L12&?&B12&?&?) (?&?&?&?&L23&?&B23&?&?). split_and!; try congruence.
    + by etrans.
    + by etrans.
Qed.

Lemma bn_forward_frame b x y b' : bn_forward b x = inr (y, b') → bn_frame b b'.
Proof. intros [_ [->|(_ & rm & rv & -> & _)]]%bn_forward_inr; [reflexivity|by split_and!]. Qed.

Lemma forward_frame l x ei ea r l' : forward l x ei ea = (r, l') → layer_frame l l'.
Proof.
  intros [(_ & _ & ->)|(out & out' & _ & _ & [(_ & _ & ->)|(b & b' & Eb & Ef & ->)])]%forward_inv;
    [reflexivity..|].
  split_and!; try done. rewrite Eb. constructor. by eapply bn_forward_frame.
Qed.

Lemma set_layers_frame m ls : Forall2 layer_frame (gnn_layers m) ls → cgc_frame m (set_layers m ls).
Proof. intros Hls. by split_and!; try reflexivity. Qed.

Lemma insert_frame ls i l l' :
  ls !! i = Some l → layer_frame l l' → Forall2 layer_frame ls (<[i := l']> ls).
Proof.
  intros Hi Hl. rewrite <-(list_insert_id ls i l) at 1 by done.
  apply Forall2_insert; [reflexivity|done].
Qed.

Section Frame.
Context `{RandomSource G}.

(** The frame on the state of [forward]: model and generator. *)
Definition frame (s s' : CGCClass * G) : Prop := cgc_frame s.1 s'.1.

#[export] Instance frame_preorder : PreOrder frame.
Proof. split; [intros s; unfold frame; reflexivity|intros s1 s2 s3; unfold frame; apply transitivity]. Qed.

Lemma layer_step_frame ei ea x i : pyst_keeps frame (layer_step ei ea x i).
Proof.
  intros [m rng] r [m' rng']. rewrite layer_step_run.
  destruct (gnn_layers m !! i) as [l|] eqn:Hl; [|intros [= _ <- _]; unfold frame; simpl; reflexivity].
  destruct (forward l x ei ea) as [r' l'] eqn:Hf.
  intros [= _ <- _]. unfold frame. simpl. apply set_layers_frame. eapply insert_frame; [done|].
  by eapply forward_frame.
Qed.

Lemma run_layers_frame ei ea n x : pyst_keeps frame (run_layers (G:=G) ei ea n x).
Proof.
  induction n as [|n IH]; [by apply pyst_keeps_ret|].
  rewrite run_layers_S. apply pyst_keeps_bind; [apply _|exact IH|]. intros y. apply layer_step_frame.
Qed.

Lemma head_frame x : pyst_keeps frame (head (G:=G) x).
Proof.
  intros [m rng] r [m' rng']. rewrite head_run.
  destruct (dropout _ _ _ _) as [|[x1 rng1]]; [intros [= _ <- _]; unfold frame; simpl; reflexivity|].
  destruct (linear_rows _ _) as [|x2]; [intros [= _ <- _]; unfold frame; simpl; reflexivity|].
  destruct (bn_forward _ _) as [|[x3 b2]] eqn:Eb; [intros [= _ <- _]; unfold frame; simpl; reflexivity|].
  intros [= _ <- _]. unfold frame. simpl. split_and!; try done. by eapply bn_forward_frame.
Qed.
End Frame.

Section ForwardFrame.
Context `{RandomSource G}.

Lemma cgc_forward_keeps d : pyst_keeps (frame (G:=G)) (cgc_forward d).
Proof.
  unfold cgc_forward. apply pyst_keeps_get_bind. intros [m rng].
  apply pyst_keeps_bind; [apply _|by apply pyst_keeps_lift|intros ea].
  apply pyst_keeps_bind; [apply _|apply run_layers_frame|intros x].
  apply pyst_keeps_bind; [apply _|by apply pyst_keeps_lift|intros x'].
  apply pyst_keeps_bind; [apply _|apply head_frame|intros y].
  apply pyst_keeps_get_bind. intros [m' rng'].
  destruct (isnan _); [by apply pyst_keeps_raise|by apply pyst_keeps_ret].
Qed.

(** C37: [forward] changes the model only in the running statistics of its
    batch norms: the number of layers, the dropout rate, the edge encoder,
    every [Linear], the affine parameters of every batch norm and the
    training flags are those it started with, whether it returns or
    raises. *)
Theorem cgc_forward_frame d m rng r m' rng' :
  cgc_forward d (m, rng) = (r, (m', rng')) → cgc_frame m m'.
Proof. intros E. exact (cgc_forward_keeps d (m, rng) r (m', rng') E). Qed.

(** C10: when the mean of [linear2.weight] is NaN, [forward] never returns
    a value: it raises, at the latest at the check of line 269. *)
Theorem cgc_forward_nan_weight d m rng :
  isnan (mean (concat (weight (linear2 m)))) = true →
  ∃ e, (cgc_forward d (m, rng)).1 = inl e.
Proof.
  intros Hnan. destruct (cgc_forward d (m, rng)) as [[e|y] s'] eqn:E; [by eexists|exfalso].
  unfold cgc_forward in E. pyst_inv E. pyst_simpl_steps.
  apply run_layers_frame in Hstep1. apply head_frame in Hstep3.
  destruct Hstep1 as (_&_&_&_&_&_&_&L1&_), Hstep3 as (_&_&_&_&_&_&_&L3&_).
  simpl in *. rewrite L3, L1, Hnan in E. discriminate E.
Qed.
End ForwardFrame.

(** ** Evaluation mode *)

Definition eval_mode (m : CGCClass) : Prop :=
  training m = false ∧ bn_training (bn2 m) = false ∧
  Forall (λ l, ∀ b, bn l = Some b → bn_training b = false) (gnn_layers m).

Lemma eval_eval_mode m : eval_mode (eval m).
Proof.
  split_and!; try done. apply Forall_fmap, Forall_forall. intros l _ b. simpl.
  destruct (bn l); simpl; by intros [= <-].
Qed.

Lemma set_bn_id l b : bn l = Some b → set_bn l b = l.
Proof. destruct l; simpl. by intros ->. Qed.

Lemma set_layers_id m : set_layers m (gnn_layers m) = m.
Proof. by destruct m. Qed.

Lemma set_bn2_id m : set_bn2 m (bn2 m) = m.
Proof. by destruct m. Qed.

(** A layer whose batch norm, if any, is in evaluation mode is returned
    unchanged by [forward]. *)
Lemma forward_eval_same l x ei ea r l' :
  (∀ b, bn l = Some b → bn_training b = false) → forward l x ei ea = (r, l') → l' = l.
Proof.
  intros Hev [(_ & _ & ->)|(out & out' & _ & _ & [(_ & _ & ->)|(b & b' & Eb & Ef & ->)])]%forward_inv;
    [done..|].
  apply bn_forward_eval_inr in Ef as [_ ->]; [|by apply Hev]. by apply set_bn_id.
Qed.

Section Eval.
Context `{RandomSource G}.

(** From a state in evaluation mode, the state does not change. *)
Definition stays (s s' : CGCClass * G) : Prop := eval_mode s.1 → s' = s.

#[export] Instance stays_preorder : PreOrder stays.
Proof.
  split; [by intros s|]. intros s1 s2 s3 H12 H23 Hev.
  pose proof (H12 Hev) as ->. by apply H23.
Qed.

Lemma layer_step_stays ei ea x i : pyst_keeps stays (layer_step ei ea x i).
Proof.
  intros [m rng] r s' E Hev. rewrite layer_step_run in E.
  destruct (gnn_layers m !! i) as [l|] eqn:Hl; [|by simplify_eq].
  destruct (forward l x ei ea) as [r' l'] eqn:Hf.
  injection E as _ <-. destruct Hev as (_ & _ & Hls).
  rewrite (forward_eval_same l x ei ea r' l'); [|exact (Forall_lookup_1 _ _ _ _ Hls Hl)|done].
  by rewrite list_insert_id, set_layers_id.
Qed.

Lemma run_layers_stays ei ea n x : pyst_keeps stays (run_layers (G:=G) ei ea n x).
Proof.
  induction n as [|n IH]; [by apply pyst_keeps_ret|].
  rewrite run_layers_S. apply pyst_keeps_bind; [apply _|exact IH|]. intros y. apply layer_step_stays.
Qed.

Lemma head_stays x : pyst_keeps stays (head (G:=G) x).
Proof.
  intros [m rng] r s' E (Htr & Hbn & _). simpl in Htr, Hbn. rewrite head_run in E.
  unfold dropout, raise in E. rewrite Htr in E.
  destruct (Rlt_dec _ 0); [cbv iota in E; by simplify_eq|].
  destruct (Rlt_dec 1 _); [cbv iota in E; by simplify_eq|].
  cbn [negb] in E. cbv iota in E.
  destruct (linear_rows _ _) as [|x2]; [by simplify_eq|].
  destruct (bn_forward _ _) as [|[x3 b2]] eqn:Eb; [by simplify_eq|].
  apply bn_forward_eval_inr in Eb as [_ ->]; [|done]. injection E as _ <-. by rewrite set_bn2_id.
Qed.

Lemma cgc_forward_stays d : pyst_keeps stays (cgc_forward (G:=G) d).
Proof.
  unfold cgc_forward. apply pyst_keeps_get_bind. intros [m rng].
  apply pyst_keeps_bind; [apply _|by apply pyst_keeps_lift|intros ea].
  apply pyst_keeps_bind; [apply _|apply run_layers_stays|intros x].
  apply pyst_keeps_bind; [apply _|by apply pyst_keeps_lift|intros x'].
  apply pyst_keeps_bind; [apply _|apply head_stays|intros y].
  apply pyst_keeps_get_bind. intros [m' rng'].
  destruct (isnan _); [by apply pyst_keeps_raise|by apply pyst_keeps_ret].
Qed.

(** C20: after [model.eval()], [forward] changes neither the model (no
    batch norm statistic moves) nor the random generator (dropout draws
    nothing), whether it returns or raises. *)
Theorem cgc_forward_eval_pure d m rng : (cgc_forward d (eval m, rng)).2 = (eval m, rng).
Proof.
  destruct (cgc_forward d (eval m, rng)) as [r s'] eqn:E. simpl.
  exact (cgc_forward_stays d _ _ _ E (eval_eval_mode m)).
Qed.
End Eval.

(** ** One graph per batch in training mode *)

Lemma global_max_pool_length x b y : global_max_pool x b = inr y → length y = num_graphs b.
Proof.
  unfold global_max_pool. destruct (negb _); [done|]. intros [= <-]. by rewrite length_fmap, length_seq.
Qed.

Lemma dropout_length `{RandomSource G} (rng : G) p t x y rng' :
  dropout rng p t x = inr (y, rng') → length y = length x.
Proof.
  unfold dropout, raise. destruct (Rlt_dec p 0); [done|]. destruct (Rlt_dec 1 p); [done|].
  destruct t; cbn [negb]; [|by intros [= <- _]].
  destruct (Req_EM_T p 1); [intros [= <- _]; by rewrite length_fmap|].
  destruct (draw_mask_shape rng (length x) (width x) (1 - p)) as [Hl _].
  destruct (draw_mask _ _ _ _) as [mask rng1]. simpl in Hl. intros [= <- _].
  by rewrite length_zip_with, Hl, Nat.min_id.
Qed.

Lemma bn_forward_small b x : bn_training b = true → length x = 1 → bn_forward b x = inl ValueError.
Proof. intros Ht Hl. unfold bn_forward. rewrite Ht. by rewrite bool_decide_true. Qed.

Section Training.
Context `{RandomSource G}.

(** C22: in training mode [bn2] sees one row per graph, and torch's batch
    norm refuses a single row ("Expected more than 1 value per channel
    when training"): on a batch of one graph [forward] never returns. *)
Theorem cgc_forward_single_graph_training d m (rng : G) :
  bn_training (bn2 m) = true → num_graphs (data_batch d) = 1 →
  ∃ e, (cgc_forward d (m, rng)).1 = inl e.
Proof.
  intros Ht Hg. destruct (cgc_forward d (m, rng)) as [[e|y] s'] eqn:E; [by eexists|exfalso].
  unfold cgc_forward in E. pyst_inv E. pyst_simpl_steps.
  apply run_layers_frame in Hstep1. destruct Hstep1 as (_&_&_&_&_&_&(_&_&_&_&Htr)&_&_).
  match goal with Hp : global_max_pool _ _ = inr _ |- _ => apply global_max_pool_length in Hp end.
  match goal with Hh : head _ ?s = _ |- _ => destruct s as [m1 rng1] end.
  simpl in Htr. rewrite head_run in Hstep3.
  destruct (dropout _ _ _ _) as [|[x1 rng2]] eqn:Ed; [done|].
  apply dropout_length in Ed.
  destruct (linear_rows _ _) as [|x2] eqn:El; [done|]. apply linear_rows_inr in El as [-> _].
  rewrite bn_forward_small in Hstep3; [done|by rewrite Htr|by rewrite !length_fmap; lia].
Qed.
End Training.

(** ** Well-formed models *)

Definition bn_wf (C : nat) (b : BatchNorm1d) : Prop :=
  length (bn_weight b) = C ∧ length (bn_bias b) = C ∧
  length (running_mean b) = C ∧ length (running_var b) = C.

Definition layer_wf (feat edim : nat) (l : MYGNN) : Prop :=
  channels l = feat ∧ dim l = edim ∧
  linear_shape (line_attention l) (feat + edim) feat true ∧
  linear_shape (line_node l) (feat + edim) feat true ∧
  ∃ b, bn l = Some b ∧ bn_wf feat b.

(** The shapes [__init__] gives every parameter, for [model_params] [p]. *)
Definition cgc_wf (p : model_params) (m : CGCClass) : Prop :=
  n_layers m = MODEL_LAYERS p ∧ dropout_rate m = MODEL_DROPOUT_RATE p ∧
  match edge_encoder m with
  | None => MODEL_EDGE_DIM p = 0 ∧ edge_dim m = 0
  | Some (l1, l2) =>
      MODEL_EDGE_DIM p ≠ 0 ∧ edge_dim m = MODEL_EDGE_NEURONS p ∧
      linear_shape l1 (MODEL_EDGE_DIM p) (MODEL_EDGE_DENSE_NEURONS p) true ∧
      linear_shape l2 (MODEL_EDGE_DENSE_NEURONS p) (MODEL_EDGE_NEURONS p) true
  end ∧
  length (gnn_layers m) = MODEL_LAYERS p ∧
  Forall (layer_wf (MODEL_FEAT_SIZE p) (edge_dim m)) (gnn_layers m) ∧
  linear_shape (linear1 m) (MODEL_FEAT_SIZE p) (MODEL_DENSE_NEURONS p) true ∧
  bn_wf (MODEL_DENSE_NEURONS p) (bn2 m) ∧
  linear_shape (linear2 m) (MODEL_DENSE_NEURONS p) (MODEL_OUT_CHANNELS p) true.

(** ** In evaluation mode, [forward] returns unless [linear2.weight] is NaN *)

(** The edge attributes the encoder needs: present, one row per edge,
    each of the width [linear_edge1] takes. *)
Definition edge_attr_ok (m : CGCClass) (d : Data) : Prop :=
  match edge_encoder m with
  | Some (l1, _) =>
      ∃ ea, data_edge_attr d = Some ea ∧ length ea = length (data_edge_index d) ∧
            Forall (λ r, length r = in_features l1) ea
  | None => True
  end.

(** The encoded attributes: one row per edge, of width [edge_dim], or
    none when [edge_dim = 0]. *)
Lemma encode_edges_ok p m d :
  cgc_wf p m → edge_attr_ok m d →
  ∃ ea, encode_edges m (data_edge_attr d) = inr ea ∧ attr_rows_ok (data_edge_index d) ea = true ∧
    match ea with None => edge_dim m = 0 | Some rows => Forall (λ e, length e = edge_dim m) rows end.
Proof.
  intros (_ & _ & Henc & _) Hea. unfold edge_attr_ok, encode_edges in *.
  destruct (edge_encoder m) as [[l1 l2]|]; [|destruct Henc as [_ ->]; by eexists].
  destruct Henc as (_ & Hed & H1 & H2). destruct Hea as (ea & -> & Hl & Hw).
  rewrite linear_rows_ok by done. rewrite res_bind_inr.
  rewrite linear_rows_ok; [rewrite res_bind_inr; eexists; split_and!; [reflexivity| |]|].
  - simpl. rewrite !length_fmap, Hl. apply Nat.eqb_refl.
  - apply Forall_fmap, Forall_forall. intros r _. simpl. by rewrite (linear_shape_width _ _ _ _ _ H2).
  - apply Forall_fmap, Forall_forall. intros r _. simpl. rewrite (linear_shape_width _ _ _ _ _ H1).
    by destruct H2 as [-> _].
Qed.

Lemma global_max_pool_ok x b : length b = length x → ∃ y, global_max_pool x b = inr y.
Proof. intros Hl. unfold global_max_pool. rewrite Hl, Nat.eqb_refl. by eexists. Qed.

Lemma length_foldl_vmax c r rs :
  Forall (λ v, length v = c) (r :: rs) → length (foldl vmax r rs) = c.
Proof.
  revert r. induction rs as [|r' rs IH]; intros r Hr; [by apply Forall_inv in Hr|].
  apply Forall_cons in Hr as [Hr Hrs]. apply Forall_cons in Hrs as [Hr' Hrs]. cbn [foldl].
  apply IH. constructor; [|done]. unfold vmax. rewrite length_zip_with. lia.
Qed.

(** Pooling rows of width [c] gives rows of width [c]. *)
Lemma global_max_pool_width x b y c :
  Forall (λ r, length r = c) x → global_max_pool x b = inr y → Forall (λ r, length r = c) y.
Proof.
  intros Hx. unfold global_max_pool. destruct (negb _) eqn:Hb; [done|]. intros [= <-].
  apply negb_false_iff, Nat.eqb_eq in Hb.
  destruct x as [|r0 x0]; [destruct b; [constructor|done]|].
  apply Forall_fmap, Forall_forall. intros gi _. simpl.
  assert (Forall (λ v, length v = c) (group_rows (r0 :: x0) b gi)) as Hg.
  { apply Forall_forall. intros v Hv. unfold group_rows in Hv.
    apply list_elem_of_fmap in Hv as ([v' bb] & -> & Hv). apply list_elem_of_filter in Hv as [_ Hv].
    apply elem_of_zip_l in Hv. by apply (proj1 (Forall_forall _ _) Hx). }
  destruct (group_rows _ _ _) as [|r rs]; [|by apply length_foldl_vmax].
  unfold zeros_vec. rewrite length_replicate. simpl. by apply Forall_inv in Hx.
Qed.

(** [y] is the pooled output of some node matrix with as many rows as
    the batch's nodes. *)
Definition global_max_pool_ok_result (d : Data) (y : mat) : Prop :=
  ∃ x, length x = length (data_x d) ∧ global_max_pool x (data_batch d) = inr y.

Section EvalTotal.
Context `{RandomSource G}.

(** A layer of a well-formed model has the shapes of its constructor. *)
Lemma layer_wf_shape feat edim l : layer_wf feat edim l → mygnn_shape l.
Proof.
  intros (Hc & Hd & HA & HN & b & Hb & Hbw). unfold mygnn_shape. rewrite Hc, Hd. split_and!; [done|done|].
  intros b' Hb'. rewrite Hb in Hb'. injection Hb' as <-. by destruct Hbw as [-> _].
Qed.

Lemma run_layers_eval_ok p ei ea n x m (rng : G) :
  eval_mode m → cgc_wf p m → n ≤ length (gnn_layers m) →
  Forall (λ r, length r = MODEL_FEAT_SIZE p) x →
  match ea with None => edge_dim m = 0 | Some rows => Forall (λ e, length e = edge_dim m) rows end →
  indices_ok (length x) ei = true → attr_rows_ok ei ea = true →
  ∃ y, run_layers ei ea n x (m, rng) = (inr y, (m, rng)) ∧ length y = length x ∧
       Forall (λ r, length r = MODEL_FEAT_SIZE p) y.
Proof.
  intros Hev Hw Hn Hx Hea Hi Ha. induction n as [|n IH]; [by eexists|].
  destruct IH as (y & Ey & Hy & Hyw); [lia|].
  rewrite run_layers_S. rewrite (pyst_bind_inr _ _ _ _ _ Ey), layer_step_run.
  destruct (lookup_lt_is_Some_2 (gnn_layers m) n) as [l Hl]; [lia|]. rewrite Hl.
  destruct Hev as (_ & _ & Hls). destruct Hw as (_ & _ & _ & _ & Hwf & _).
  pose proof (Forall_lookup_1 _ _ _ _ Hwf Hl) as Hlw. pose proof (layer_wf_shape _ _ _ Hlw) as Hs.
  destruct Hlw as (Hc & Hd & _).
  destruct (forward_eval_ok l y ei ea) as (y' & -> & Hy' & Hyw');
    [exact (Forall_lookup_1 _ _ _ _ Hls Hl)|done|by rewrite Hc|by (unfold attr_width; rewrite Hd)|by rewrite Hy|done|].
  exists y'. rewrite list_insert_id, set_layers_id by done. split_and!; [done|lia|by rewrite <-Hc].
Qed.

(** The output block in evaluation mode: the batch norm uses its running
    statistics. *)
Definition eval_head (m : CGCClass) (x : mat) : mat :=
  linear (linear2 m) <$>
    bn_apply (bn2 m) (running_mean (bn2 m)) (running_var (bn2 m))
      ((λ row : vec, relu <$> linear (linear1 m) row) <$> x).

Lemma head_eval_ok p x m (rng : G) :
  eval_mode m → cgc_wf p m → (0 <= dropout_rate m <= 1)%R → Forall (λ r, length r = MODEL_FEAT_SIZE p) x →
  head x (m, rng) = (inr (eval_head m x), (m, rng)).
Proof.
  intros (Htr & Hbn & _) (_ & _ & _ & _ & _ & HL1 & (Hbw & _) & HL2) Hp Hx. rewrite head_run. unfold dropout.
  destruct (Rlt_dec (dropout_rate m) 0); [lra|]. destruct (Rlt_dec 1 (dropout_rate m)); [lra|].
  rewrite Htr. cbn [negb]. cbv iota.
  rewrite linear_rows_ok by (by destruct HL1 as [-> _]). rewrite <-list_fmap_compose.
  assert (Forall (λ r, length r = MODEL_DENSE_NEURONS p)
            (((λ row : vec, relu <$> row) ∘ linear (linear1 m)) <$> x)) as Hr.
  { apply Forall_fmap, Forall_forall. intros r _. simpl. rewrite length_fmap. by eapply linear_shape_width. }
  rewrite bn_forward_eval; [|done|by rewrite Hbw].
  rewrite linear_rows_ok; [by rewrite set_bn2_id|]. destruct HL2 as [-> _]. by apply bn_apply_width.
Qed.

(** [forward] in evaluation mode on a graph meeting the conditions of
    [cgc_forward_eval_total], step by step. *)
Lemma cgc_forward_eval_run p d m (rng : G) :
  eval_mode m → cgc_wf p m → Forall (λ r, length r = MODEL_FEAT_SIZE p) (data_x d) →
  indices_ok (length (data_x d)) (data_edge_index d) = true →
  edge_attr_ok m d → length (data_batch d) = length (data_x d) →
  (0 <= dropout_rate m <= 1)%R →
  ∃ y, global_max_pool_ok_result d y ∧
    cgc_forward d (m, rng) =
    (if isnan (mean (concat (weight (linear2 m)))) then inl RuntimeError
     else inr ((λ row : vec, sigmoid <$> row) <$> eval_head m y), (m, rng)).
Proof.
  intros Hev Hw Hx Hi Hea Hb Hp. unfold cgc_forward. rewrite pyst_bind_run. cbv [pyst_get]. cbv iota beta.
  destruct (encode_edges_ok p m d Hw Hea) as (ea & Eea & Ha & Hew).
  rewrite pyst_bind_run. cbv [pyst_lift]. rewrite Eea. cbv iota beta.
  assert (n_layers m ≤ length (gnn_layers m)) as Hn by (destruct Hw as (? & _ & _ & ? & _); lia).
  destruct (run_layers_eval_ok p (data_edge_index d) ea (n_layers m) (data_x d) m rng Hev Hw Hn Hx Hew Hi Ha)
    as (x & Ex & Hxl & Hxw).
  rewrite (pyst_bind_inr _ _ _ _ _ Ex).
  destruct (global_max_pool_ok x (data_batch d)) as [y Ey]; [lia|].
  rewrite pyst_bind_run. cbv [pyst_lift]. rewrite Ey. cbv iota beta.
  rewrite (pyst_bind_inr _ _ _ _ _ (head_eval_ok p y m rng Hev Hw Hp (global_max_pool_width _ _ _ _ Hxw Ey))).
  rewrite pyst_bind_run. cbv [pyst_get]. cbv iota beta.
  exists y. split; [by exists x|]. by destruct (isnan _).
Qed.

(** C9: in evaluation mode, on a model of the shapes [__init__] gives
    ([cgc_wf]) and a batch whose node features have [MODEL_FEAT_SIZE]
    columns, whose edge indices are in range, whose edge attributes are
    present with one row per edge of the width [linear_edge1] takes when
    the model has an edge encoder, whose [batch] vector has one entry per
    node, with a dropout rate in [[0, 1]], [forward] raises exactly when
    the mean of [linear2.weight] is NaN, and then raises [RuntimeError];
    otherwise it returns. *)
Theorem cgc_forward_eval_total p d m (rng : G) :
  eval_mode m → cgc_wf p m → Forall (λ r, length r = MODEL_FEAT_SIZE p) (data_x d) →
  indices_ok (length (data_x d)) (data_edge_index d) = true →
  edge_attr_ok m d → length (data_batch d) = length (data_x d) →
  (0 <= dropout_rate m <= 1)%R →
  match (cgc_forward d (m, rng)).1 with
  | inl e => e = RuntimeError ∧ isnan (mean (concat (weight (linear2 m)))) = true
  | inr _ => isnan (mean (concat (weight (linear2 m)))) = false
  end.
Proof.
  intros Hev Hw Hx Hi Hea Hb Hp.
  destruct (cgc_forward_eval_run p d m rng Hev Hw Hx Hi Hea Hb Hp) as (y & _ & ->). simpl.
  by destruct (isnan _).
Qed.
End EvalTotal.

Lemma batch_norm_1d_wf C : bn_wf C (batch_norm_1d C).
Proof. unfold bn_wf. simpl. by rewrite !length_replicate. Qed.

Section InitWf.
Context `{RandomSource G}.

Lemma MYGNN_init_wf (rng : G) feat edim : layer_wf feat edim (MYGNN_init rng feat edim true true).1.
Proof.
  unfold MYGNN_init.
  destruct (draw_linear rng _ _ _) as [la0 r1]. destruct (draw_linear r1 _ _ _) as [ln0 r2].
  pose proof (draw_linear_shape r2 (feat + edim) feat true) as Ha.
  destruct (draw_linear r2 _ _ _) as [la r3].
  pose proof (draw_linear_shape r3 (feat + edim) feat true) as Hn.
  destruct (draw_linear r3 _ _ _) as [ln r4]. simpl in *.
  split_and!; try done. eexists. split; [reflexivity|]. apply batch_norm_1d_wf.
Qed.

Lemma layers_init_wf (rng : G) n feat edim :
  length (layers_init rng n feat edim).1 = n ∧
  Forall (layer_wf feat edim) (layers_init rng n feat edim).1.
Proof.
  unfold layers_init.
  enough (∀ (ks : list nat) ls (r : G), Forall (layer_wf feat edim) ls →
    let res := foldl (λ acc _, let '(ls, rng) := acc in
                  let '(l, rng) := MYGNN_init rng feat edim true true in (ls ++ [l], rng)) (ls, r) ks in
    length res.1 = length ls + length ks ∧ Forall (layer_wf feat edim) res.1) as Hgen.
  { destruct (Hgen (seq 0 n) [] rng (Forall_nil_2 _)) as [Hl Hf]. by rewrite Hl, length_seq. }
  intros ks. induction ks as [|k ks IH]; intros ls r Hls; simpl; [split; [lia|done]|].
  pose proof (MYGNN_init_wf r feat edim) as Hw.
  destruct (MYGNN_init r feat edim true true) as [l r'].
  destruct (IH (ls ++ [l]) r') as [Hl Hf]; [apply Forall_app; split; [done|by constructor]|].
  split; [|done]. rewrite Hl, length_app. simpl. lia.
Qed.
End InitWf.

Section Wf.
Context `{RandomSource G}.

(** C18: [CGCClass(model_params)] builds a model of the shapes [cgc_wf]
    describes, in training mode: the edge encoder exactly when
    [MODEL_EDGE_DIM != 0], [MODEL_LAYERS] layers of width
    [MODEL_FEAT_SIZE] reading edge attributes of width [edge_dim], and the
    dense head. *)
Theorem CGCClass_init_wf (rng : G) p :
  cgc_wf p (CGCClass_init rng p).1 ∧ training (CGCClass_init rng p).1 = true ∧
  bn_training (bn2 (CGCClass_init rng p).1) = true.
Proof.
  unfold CGCClass_init.
  assert (let '(enc, edim, _) := edge_encoder_init rng p in
          match enc with
          | None => MODEL_EDGE_DIM p = 0 ∧ edim = 0
          | Some (l1, l2) =>
              MODEL_EDGE_DIM p ≠ 0 ∧ edim = MODEL_EDGE_NEURONS p ∧
              linear_shape l1 (MODEL_EDGE_DIM p) (MODEL_EDGE_DENSE_NEURONS p) true ∧
              linear_shape l2 (MODEL_EDGE_DENSE_NEURONS p) (MODEL_EDGE_NEURONS p) true
          end) as Henc.
  { unfold edge_encoder_init. case_decide; [done|].
    pose proof (draw_linear_shape rng (MODEL_EDGE_DIM p) (MODEL_EDGE_DENSE_NEURONS p) true) as H1.
    destruct (draw_linear rng _ _ _) as [l1 r1].
    pose proof (draw_linear_shape r1 (MODEL_EDGE_DENSE_NEURONS p) (MODEL_EDGE_NEURONS p) true) as H2.
    by destruct (draw_linear r1 _ _ _) as [l2 r2]. }
  destruct (edge_encoder_init rng p) as [[enc edim] r1].
  destruct (layers_init_wf r1 (MODEL_LAYERS p) (MODEL_FEAT_SIZE p) edim) as [Hlen Hls].
  destruct (layers_init r1 _ _ _) as [layers r2].
  pose proof (draw_linear_shape r2 (MODEL_FEAT_SIZE p) (MODEL_DENSE_NEURONS p) true) as H1.
  destruct (draw_linear r2 _ _ _) as [l1 r3].
  pose proof (draw_linear_shape r3 (MODEL_DENSE_NEURONS p) (MODEL_OUT_CHANNELS p) true) as H2.
  destruct (draw_linear r3 _ _ _) as [l2 r4]. simpl in *.
  split_and!; [|done|done]. unfold cgc_wf. simpl. split_and!; try done. apply batch_norm_1d_wf.
Qed.
End Wf.

Lemma bn_forward_wf C b x y b' : bn_wf C b → bn_forward b x = inr (y, b') → bn_wf C b'.
Proof.
  intros (Hw & Hb & Hm & Hv) [_ [->|(_ & rm & rv & -> & Hrm & Hrv)]]%bn_forward_inr; [done|].
  unfold bn_wf. simpl. rewrite Hrm, Hrv, Hm, Hv, Hw. split_and!; lia.
Qed.

Lemma forward_wf feat edim l x ei ea r l' :
  layer_wf feat edim l → forward l x ei ea = (r, l') → layer_wf feat edim l'.
Proof.
  intros Hl [(_ & _ & ->)|(out & out' & _ & _ & [(_ & _ & ->)|(b & b' & Eb & Ef & ->)])]%forward_inv; [done..|].
  destruct Hl as (Hc & Hd & Ha & Hn & b0 & Hb & Hbw). rewrite Hb in Eb. injection Eb as <-.
  split_and!; try done. eexists. split; [reflexivity|]. by eapply bn_forward_wf.
Qed.

Section WfForward.
Context `{RandomSource G} (p : model_params).

Definition wf_rel (s s' : CGCClass * G) : Prop := cgc_wf p s.1 → cgc_wf p s'.1.

#[export] Instance wf_rel_preorder : PreOrder wf_rel.
Proof. split; [by intros s ?|]. intros s1 s2 s3 H12 H23 Hw. by apply H23, H12. Qed.

Lemma layer_step_wf ei ea x i : pyst_keeps wf_rel (layer_step ei ea x i).
Proof.
  intros [m rng] r s' E Hw. rewrite layer_step_run in E.
  destruct (gnn_layers m !! i) as [l|] eqn:Hl; [|by simplify_eq].
  destruct (forward l x ei ea) as [r' l'] eqn:Hf.
  injection E as _ <-. destruct Hw as (?&?&?&Hlen&Hls&?&?&?). unfold cgc_wf. simpl.
  split_and!; try done. { by rewrite length_insert. }
  apply Forall_insert; [done|]. eapply forward_wf; [|exact Hf]. exact (Forall_lookup_1 _ _ _ _ Hls Hl).
Qed.

Lemma run_layers_wf ei ea n x : pyst_keeps wf_rel (run_layers (G:=G) ei ea n x).
Proof.
  induction n as [|n IH]; [apply pyst_keeps_ret; apply wf_rel_preorder|].
  rewrite run_layers_S. apply pyst_keeps_bind; [apply _|exact IH|]. intros y. apply layer_step_wf.
Qed.

Lemma head_wf x : pyst_keeps wf_rel (head (G:=G) x).
Proof.
  intros [m rng] r s' E Hw. rewrite head_run in E.
  destruct (dropout _ _ _ _) as [|[x1 rng1]]; [by simplify_eq|].
  destruct (linear_rows _ _) as [|x2]; [by simplify_eq|].
  destruct (bn_forward _ _) as [|[x3 b2]] eqn:Eb; [by simplify_eq|].
  injection E as _ <-. destruct Hw as (?&?&?&?&?&?&Hb&?). unfold cgc_wf. simpl.
  split_and!; try done. by eapply bn_forward_wf.
Qed.

Lemma cgc_forward_wf_keeps d : pyst_keeps wf_rel (cgc_forward (G:=G) d).
Proof.
  unfold cgc_forward. apply pyst_keeps_get_bind. intros [m rng].
  apply pyst_keeps_bind; [apply _|apply pyst_keeps_lift; apply wf_rel_preorder|intros ea].
  apply pyst_keeps_bind; [apply _|apply run_layers_wf|intros x].
  apply pyst_keeps_bind; [apply _|apply pyst_keeps_lift; apply wf_rel_preorder|intros x'].
  apply pyst_keeps_bind; [apply _|apply head_wf|intros y].
  apply pyst_keeps_get_bind. intros [m' rng'].
  destruct (isnan _); [apply pyst_keeps_raise; apply wf_rel_preorder|apply pyst_keeps_ret; apply wf_rel_preorder].
Qed.

(** C19: [forward] keeps a model well formed, whether it returns or
    raises: the running statistics it updates keep their widths. *)
Theorem cgc_forward_wf d m rng r m' rng' :
  cgc_wf p m → cgc_forward d (m, rng) = (r, (m', rng')) → cgc_wf p m'.
Proof. intros Hw E. exact (cgc_forward_wf_keeps d (m, rng) r (m', rng') E Hw). Qed.
End WfForward.

(** ** A diverged batch norm is not detected *)

Lemma bn_affine_NaN_var eps mu g b a : bn_affine eps mu NaN g b a = NaN.
Proof. unfold bn_affine. by rewrite nadd_NaN_l, ndiv_NaN_r. Qed.

(** With a NaN running variance, evaluation-mode batch norm turns every
    entry within its width into NaN. *)
Lemma bn_apply_NaN_var b (x : mat) :
  Forall (λ v, v = NaN) (running_var b) →
  Forall (λ row, length row ≤ length (running_var b)) x →
  Forall (Forall (λ a, a = NaN)) (bn_apply b (running_mean b) (running_var b) x).
Proof.
  intros Hv Hx. unfold bn_apply. apply Forall_fmap. eapply Forall_impl; [exact Hx|].
  intros row Hrow. cbv beta in Hrow. apply Forall_lookup. intros c a Ha.
  apply list_lookup_imap_Some in Ha as (a0 & Hc & ->). apply lookup_lt_Some in Hc.
  destruct (lookup_lt_is_Some_2 (running_var b) c) as [v Hvc]; [lia|].
  rewrite (list_lookup_total_correct _ _ _ Hvc), (Forall_lookup_1 _ _ _ _ Hv Hvc).
  apply bn_affine_NaN_var.
Qed.

(** Every row [bn2] sees in the head has the width of [linear1]. *)
Lemma head_rows_width b L1 i o (y : mat) :
  linear_shape L1 i o true →
  Forall (λ r, length r = o) (bn_apply b (running_mean b) (running_var b)
                                ((λ row : vec, relu <$> linear L1 row) <$> y)).
Proof.
  intros HL. unfold bn_apply. rewrite <-list_fmap_compose. apply Forall_fmap, Forall_forall.
  intros row _. simpl. rewrite length_imap, length_fmap. by eapply linear_shape_length.
Qed.

Section NanVar.
Context `{RandomSource G}.

(** C17: the NaN check of line 269 looks at [linear2.weight] only.  A
    diverged [bn2] (NaN running variance) in evaluation mode, with a
    finite [linear2.weight], passes it: on every batch meeting the
    conditions of [cgc_forward_eval_total], [forward] returns without
    error, and every probability it returns is NaN.  The spec (section 7)
    says non-finite parameters are always surfaced. *)
Theorem cgc_forward_nan_variance_undetected p d m (rng : G) :
  cgc_wf p m → 0 < MODEL_DENSE_NEURONS p → eval_mode m →
  Forall (λ r, length r = MODEL_FEAT_SIZE p) (data_x d) →
  indices_ok (length (data_x d)) (data_edge_index d) = true →
  edge_attr_ok m d → length (data_batch d) = length (data_x d) →
  (0 <= dropout_rate m <= 1)%R →
  Forall (λ v, v = NaN) (running_var (bn2 m)) →
  Forall finite (concat (weight (linear2 m))) → concat (weight (linear2 m)) ≠ [] →
  ∃ y, (cgc_forward d (m, rng)).1 = inr y ∧ Forall (Forall (λ a, a = NaN)) y.
Proof.
  intros Hw Hd Hev Hx Hi Hea Hb Hp Hv Hf Hne.
  destruct (cgc_forward_eval_run p d m rng Hev Hw Hx Hi Hea Hb Hp) as (y & _ & ->).
  destruct Hw as (Hn & _ & _ & Hlen & _ & HL1 & (_ & _ & _ & Hrv) & (_ & _ & H2r & _)).
  rewrite mean_finite by done. eexists. split; [reflexivity|].
  pose proof (head_rows_width (bn2 m) (linear1 m) _ _ y HL1) as Hwid.
  assert (Forall (Forall (λ a, a = NaN))
            (bn_apply (bn2 m) (running_mean (bn2 m)) (running_var (bn2 m))
               ((λ row : vec, relu <$> linear (linear1 m) row) <$> y))) as HN.
  { apply bn_apply_NaN_var; [done|]. apply Forall_fmap, Forall_forall. intros row _. simpl.
    rewrite length_fmap, (linear_shape_length _ _ _ _ HL1). lia. }
  unfold eval_head. rewrite <-list_fmap_compose. apply Forall_fmap.
  eapply Forall_impl; [apply Forall_and; split; [exact HN|exact Hwid]|].
  intros r [HNr Hlr]. simpl. apply Forall_fmap.
  eapply Forall_impl; [apply linear_NaN; [|by destruct r; simpl in Hlr; [lia|]|exact HNr]|].
  - eapply Forall_impl; [exact H2r|]. intros w Hlw. destruct w; simpl in Hlw; [lia|done].
  - intros a ->. reflexivity.
Qed.
End NanVar.

(** ** Witnesses on a model built by [CGCClass_init] *)

(** One feature, one layer, dropout [0.1], no edge encoder, one dense
    neuron, two outputs; parameters drawn from [zero_source]. *)
Module ClassifierDemo.
Definition params : model_params := mkParams 1 1 (/ 10) 0 0 1 0 2.
Definition model : CGCClass := (CGCClass_init (G:=unit) tt params).1.
Definition evaluated : CGCClass := eval model.
(** Two graphs: nodes 0 and 1 (one edge) and node 2. *)
Definition batch : Data :=
  mkData [[Fin 1]; [Fin 2]; [Fin 3]] [[Fin 1; nzero]; [nzero; Fin 1]] [(0, 1)] None [0; 0; 1].
(** A single graph. *)
Definition one_graph : Data := mkData [[Fin 1]; [Fin 2]] [[Fin 1; nzero]] [(0, 1)] None [0; 0].
(** [evaluated] with a NaN in [linear2.weight]. *)
Definition nan_weight : CGCClass :=
  mkCGC (n_layers evaluated) (dropout_rate evaluated) (edge_encoder evaluated) (edge_dim evaluated)
    (gnn_layers evaluated) (linear1 evaluated) (bn2 evaluated)
    (mkLinear 1 [[NaN]; [nzero]] (Some [nzero; nzero])) (training evaluated).
(** [evaluated] whose [bn2] has diverged to a NaN running variance. *)
Definition diverged : CGCClass :=
  set_bn2 evaluated (mkBN [Fin 1] [nzero] [nzero] [NaN] (/ 100000) (/ 10) false).
End ClassifierDemo.

(** Discharge the shape, mode and range conditions of the demo models by
    computation. *)
Ltac demo_conditions :=
  repeat match goal with
  | |- eval_mode _ =>
      split_and!; [reflexivity|reflexivity|]; simpl; repeat constructor;
      intros ? Hb; simpl in Hb; injection Hb as <-; reflexivity
  | |- cgc_wf _ _ =>
      unfold cgc_wf; simpl; split_and!; try reflexivity; try (repeat constructor; fail);
      constructor; [|constructor]; unfold layer_wf; simpl; split_and!; try reflexivity;
      try (repeat constructor; fail);
      eexists; split; [reflexivity|]; unfold bn_wf; simpl; split_and!; reflexivity
  | |- edge_attr_ok _ _ => exact I
  | |- (_ <= _ <= _)%R => simpl; lra
  | |- _ ≤ _ => simpl; lia
  | |- _ < _ => simpl; lia
  | |- Forall (λ v, v = NaN) _ => simpl; repeat constructor
  | |- Forall (λ r, length r = _) _ => simpl; repeat constructor
  | |- Forall finite _ => simpl; repeat constructor; try (eexists; split; [reflexivity|exact I])
  | |- _ ≠ [] => simpl; discriminate
  | |- _ = _ => reflexivity
  end.

Lemma demo_run :
  ∃ y, cgc_forward ClassifierDemo.batch (ClassifierDemo.evaluated, tt) = (inr y, (ClassifierDemo.evaluated, tt)).
Proof.
  destruct (cgc_forward_eval_run ClassifierDemo.params ClassifierDemo.batch ClassifierDemo.evaluated tt)
    as (y & _ & E);
    [demo_conditions..|].
  rewrite mean_finite in E; [by eexists|demo_conditions..].
Qed.

Lemma cgc_forward_probabilities_witness :
  ∃ y s', cgc_forward ClassifierDemo.batch (ClassifierDemo.evaluated, tt) = (inr y, s') ∧
    Forall (Forall (λ a, a = NaN ∨ fin_with (λ r, 0 <= r <= 1)%R a)) y.
Proof.
  destruct demo_run as [y E]. exists y, (ClassifierDemo.evaluated, tt). split; [exact E|].
  exact (cgc_forward_probabilities _ _ _ _ E).
Defined.

Lemma cgc_forward_frame_witness :
  ∃ r m' rng', cgc_forward ClassifierDemo.batch (ClassifierDemo.evaluated, tt) = (r, (m', rng')) ∧
    cgc_frame ClassifierDemo.evaluated m'.
Proof.
  destruct demo_run as [y E]. exists (inr y), ClassifierDemo.evaluated, tt. split; [exact E|].
  exact (cgc_forward_frame _ _ _ _ _ _ E).
Defined.

Lemma cgc_forward_nan_weight_witness :
  ∃ e, (cgc_forward ClassifierDemo.batch (ClassifierDemo.nan_weight, tt)).1 = inl e.
Proof. apply cgc_forward_nan_weight. reflexivity. Defined.

Lemma cgc_forward_single_graph_training_witness :
  ∃ e, (cgc_forward ClassifierDemo.one_graph (ClassifierDemo.model, tt)).1 = inl e.
Proof. apply cgc_forward_single_graph_training; reflexivity. Defined.

Lemma cgc_forward_eval_total_witness :
  match (cgc_forward ClassifierDemo.batch (ClassifierDemo.evaluated, tt)).1 with
  | inl e => e = RuntimeError ∧ isnan (mean (concat (weight (linear2 ClassifierDemo.evaluated)))) = true
  | inr _ => isnan (mean (concat (weight (linear2 ClassifierDemo.evaluated)))) = false
  end.
Proof. apply (cgc_forward_eval_total ClassifierDemo.params); demo_conditions. Defined.

Lemma cgc_forward_wf_witness :
  ∃ r m' rng', cgc_forward ClassifierDemo.batch (ClassifierDemo.evaluated, tt) = (r, (m', rng')) ∧
    cgc_wf ClassifierDemo.params m'.
Proof.
  destruct demo_run as [y E]. exists (inr y), ClassifierDemo.evaluated, tt. split; [exact E|].
  apply (cgc_forward_wf ClassifierDemo.params ClassifierDemo.batch ClassifierDemo.evaluated tt (inr y) _ tt);
    [demo_conditions|exact E].
Defined.

Lemma cgc_forward_nan_variance_undetected_witness :
  ∃ y, (cgc_forward ClassifierDemo.batch (ClassifierDemo.diverged, tt)).1 = inr y ∧
       Forall (Forall (λ a, a = NaN)) y.
Proof. apply (cgc_forward_nan_variance_undetected ClassifierDemo.params); demo_conditions. Defined.

(** ** One output row per graph *)

Lemma head_length `{RandomSource G} x s y s' : head (G:=G) x s = (inr y, s') → length y = length x.
Proof.
  destruct s as [m rng]. rewrite head_run.
  destruct (dropout _ _ _ _) as [|[x1 rng1]] eqn:Ed; [done|].
  destruct (linear_rows _ _) as [|x2] eqn:El; [done|]. apply linear_rows_inr in El as [-> _].
  destruct (bn_forward _ _) as [|[x3 b2]] eqn:Eb; [done|]. intros [= E _].
  apply linear_rows_inr in E as [-> _]. rewrite length_fmap. apply length_bn_forward in Eb.
  rewrite Eb, !length_fmap. by eapply dropout_length.
Qed.

(** [forward] returns one row per graph of the batch. *)
Lemma cgc_forward_rows `{RandomSource G} d s y s' :
  cgc_forward (G:=G) d s = (inr y, s') → length y = num_graphs (data_batch d).
Proof.
  unfold cgc_forward. intros E. pyst_inv E. pyst_simpl_steps.
  destruct (isnan _); [discriminate E|]. injection E as <- _. rewrite length_fmap.
  match goal with Hh : head _ _ = _ |- _ => apply head_length in Hh; rewrite Hh end.
  match goal with Hp : global_max_pool _ _ = inr _ |- _ => by apply global_max_pool_length in Hp end.
Qed.

Lemma length_linear_indep L x : length (linear L x) = length (linear L []).
Proof. by rewrite !length_linear. Qed.

(** Every row [forward] returns has the width of [linear2]'s output. *)
Lemma cgc_forward_row_width `{RandomSource G} d m (rng : G) y s' :
  cgc_forward d (m, rng) = (inr y, s') → Forall (λ r, length r = length (linear (linear2 m) [])) y.
Proof.
  unfold cgc_forward. intros E. pyst_inv E. pyst_simpl_steps.
  destruct (isnan _); [discriminate E|]. injection E as <- _.
  match goal with Hr : run_layers _ _ _ _ _ = _ |- _ => apply run_layers_frame in Hr; unfold frame in Hr end.
  match goal with Hh : head _ ?s = _ |- _ =>
    destruct s as [m1 rng1]; rewrite head_run in Hh end.
  destruct (dropout _ _ _ _) as [|[x1 rng2]]; [done|].
  destruct (linear_rows _ _) as [|x2]; [done|].
  destruct (bn_forward _ _) as [|[x3 b2]]; [done|].
  match goal with Hh : (linear_rows _ _, _) = (inr _, _) |- _ =>
    injection Hh as Hh _; apply linear_rows_inr in Hh as [-> _] end.
  match goal with Hf : cgc_frame _ _ |- _ => destruct Hf as (_&_&_&_&_&_&_&L2&_) end.
  simpl in L2. apply Forall_fmap, Forall_fmap, Forall_forall. intros r _. simpl.
  by rewrite length_fmap, length_linear_indep, L2.
Qed.

(** C14: the shape [forward] promises: on a model of the shapes
    [__init__] gives ([cgc_wf]), every returned output is a
    [num_graphs x MODEL_OUT_CHANNELS] matrix, one row of class scores per
    graph of the batch. *)
Theorem cgc_forward_shape `{RandomSource G} p d m (rng : G) y s' :
  cgc_wf p m → cgc_forward d (m, rng) = (inr y, s') →
  length y = num_graphs (data_batch d) ∧ Forall (λ r, length r = MODEL_OUT_CHANNELS p) y.
Proof.
  intros Hw E. split; [exact (cgc_forward_rows _ _ _ _ E)|].
  eapply Forall_impl; [exact (cgc_forward_row_width _ _ _ _ _ E)|]. intros r ->.
  apply (linear_shape_length _ (MODEL_DENSE_NEURONS p)). by destruct Hw as (_&_&_&_&_&_&_&L2).
Qed.

Lemma cgc_forward_shape_witness :
  ∃ y s', cgc_forward ClassifierDemo.batch (ClassifierDemo.evaluated, tt) = (inr y, s') ∧
    length y = 2 ∧ Forall (λ r, length r = 2) y.
Proof.
  destruct demo_run as [y E]. exists y, (ClassifierDemo.evaluated, tt). split; [exact E|].
  assert (cgc_wf ClassifierDemo.params ClassifierDemo.evaluated) as Hw by demo_conditions.
  exact (cgc_forward_shape ClassifierDemo.params _ _ _ _ _ Hw E).
Defined.
