(* ===== verification/Evaluate.v ===== *)
(** * [test]: the evaluation routine (lines 277-293 of [graph_neural_network.py])

    [test(model, loader, device)] switches the model to evaluation mode
    (and leaves it there), runs every batch through [forward], counts the
    graphs whose [argmax] prediction equals the [argmax] of the label row,
    adds up the [CrossEntropyLoss] of every batch, and divides both sums
    by [len(loader.dataset)].  The loss of a batch is already a MEAN over
    its graphs, so the returned loss is the sum of the batch means divided
    by the number of graphs, not the batch-size-weighted mean the spec
    (section 4.4) describes.

    [CrossEntropyLoss] follows torch: class probabilities when the shapes
    of the output and the labels agree, otherwise [ValueError] on the
    batch size and [RuntimeError] on the number of classes; a loader that
    reaches a batch whose labels have another number of classes than the
    model's outputs makes [test] raise ([test_class_mismatch_raises]).

    The model and the generator are the state of [pyst], as in
    [Classifier]; [device] and [torch.no_grad()] do not change values. *)

From Stdlib Require Import Reals Lra.
From S2P Require Import Prelude Num Tensor MYGNN Classifier.

(** [a] beats the current maximum [best] of [torch.argmax]: a larger
    number, or the first NaN (NaN counts as the maximum). *)
Definition beats (a best : num) : bool :=
  match best, a with
  | NaN, _ => false
  | Fin _, NaN => true
  | Fin x, Fin y => if Rlt_dec x y then true else false
  end.

Fixpoint argmax_from (best_i : nat) (best : num) (i : nat) (v : vec) : nat :=
  match v with
  | [] => best_i
  | a :: v => if beats a best then argmax_from i a (S i) v else argmax_from best_i best (S i) v
  end.

(** [row.argmax()]: the first index of a maximum; an empty row raises. *)
Definition argmax (v : vec) : res nat :=
  match v with [] => raise IndexError | a :: v => inr (argmax_from 0 a 1 v) end.

(** [log(sum(exp(v)))] *)
Definition logsumexp (v : vec) : num :=
  match vsum (nexp <$> v) with Fin s => Fin (ln s) | NaN => NaN end.

Definition log_softmax (v : vec) : vec := (λ a, nsub a (logsumexp v)) <$> v.

(** [CrossEntropyLoss()(out, y)] with the float targets [y] of the
    loader.  When the two shapes agree, [y] holds class probabilities and
    the loss is the mean over the rows of [-sum_c y[c] * log_softmax(out)[c]].
    Otherwise torch reads [y] as class indices: a batch size mismatch
    raises [ValueError], and a float target of the right batch size (a
    2-D tensor with another number of classes) raises [RuntimeError]. *)
Definition cross_entropy (out y : mat) : res num :=
  if negb (Nat.eqb (length out) (length y)) then raise ValueError
  else if negb (Nat.eqb (width out) (width y)) then raise RuntimeError
  else inr (mean (zip_with (λ o t, nsub nzero (dot t (log_softmax o))) out y)).

Section Test.
Context `{RandomSource G}.

(** One iteration of the loop of lines 283-292. *)
Definition test_step (acc : nat * num) (d : Data) : pyst (CGCClass * G) (nat * num) :=
  let '(correct, loss) := acc in
  out ← cgc_forward d;
  pred ← pyst_lift (mapM argmax out);
  label ← pyst_lift (mapM argmax (data_y d));
  batch_loss ← pyst_lift (cross_entropy out (data_y d));
  mret (correct + length (filter (λ pl : nat * nat, pl.1 = pl.2) (zip pred label)),
        nadd loss batch_loss).

Definition test_loop (loader : list Data) (acc : nat * num) : pyst (CGCClass * G) (nat * num) :=
  foldl (λ m d, a ← m; test_step a d) (mret acc) loader.

(** [test(model, loader, device)] with [len(loader.dataset)] as
    [dataset_len]: [correct / 0] raises [ZeroDivisionError]. *)
Definition test (loader : list Data) (dataset_len : nat) : pyst (CGCClass * G) (num * num) :=
  '(m, rng) ← pyst_get;
  pyst_put (eval m, rng);;
  '(correct, loss) ← test_loop loader (0, nzero);
  if decide (dataset_len = 0) then pyst_raise ZeroDivisionError
  else mret (ndiv (nat_num correct) (nat_num dataset_len), ndiv loss (nat_num dataset_len)).
End Test.

(** ** [test] leaves the model in evaluation mode *)

Section TestState.
Context `{RandomSource G}.

Lemma test_step_stays acc d : pyst_keeps stays (test_step (G:=G) acc d).
Proof.
  destruct acc as [c l]. unfold test_step.
  apply pyst_keeps_bind; [apply _|apply cgc_forward_stays|intros out].
  apply pyst_keeps_bind; [apply _|apply pyst_keeps_lift; apply _|intros pred].
  apply pyst_keeps_bind; [apply _|apply pyst_keeps_lift; apply _|intros label].
  apply pyst_keeps_bind; [apply _|apply pyst_keeps_lift; apply _|intros bl].
  apply pyst_keeps_ret; apply _.
Qed.

Lemma test_loop_stays loader acc : pyst_keeps stays (test_loop (G:=G) loader acc).
Proof.
  apply pyst_keeps_foldl; [apply _|apply pyst_keeps_ret; apply _|apply test_step_stays].
Qed.

Lemma test_run loader n m (rng : G) :
  test loader n (m, rng) =
  match test_loop loader (0, nzero) (eval m, rng) with
  | (inl e, s') => (inl e, s')
  | (inr (c, l), s') =>
      (if decide (n = 0) then inl ZeroDivisionError
       else inr (ndiv (nat_num c) (nat_num n), ndiv l (nat_num n)), s')
  end.
Proof.
  unfold test. pyst_unfold. destruct (test_loop _ _ _) as [[e|[c l]] s']; [done|].
  by case_decide.
Qed.

(** C21: [test] switches the model to evaluation mode and leaves it there,
    whether it returns or raises; no batch changes the model or the
    generator (spec, section 4.4). *)
Theorem test_leaves_eval loader n m (rng : G) : (test loader n (m, rng)).2 = (eval m, rng).
Proof.
  rewrite test_run.
  destruct (test_loop loader (0, nzero) (eval m, rng)) as [r s'] eqn:E.
  pose proof (test_loop_stays loader _ _ _ _ E (eval_eval_mode m)) as ->.
  by destruct r as [e|[c l]].
Qed.

(** On an empty dataset ([len(loader.dataset) == 0]) [test] never
    returns: [correct / 0] raises [ZeroDivisionError] unless a batch
    raised before. *)
Theorem test_empty_dataset loader m (rng : G) : ∃ e, (test loader 0 (m, rng)).1 = inl e.
Proof. rewrite test_run. destruct (test_loop _ _ _) as [[e|[c l]] s']; by eexists. Qed.
End TestState.

(** ** What [test] computes *)

Section TestSpec.
Context `{RandomSource G}.

(** One batch as [test] sees it with model [m] and generator [rng]: the
    output of [forward] (which leaves the state alone), the number of
    correct predictions, and the batch loss. *)
Definition batch_result (m : CGCClass) (rng : G) (d : Data) (r : mat * nat * num) : Prop :=
  cgc_forward d (m, rng) = (inr r.1.1, (m, rng)) ∧
  (∃ pred label, mapM argmax r.1.1 = inr pred ∧ mapM argmax (data_y d) = inr label ∧
     r.1.2 = length (filter (λ pl : nat * nat, pl.1 = pl.2) (zip pred label))) ∧
  cross_entropy r.1.1 (data_y d) = inr r.2.

Lemma test_step_spec c l d m (rng : G) c' l' s' :
  eval_mode m → test_step (c, l) d (m, rng) = (inr (c', l'), s') →
  ∃ r, batch_result m rng d r ∧ c' = c + r.1.2 ∧ l' = nadd l r.2 ∧ s' = (m, rng).
Proof.
  intros Hev E. unfold test_step in E. pyst_inv E. pyst_simpl_steps.
  match goal with Hf : cgc_forward _ _ = _ |- _ =>
    pose proof (cgc_forward_stays d _ _ _ Hf Hev) as Hs; simpl in Hs; subst end.
  cbv [mret pyst_ret] in E. injection E as <- <- <-.
  eexists (_, _, _). split_and!; [|reflexivity|reflexivity|reflexivity].
  unfold batch_result. simpl. split_and!; [eassumption| |eassumption].
  do 2 eexists. split_and!; [eassumption|eassumption|reflexivity].
Qed.

Lemma test_loop_spec loader c0 l0 m (rng : G) c l s' :
  eval_mode m → test_loop loader (c0, l0) (m, rng) = (inr (c, l), s') →
  ∃ rs, Forall2 (batch_result m rng) loader rs ∧
    c = c0 + sum_list (rs.*1).*2 ∧ l = foldl nadd l0 rs.*2 ∧ s' = (m, rng).
Proof.
  intros Hev. revert c0 l0. induction loader as [|d ds IH]; intros c0 l0 E.
  - injection E as <- <- <-. exists []. split_and!; [constructor|simpl; lia|done|done].
  - unfold test_loop in E. cbn [foldl] in E. rewrite pyst_foldl_run, pyst_bind_run in E.
    cbv [mret pyst_ret] in E. cbv iota beta in E.
    destruct (test_step (c0, l0) d (m, rng)) as [[e|[c1 l1]] s1] eqn:Es; [done|].
    destruct (test_step_spec _ _ _ _ _ _ _ _ Hev Es) as (r & Hr & -> & -> & ->).
    destruct (IH _ _ E) as (rs & Hrs & -> & -> & ->).
    exists (r :: rs). split_and!; [by constructor|rewrite !fmap_cons; cbn [sum_list]; unfold Datatypes.id; lia|done|done].
Qed.

(** C12: what [test] returns: with [rs] the output, the number of correct
    predictions and the [CrossEntropyLoss] of each batch (each computed
    by the evaluation-mode model, from the same generator state), the
    accuracy is [sum correct / len(dataset)] and the loss is
    [sum of batch losses / len(dataset)].  Each batch loss is already a
    mean over the batch's graphs, so the loss is not weighted by batch
    size, unlike the spec (section 4.4) and the commented-out training
    loop ([loss.item() * data.num_graphs]). *)
Theorem test_spec loader n m (rng : G) acc loss s' :
  test loader n (m, rng) = (inr (acc, loss), s') →
  ∃ rs, Forall2 (batch_result (eval m) rng) loader rs ∧ n ≠ 0 ∧
    acc = ndiv (nat_num (sum_list (rs.*1).*2)) (nat_num n) ∧
    loss = ndiv (foldl nadd nzero rs.*2) (nat_num n).
Proof.
  rewrite test_run. destruct (test_loop loader (0, nzero) (eval m, rng)) as [[e|[c l]] s1] eqn:E; [done|].
  case_decide as Hn; [done|]. intros [= <- <- _].
  destruct (test_loop_spec _ _ _ _ _ _ _ _ (eval_eval_mode m) E) as (rs & Hrs & -> & -> & _).
  by exists rs.
Qed.
End TestSpec.

(** ** The accuracy is a ratio *)

Section Accuracy.
Context `{RandomSource G}.

Lemma batch_result_correct_le m (rng : G) d r :
  batch_result m rng d r → r.1.2 ≤ num_graphs (data_batch d).
Proof.
  intros (Hf & (pred & label & Hp & Hl & ->) & _).
  rewrite <-(cgc_forward_rows d _ _ _ Hf), <-(mapM_res_length _ _ _ Hp).
  etrans; [apply length_filter|]. rewrite length_zip. lia.
Qed.

Lemma correct_sum_le m (rng : G) loader rs :
  Forall2 (batch_result m rng) loader rs →
  sum_list (rs.*1).*2 ≤ sum_list ((λ d, num_graphs (data_batch d)) <$> loader).
Proof.
  induction 1 as [|d r loader rs Hr _ IH]; [done|].
  pose proof (batch_result_correct_le _ _ _ _ Hr).
  change (r.1.2 + sum_list (rs.*1).*2 ≤
          num_graphs (data_batch d) + sum_list ((λ d, num_graphs (data_batch d)) <$> loader)).
  lia.
Qed.

(** C36: when [len(loader.dataset)] is at least the number of graphs the
    loader yields (it is equal for a PyG [DataLoader]), the accuracy
    [test] returns is a number in [[0, 1]]. *)
Theorem test_accuracy_bounds loader n m (rng : G) acc loss s' :
  test loader n (m, rng) = (inr (acc, loss), s') →
  sum_list ((λ d, num_graphs (data_batch d)) <$> loader) ≤ n →
  fin_with (λ r, 0 <= r <= 1)%R acc.
Proof.
  rewrite test_run. destruct (test_loop loader (0, nzero) (eval m, rng)) as [[e|[c l]] s1] eqn:E; [done|].
  case_decide as Hn0; [done|]. intros [= <- _ _] Hn.
  destruct (test_loop_spec _ _ _ _ _ _ _ _ (eval_eval_mode m) E) as (rs & Hrs & -> & _).
  pose proof (correct_sum_le _ _ _ _ Hrs) as Hc. unfold nat_num.
  destruct (Req_dec_T (INR n) 0) as [E0|_]; [exfalso; exact (not_0_INR n Hn0 E0)|].
  eexists. split; [reflexivity|]. apply ratio_bounds; lia.
Qed.
End Accuracy.

(** ** [test] returns on well-formed batches *)

Lemma mapM_argmax_ok (v : mat) : Forall (λ r, r ≠ []) v → ∃ l, mapM argmax v = inr l.
Proof.
  induction 1 as [|r v Hr _ [l IH]]; [by eexists|]. destruct r as [|a r]; [done|].
  simpl. rewrite IH. by eexists.
Qed.


Lemma layer_wf_train feat edim l mode : layer_wf feat edim l → layer_wf feat edim (mygnn_train l mode).
Proof.
  intros (Hc & Hd & Ha & Hn & b & Hb & Hw). split_and!; try done.
  exists (bn_train b mode). simpl. by rewrite Hb.
Qed.

(** [train(mode)] and [eval()] keep the shapes. *)
Lemma cgc_wf_train p m mode : cgc_wf p m → cgc_wf p (cgc_train m mode).
Proof.
  intros (H1 & H2 & H3 & H4 & H5 & H6 & H7 & H8). split_and!; try done.
  - simpl. by rewrite length_fmap.
  - apply Forall_fmap. eapply Forall_impl; [exact H5|]. intros l Hl. by apply layer_wf_train.
Qed.

(** A batch [test] can process: node features with [MODEL_FEAT_SIZE]
    columns, edge indices in range, the attributes the encoder needs
    (one row per edge, of the width [linear_edge1] takes), one [batch]
    entry per node, one non-empty label row per graph with one entry per
    output class. *)
Definition batch_ok (p : model_params) (m : CGCClass) (d : Data) : Prop :=
  Forall (λ r, length r = MODEL_FEAT_SIZE p) (data_x d) ∧
  indices_ok (length (data_x d)) (data_edge_index d) = true ∧ edge_attr_ok m d ∧
  length (data_batch d) = length (data_x d) ∧
  length (data_y d) = num_graphs (data_batch d) ∧ Forall (λ r, r ≠ []) (data_y d) ∧
  Forall (λ r, length r = length (linear (linear2 m) [])) (data_y d).

(** Two matrices with rows of one length and as many rows have one width. *)
Lemma width_uniform (x y : mat) c :
  Forall (λ r, length r = c) x → Forall (λ r, length r = c) y → length x = length y → width x = width y.
Proof. intros [|r x' Hr _] [|r' y' Hr' _]; simpl; [done|done|done|congruence]. Qed.

(** The two errors of [cross_entropy]: batch sizes, then classes. *)
Lemma cross_entropy_error out y err :
  cross_entropy out y = inl err →
  (length out ≠ length y ∧ err = ValueError) ∨
  (length out = length y ∧ width out ≠ width y ∧ err = RuntimeError).
Proof.
  unfold cross_entropy. destruct (Nat.eqb_spec (length out) (length y)); [|intros [= <-]; by left].
  destruct (Nat.eqb_spec (width out) (width y)); [done|]. intros [= <-]. by right.
Qed.

(** A batch [forward] processes whose label rows have another number of
    classes than the model's output rows. *)
Definition batch_class_mismatch (p : model_params) (m : CGCClass) (d : Data) : Prop :=
  Forall (λ r, length r = MODEL_FEAT_SIZE p) (data_x d) ∧
  indices_ok (length (data_x d)) (data_edge_index d) = true ∧ edge_attr_ok m d ∧
  length (data_batch d) = length (data_x d) ∧
  length (data_y d) = num_graphs (data_batch d) ∧ Forall (λ r, r ≠ []) (data_y d) ∧
  data_y d ≠ [] ∧ width (data_y d) ≠ length (linear (linear2 m) []).

Section Total.
Context `{RandomSource G}.
Context (p : model_params) (m : CGCClass) (rng : G).
Hypothesis (Hwf : cgc_wf p m) (Hev : eval_mode m) (Hout : 0 < MODEL_OUT_CHANNELS p).
Hypothesis (Hp : (0 <= dropout_rate m <= 1)%R).
Hypothesis (Hnan : isnan (mean (concat (weight (linear2 m)))) = false).

(** The forward pass of a batch in the loop: it returns, leaves the state
    alone, and gives one row per graph, each as wide as the output and
    with an [argmax]. *)
Lemma batch_forward d :
  Forall (λ r, length r = MODEL_FEAT_SIZE p) (data_x d) →
  indices_ok (length (data_x d)) (data_edge_index d) = true → edge_attr_ok m d →
  length (data_batch d) = length (data_x d) →
  ∃ out pred, cgc_forward d (m, rng) = (inr out, (m, rng)) ∧ mapM argmax out = inr pred ∧
    length out = num_graphs (data_batch d) ∧ Forall (λ r, length r = length (linear (linear2 m) [])) out.
Proof.
  intros Hx Hi Hea Hb.
  destruct (cgc_forward_eval_run p d m rng Hev Hwf Hx Hi Hea Hb Hp) as (y0 & _ & E).
  rewrite Hnan in E.
  pose proof (cgc_forward_row_width _ _ _ _ _ E) as Hwidth.
  destruct (mapM_argmax_ok ((λ row : vec, sigmoid <$> row) <$> eval_head m y0)) as [pred Hpr].
  { eapply Forall_impl; [exact Hwidth|]. intros r Hr.
    destruct Hwf as (_&_&_&_&_&_&_&L2). rewrite (linear_shape_length _ _ _ _ L2) in Hr.
    intros ->. simpl in Hr. lia. }
  eexists _, pred. split_and!; [exact E|exact Hpr|exact (cgc_forward_rows _ _ _ _ E)|exact Hwidth].
Qed.

(** Past [forward] and the two [argmax]es, the batch loss decides. *)
Lemma test_step_loss d c l out pred label :
  cgc_forward d (m, rng) = (inr out, (m, rng)) → mapM argmax out = inr pred →
  mapM argmax (data_y d) = inr label →
  test_step (c, l) d (m, rng) =
  match cross_entropy out (data_y d) with
  | inl e => (inl e, (m, rng))
  | inr bl => (inr (c + length (filter (λ pl : nat * nat, pl.1 = pl.2) (zip pred label)), nadd l bl), (m, rng))
  end.
Proof.
  intros E Hpr Hl. unfold test_step. rewrite pyst_bind_run, E. pyst_unfold. rewrite Hpr, Hl.
  by destruct (cross_entropy _ _).
Qed.

Lemma test_step_ok d c l :
  batch_ok p m d → ∃ c' l', test_step (c, l) d (m, rng) = (inr (c', l'), (m, rng)).
Proof.
  intros (Hx & Hi & Hea & Hb & Hy & Hyne & Hyw).
  destruct (batch_forward d Hx Hi Hea Hb) as (out & pred & E & Hpr & Hrows & Hwidth).
  destruct (mapM_argmax_ok (data_y d)) as [label Hl]; [done|].
  rewrite (test_step_loss _ _ _ _ _ _ E Hpr Hl).
  unfold cross_entropy. rewrite (width_uniform _ _ _ Hwidth Hyw) by (by rewrite Hrows, Hy).
  rewrite Hrows, Hy, !Nat.eqb_refl. simpl. by do 2 eexists.
Qed.

(** Label rows with another number of classes than the output: the loss
    raises [RuntimeError] and the loop stops. *)
Lemma test_step_class_mismatch d c l :
  batch_class_mismatch p m d → test_step (c, l) d (m, rng) = (inl RuntimeError, (m, rng)).
Proof.
  intros (Hx & Hi & Hea & Hb & Hy & Hyne & Hne & Hyw).
  destruct (batch_forward d Hx Hi Hea Hb) as (out & pred & E & Hpr & Hrows & Hwidth).
  destruct (mapM_argmax_ok (data_y d)) as [label Hl]; [done|].
  rewrite (test_step_loss _ _ _ _ _ _ E Hpr Hl).
  assert (width out = length (linear (linear2 m) [])) as Hw.
  { destruct out as [|r out]; [|apply Forall_cons in Hwidth as [Hr _]; exact Hr].
    exfalso. apply Hne, length_zero_iff_nil. simpl in Hrows. lia. }
  unfold cross_entropy. rewrite Hrows, Hy, Nat.eqb_refl, Hw. cbn [negb].
  rewrite (proj2 (Nat.eqb_neq _ _)) by (intros ?; by apply Hyw). done.
Qed.

Lemma test_loop_ok loader c l :
  Forall (batch_ok p m) loader → ∃ c' l', test_loop loader (c, l) (m, rng) = (inr (c', l'), (m, rng)).
Proof.
  intros Hall. revert c l. induction Hall as [|d loader Hd _ IH]; intros c l; [by do 2 eexists|].
  unfold test_loop. cbn [foldl]. rewrite pyst_foldl_run, pyst_bind_run. cbv [mret pyst_ret]. cbv iota beta.
  destruct (test_step_ok d c l Hd) as (c1 & l1 & ->). apply IH.
Qed.
(** Well-formed batches, then one with a class mismatch: the loop
    raises [RuntimeError] there, the state untouched. *)
Lemma test_loop_class_mismatch pre d post c l :
  Forall (batch_ok p m) pre → batch_class_mismatch p m d →
  test_loop (pre ++ d :: post) (c, l) (m, rng) = (inl RuntimeError, (m, rng)).
Proof.
  intros Hpre Hd. revert c l. induction Hpre as [|d0 pre Hd0 _ IH]; intros c l;
    unfold test_loop; cbn [app foldl]; rewrite pyst_foldl_run, pyst_bind_run;
    cbv [mret pyst_ret]; cbv iota beta.
  - by rewrite test_step_class_mismatch.
  - destruct (test_step_ok d0 c l Hd0) as (c1 & l1 & ->). apply IH.
Qed.
End Total.

(** C13: [test] returns: on a model of the shapes [__init__] gives, with
    at least one output class, a dropout rate in [[0, 1]] and a
    [linear2.weight] of non-NaN mean, every finite loader of well-formed
    batches and a non-empty dataset make [test] return an accuracy and a
    loss, leaving the model in evaluation mode. *)
Theorem test_returns `{RandomSource G} p loader n m (rng : G) :
  cgc_wf p m → 0 < MODEL_OUT_CHANNELS p → (0 <= dropout_rate m <= 1)%R →
  isnan (mean (concat (weight (linear2 m)))) = false → n ≠ 0 →
  Forall (batch_ok p m) loader →
  ∃ acc loss, test loader n (m, rng) = (inr (acc, loss), (eval m, rng)).
Proof.
  intros Hwf Hout Hp Hnan Hn Hall. rewrite test_run.
  destruct (test_loop_ok p (eval m) rng (cgc_wf_train p m false Hwf) (eval_eval_mode m) Hout Hp Hnan loader 0 nzero Hall)
    as (c & l & ->).
  rewrite decide_False by done. by do 2 eexists.
Qed.

(** On a well-formed model, a loader that reaches a batch whose label
    rows have another number of classes than the model's outputs makes
    [test] raise [RuntimeError] (torch's [CrossEntropyLoss] then reads the
    float labels as class indices), whatever [len(loader.dataset)]. *)
Lemma test_class_mismatch_raises `{RandomSource G} p pre d post n m (rng : G) :
  cgc_wf p m → 0 < MODEL_OUT_CHANNELS p → (0 <= dropout_rate m <= 1)%R →
  isnan (mean (concat (weight (linear2 m)))) = false →
  Forall (batch_ok p m) pre → batch_class_mismatch p m d →
  test (pre ++ d :: post) n (m, rng) = (inl RuntimeError, (eval m, rng)).
Proof.
  intros Hwf Hout Hp Hnan Hpre Hd. rewrite test_run.
  by rewrite (test_loop_class_mismatch p (eval m) rng (cgc_wf_train p m false Hwf) (eval_eval_mode m)
                Hout Hp Hnan pre d post 0 nzero Hpre Hd).
Qed.

(** ** Witnesses *)

(** [test] over one batch of the demo classifier returns. *)
Lemma demo_test_run :
  ∃ acc loss s', test [ClassifierDemo.batch] 2 (ClassifierDemo.model, tt) = (inr (acc, loss), s').
Proof.
  rewrite test_run. change (eval ClassifierDemo.model) with ClassifierDemo.evaluated.
  destruct (test_loop_ok ClassifierDemo.params ClassifierDemo.evaluated tt) with
    (loader := [ClassifierDemo.batch]) (c := 0) (l := nzero) as (c & l & ->);
    [demo_conditions|demo_conditions|demo_conditions|demo_conditions|apply mean_finite; demo_conditions| |].
  - repeat constructor; simpl; try lia; discriminate.
  - by do 3 eexists.
Qed.

Lemma test_spec_witness :
  ∃ acc loss s', test [ClassifierDemo.batch] 2 (ClassifierDemo.model, tt) = (inr (acc, loss), s') ∧
    ∃ rs, Forall2 (batch_result (eval ClassifierDemo.model) tt) [ClassifierDemo.batch] rs ∧ 2 ≠ 0 ∧
      acc = ndiv (nat_num (sum_list (rs.*1).*2)) (nat_num 2) ∧
      loss = ndiv (foldl nadd nzero rs.*2) (nat_num 2).
Proof.
  destruct demo_test_run as (acc & loss & s' & E). exists acc, loss, s'. split; [exact E|].
  exact (test_spec _ _ _ _ _ _ _ E).
Defined.

Lemma test_accuracy_bounds_witness :
  ∃ acc loss s', test [ClassifierDemo.batch] 2 (ClassifierDemo.model, tt) = (inr (acc, loss), s') ∧
    fin_with (λ r, 0 <= r <= 1)%R acc.
Proof.
  destruct demo_test_run as (acc & loss & s' & E). exists acc, loss, s'. split; [exact E|].
  apply (test_accuracy_bounds _ _ _ _ _ _ _ E). simpl. lia.
Defined.

Lemma test_returns_witness :
  ∃ acc loss, test [ClassifierDemo.batch] 2 (ClassifierDemo.model, tt) = (inr (acc, loss), (eval ClassifierDemo.model, tt)).
Proof.
  apply (test_returns ClassifierDemo.params);
    [demo_conditions|demo_conditions|demo_conditions|apply mean_finite; demo_conditions|lia|].
  repeat constructor; simpl; try lia; discriminate.
Defined.

(** ** Module-level data *)

(** [dataset_info] (lines 296-306): the root directory of each dataset,
    read only by the commented-out training script. *)
Definition dataset_info : gmap string (gmap string string) :=
  <["cfg" := {["root" := "examples/ponzi_src/dataset/cfg"]}]>
  (<["sliced" := {["root" := "examples/ponzi_src/dataset/sliced"]}]>
   {["etherscan" := {["root" := "examples/ponzi_src/dataset/etherscan"]}]}).


(** The demo batch with labels of three classes, for the demo model's two
    outputs. *)
Definition three_classes : Data :=
  mkData [[Fin 1]; [Fin 2]; [Fin 3]] [[Fin 1; nzero; nzero]; [nzero; Fin 1; nzero]] [(0, 1)] None [0; 0; 1].

Example demo_class_mismatch :
  test [three_classes] 2 (ClassifierDemo.model, tt) = (inl RuntimeError, (eval ClassifierDemo.model, tt)).
Proof.
  apply (test_class_mismatch_raises ClassifierDemo.params [] three_classes []);
    [demo_conditions|demo_conditions|demo_conditions|apply mean_finite; demo_conditions|constructor|].
  unfold batch_class_mismatch. split_and!; try demo_conditions.
  - repeat constructor; discriminate.
  - vm_compute. lia.
Qed.
